(** * LogoCraft: the logo configuration generator, its request boundary,
      the vector exporter and the 2D canvas renderer

    A shallow embedding of [api/_lib/logoConfig.js], the [/api/generate]
    serverless handler, [downloadLogoAsSVG] of the React application and
    the drawing code of [LogoCanvas.jsx].

    Conventions of the embedding.
    - A JavaScript string is the list of its UTF-16 code units.
    - [undefined] is [None]; a property read that may yield [undefined]
      returns an [option].
    - [Math.random], [randomUUID] and [Date.now] read from oracles held in
      an explicit [world]; a call advances the oracle's counter.
    - A JavaScript exception is the [Throws] outcome of the monad [M].
    - Numbers are rationals: the double arithmetic of the source is read
      over the exact values.  The products [Math.random() * n] whose floor
      indexes an array have [n] in {0, 1, 2, 4, 8}, where the double
      product is exact.  Elsewhere the program rounds each result to a
      double, which can carry it to the end of its range and not beyond:
      ranges of such numbers are stated closed.
    - A canvas operation is an entry of the trace of a render; the
      renderer is modelled where no canvas call throws (see [drawLogo]). *)

From Stdlib Require Import String.
From Stdlib Require Import List Ascii Bool Arith ZArith NArith QArith Qround Qminmax Lia.
From Stdlib Require Import Lqa.
From Stdlib Require DecimalString.
Import ListNotations.

Set Implicit Arguments.

(** ** JavaScript strings *)

Module JS.

Definition code_unit := N.
Definition jsstr := list code_unit.

(** A source literal, one code unit per ASCII character. *)
Definition lit (s : String.string) : jsstr :=
  map N_of_ascii (String.list_ascii_of_string s).

(** A source literal written here with an apostrophe where the source has
    a double quote (none of the literals concerned holds an apostrophe). *)
Definition quoted (s : String.string) : jsstr :=
  map (fun c => if N.eqb c 39 then 34%N else c) (lit s).

Fixpoint str_eqb (a b : jsstr) : bool :=
  match a, b with
  | [], [] => true
  | x :: a', y :: b' => N.eqb x y && str_eqb a' b'
  | _, _ => false
  end.

(** [arr.includes(val)] on an array of strings. *)
Definition includes (arr : list jsstr) (val : jsstr) : bool :=
  existsb (str_eqb val) arr.

(** [arr[i]] for a number [i]: [undefined] outside the array. *)
Definition array_get {A : Type} (arr : list A) (i : Z) : option A :=
  if (i <? 0)%Z then None else nth_error arr (Z.to_nat i).

(** WhiteSpace and LineTerminator code points of ECMAScript, the set
    [String.prototype.trim] strips. *)
Definition is_whitespace (c : code_unit) : bool :=
  existsb (N.eqb c)
    [9; 10; 11; 12; 13; 32; 160; 5760; 8192; 8193; 8194; 8195; 8196; 8197;
     8198; 8199; 8200; 8201; 8202; 8232; 8233; 8239; 8287; 12288; 65279]%N.

Fixpoint trimStart (s : jsstr) : jsstr :=
  match s with
  | c :: r => if is_whitespace c then trimStart r else s
  | [] => []
  end.

Definition trimEnd (s : jsstr) : jsstr := rev (trimStart (rev s)).

Definition trim (s : jsstr) : jsstr := trimEnd (trimStart s).

(** [s.slice(0, n)]. *)
Definition slice0 (n : nat) (s : jsstr) : jsstr := firstn n s.

(** [s.split(sep)] for a one-unit separator: the pieces between
    separators, empty pieces kept; the empty string gives one empty piece. *)
Fixpoint split (sep : code_unit) (s : jsstr) : list jsstr :=
  match s with
  | [] => [[]]
  | c :: r =>
      if N.eqb c sep then [] :: split sep r
      else match split sep r with
           | w :: ws => (c :: w) :: ws
           | [] => [[c]]
           end
  end.

(** [arr.join('')]. *)
Definition join (ws : list jsstr) : jsstr := concat ws.

(** [a || b] on values that are a string or [undefined]: [a] when it is
    truthy (a non-empty string), else [b]. *)
Definition or_else (a : option jsstr) (b : option jsstr) : option jsstr :=
  match a with
  | Some (_ :: _) => a
  | _ => b
  end.

(** [a || b] where [b] is a string. *)
Definition or_default (a : option jsstr) (b : jsstr) : jsstr :=
  match or_else a (Some b) with Some s => s | None => b end.

Definition SPACE : code_unit := 32%N.

(** The ASCII letters' upper case, other units unchanged: what
    [String.prototype.toUpperCase] does on a string of ASCII units. *)
Definition ascii_upper_unit (c : code_unit) : code_unit :=
  if (N.leb 97 c && N.leb c 122)%bool then (c - 32)%N else c.

Definition ascii_toUpperCase (s : jsstr) : jsstr := map ascii_upper_unit s.

End JS.
Import JS.

(** ** The runtime: entropy, identifiers, clock and exceptions *)

Module Runtime.

Inductive exn := TypeError | SyntaxError.

Inductive outcome (A : Type) :=
| Returns (a : A)
| Throws (e : exn).
Arguments Throws {A} e.

(** [random_source k] is the value of the [k]-th call of [Math.random]
    since the process started, [random_calls] the number of calls made so
    far; likewise for [randomUUID] and [Date.now]. *)
Record world := mkWorld {
  random_source : nat -> Q;
  random_calls : nat;
  uuid_source : nat -> jsstr;
  uuid_calls : nat;
  clock_source : nat -> Z;
  clock_calls : nat
}.

Definition M (A : Type) := world -> outcome A * world.

Definition ret {A} (a : A) : M A := fun w => (Returns a, w).

Definition bind {A B} (c : M A) (k : A -> M B) : M B :=
  fun w => match c w with
           | (Returns a, w') => k a w'
           | (Throws e, w') => (Throws e, w')
           end.

Definition throw {A} (e : exn) : M A := fun w => (Throws e, w).

(** A computation that touches no oracle. *)
Definition lift {A} (o : outcome A) : M A := fun w => (o, w).

Definition Math_random : M Q :=
  fun w => (Returns (random_source w (random_calls w)),
            mkWorld (random_source w) (S (random_calls w))
                    (uuid_source w) (uuid_calls w)
                    (clock_source w) (clock_calls w)).

Definition randomUUID : M jsstr :=
  fun w => (Returns (uuid_source w (uuid_calls w)),
            mkWorld (random_source w) (random_calls w)
                    (uuid_source w) (S (uuid_calls w))
                    (clock_source w) (clock_calls w)).

Definition Date_now : M Z :=
  fun w => (Returns (clock_source w (clock_calls w)),
            mkWorld (random_source w) (random_calls w)
                    (uuid_source w) (uuid_calls w)
                    (clock_source w) (S (clock_calls w))).

(** [Array.from({ length: n }, f)]: [f] is called [n] times, in index
    order; the first exception ends the construction. *)
Fixpoint Array_from {A} (n : nat) (f : M A) : M (list A) :=
  match n with
  | O => ret []
  | S n' => bind f (fun a => bind (Array_from n' f) (fun r => ret (a :: r)))
  end.

Definition Math_floor (q : Q) : Z := Qfloor q.

(** [Math.floor(Math.random() * n)] for the draw [u]. *)
Definition random_index (u : Q) (n : nat) : Z :=
  Math_floor (u * inject_Z (Z.of_nat n)).

(** Every [Math.random] result is a number in [0, 1). *)
Definition unit_range (w : world) : Prop :=
  forall k, 0 <= random_source w k /\ random_source w k < 1.

End Runtime.
Import Runtime.

Declare Scope js_scope.
Delimit Scope js_scope with js.
Notation "x <- c ;; k" := (bind c (fun x => k))
  (at level 61, c at next level, right associativity) : js_scope.
Local Open Scope js_scope.

(** ** api/_lib/logoConfig.js *)

(** The object literals of the catalogue and the palette object the
    generator returns: a property that is absent reads [undefined]. *)
Record Palette := mkPalette {
  primary : option jsstr;
  secondary : option jsstr;
  accent : option jsstr;
  bg : option jsstr;
  paletteName : option jsstr
}.

Definition swatch (p s a b : String.string) : Palette :=
  mkPalette (Some (lit p)) (Some (lit s)) (Some (lit a)) (Some (lit b)) None.

Definition COLOR_PALETTES : list (jsstr * list Palette) :=
  [ (lit "vibrant",
      [ swatch "#FF6B6B" "#4ECDC4" "#FFE66D" "#1A1A2E";
        swatch "#FF9A3C" "#FF6392" "#B5FFE1" "#16213E";
        swatch "#7B2FBE" "#EA60DA" "#C0FDFB" "#0F0E17";
        swatch "#FD3A69" "#FECD1A" "#FF884B" "#1A1A2E" ]);
    (lit "neon",
      [ swatch "#39FF14" "#FF073A" "#00FFFF" "#0D0D0D";
        swatch "#FF00FF" "#00FFFF" "#FFFF00" "#050505";
        swatch "#BF00FF" "#00FF41" "#FF9900" "#0a0a0a";
        swatch "#FF6600" "#00FFCC" "#FF0099" "#111111" ]);
    (lit "pastel",
      [ swatch "#FFB3BA" "#FFDFBA" "#FFFFBA" "#FFF5F5";
        swatch "#BAFFC9" "#BAE1FF" "#FFB3DE" "#F0FFF4";
        swatch "#C9B1FF" "#B1E8FF" "#FFB1C1" "#F5F0FF";
        swatch "#FFC8DD" "#BDE0FE" "#A2D2FF" "#FEFCE8" ]);
    (lit "monochrome",
      [ swatch "#FFFFFF" "#AAAAAA" "#555555" "#0A0A0A";
        swatch "#F5F5F5" "#CCCCCC" "#888888" "#111111";
        swatch "#111111" "#444444" "#777777" "#F5F5F5";
        swatch "#222222" "#666666" "#BBBBBB" "#FFFFFF" ]);
    (lit "golden",
      [ swatch "#FFD700" "#FFA500" "#FF8C00" "#1C1408";
        swatch "#F5C518" "#E8A400" "#D4901A" "#0F0A00";
        swatch "#FFD700" "#C0A000" "#FFEC8B" "#18140A";
        swatch "#DAA520" "#B8860B" "#FFD700" "#1A1200" ]);
    (lit "ocean",
      [ swatch "#00B4D8" "#0077B6" "#90E0EF" "#03045E";
        swatch "#48CAE4" "#023E8A" "#ADE8F4" "#03045E";
        swatch "#06D6A0" "#0496FF" "#FFBC42" "#0A1628";
        swatch "#4CC9F0" "#4361EE" "#7400B8" "#03045E" ]);
    (lit "fire",
      [ swatch "#FF4500" "#FF7519" "#FFD700" "#1A0500";
        swatch "#FF6D00" "#FF9500" "#FFBE0B" "#150300";
        swatch "#D62828" "#F77F00" "#FCBF49" "#1A0000";
        swatch "#E63946" "#457B9D" "#F1FAEE" "#1D3557" ]);
    (lit "galaxy",
      [ swatch "#7B2FBE" "#2176FF" "#FF6B6B" "#050510";
        swatch "#6A0572" "#AB83A1" "#F9A620" "#080016";
        swatch "#240046" "#7B2FBE" "#FF6B9D" "#03000D";
        swatch "#560BAD" "#480CA8" "#B5179E" "#03071E" ]) ].

Definition SHAPE_STYLES : list jsstr :=
  map lit ["hexagon"; "circle"; "diamond"; "shield"; "star"; "badge"; "infinity"; "arch"]%string.
Definition FONT_STYLES : list jsstr :=
  map lit ["serif"; "sans"; "mono"; "display"; "cursive"; "geometric"; "rounded"; "sharp"]%string.
Definition EFFECTS : list jsstr :=
  map lit ["glow"; "shadow"; "gradient"; "outline"; "emboss"; "neon"; "metallic"; "glass"]%string.
Definition LAYOUT_MODES : list jsstr :=
  map lit ["centered"; "stacked"; "horizontal"; "diagonal"; "circular"; "split"; "badge"; "monogram"]%string.
Definition PATTERNS : list jsstr :=
  map lit ["none"; "dots"; "lines"; "grid"; "waves"; "hexagons"; "triangles"; "circuits"]%string.

(** *** Property access on the catalogue object

    [COLOR_PALETTES] is an object literal, so its prototype is
    [Object.prototype]: [key in COLOR_PALETTES] and [COLOR_PALETTES[key]]
    also see the members it inherits. *)
Inductive jsvalue :=
| VArray (items : list Palette)   (* an array of palette objects *)
| VFunction (arity : nat)         (* a built-in function and its [length] *)
| VPrototype.                     (* [Object.prototype], read through [__proto__] *)

(** The properties of [Object.prototype] (ECMAScript, with Annex B), each
    method with its [length]. *)
Definition Object_prototype : list (jsstr * jsvalue) :=
  [ (lit "constructor", VFunction 1);
    (lit "__defineGetter__", VFunction 2);
    (lit "__defineSetter__", VFunction 2);
    (lit "hasOwnProperty", VFunction 1);
    (lit "__lookupGetter__", VFunction 1);
    (lit "__lookupSetter__", VFunction 1);
    (lit "isPrototypeOf", VFunction 1);
    (lit "propertyIsEnumerable", VFunction 1);
    (lit "toString", VFunction 0);
    (lit "valueOf", VFunction 0);
    (lit "__proto__", VPrototype);
    (lit "toLocaleString", VFunction 0) ].

Fixpoint assoc {A} (k : jsstr) (l : list (jsstr * A)) : option A :=
  match l with
  | [] => None
  | (k', v) :: r => if str_eqb k k' then Some v else assoc k r
  end.

(** [Object.keys(COLOR_PALETTES)]: the own keys, in insertion order. *)
Definition Object_keys {A} (o : list (jsstr * A)) : list jsstr := map fst o.

(** The property key a value is converted to: [undefined] becomes the
    string "undefined". *)
Definition property_key (k : option jsstr) : jsstr :=
  match k with Some s => s | None => lit "undefined" end.

(** [COLOR_PALETTES[key]]. *)
Definition get_property (key : option jsstr) : option jsvalue :=
  match assoc (property_key key) COLOR_PALETTES with
  | Some items => Some (VArray items)
  | None => assoc (property_key key) Object_prototype
  end.

(** [key in COLOR_PALETTES]. *)
Definition has_property (key : jsstr) : bool :=
  match get_property (Some key) with Some _ => true | None => false end.

(** [arr.length]: [undefined] on an object without that property. *)
Definition get_length (v : jsvalue) : option nat :=
  match v with
  | VArray items => Some (List.length items)
  | VFunction arity => Some arity
  | VPrototype => None
  end.

(** [arr[i]], where [i] is [None] for NaN: only an array has elements. *)
Definition get_element (v : jsvalue) (i : option Z) : option Palette :=
  match v, i with
  | VArray items, Some i => array_get items i
  | _, _ => None
  end.

(** [{ ...p, paletteName: key }]: spreading [undefined] copies nothing. *)
Definition spread_with_paletteName (p : option Palette) (key : option jsstr) : Palette :=
  match p with
  | Some p => mkPalette (primary p) (secondary p) (accent p) (bg p) key
  | None => mkPalette None None None None key
  end.

(** The [options] argument: a property that is absent is [None]. *)
Module Options.
Record t := mk {
  paletteType : option jsstr;
  shapeStyle : option jsstr;
  fontStyle : option jsstr;
  effect : option jsstr;
  layoutMode : option jsstr;
  pattern : option jsstr
}.
(** [{}]. *)
Definition empty : t := mk None None None None None None.
End Options.

(** A destructuring default [= 'random']. *)
Definition default_random (v : option jsstr) : jsstr :=
  match v with Some s => s | None => lit "random" end.

Record Bezier := mkBezier { cx1 : Q; cy1 : Q; cx2 : Q; cy2 : Q }.

Module Logo.
Record t := mk {
  id : jsstr;
  name : jsstr;
  initials : jsstr;
  palette : Palette;
  shape : option jsstr;
  fontStyle : option jsstr;
  effect : option jsstr;
  layout : option jsstr;
  pattern : option jsstr;
  rotation : Q;
  scale : Q;
  shapeSize : Q;
  fontSize : Q;
  letterSpacing : Q;
  borderRadius : Q;
  strokeWidth : Q;
  glowIntensity : Q;
  innerRotation : Q;
  decorCount : Z;
  bezierCurves : list Bezier;
  hslShift : Z;
  timestamp : Z
}.
End Logo.

Section Generator.

(** [String.prototype.toUpperCase], the Unicode upper-case mapping of the
    runtime. *)
Variable toUpperCase : jsstr -> jsstr.

(** [w[0]?.toUpperCase()]. *)
Definition first_unit_upper (w : jsstr) : option jsstr :=
  match w with
  | c :: _ => Some (toUpperCase [c])
  | [] => None
  end.

(** Line 112:
    [name.split(' ').map(w => w[0]?.toUpperCase() || '').join('').slice(0, 3)
       || name[0]?.toUpperCase() || 'L']. *)
Definition compute_initials (name : jsstr) : jsstr :=
  or_default
    (or_else
       (Some (slice0 3 (join (map (fun w => or_default (first_unit_upper w) [])
                                  (split SPACE name)))))
       (first_unit_upper name))
    (lit "L").

(** Lines 75-80. *)
Definition pickPalette (paletteType : jsstr) : M Palette :=
  let keys := Object_keys COLOR_PALETTES in
  key <- (if str_eqb paletteType (lit "random")
          then u <- Math_random ;;
               ret (array_get keys (random_index u (List.length keys)))
          else ret (if has_property paletteType then Some paletteType
                    else array_get keys 0%Z)) ;;
  let arr := get_property key in
  u <- Math_random ;;
  match arr with
  | None => throw TypeError    (* reading [length] of [undefined] *)
  | Some arr =>
      ret (spread_with_paletteName
             (get_element arr (option_map (random_index u) (get_length arr)))
             key)
  end.

(** Lines 82-84. *)
Definition pick (arr : list jsstr) (val : jsstr) : M (option jsstr) :=
  if str_eqb val (lit "random") || negb (includes arr val)
  then u <- Math_random ;; ret (array_get arr (random_index u (List.length arr)))
  else ret (Some val).

Definition bezier : M Bezier :=
  a <- Math_random ;; b <- Math_random ;; c <- Math_random ;; d <- Math_random ;;
  ret (mkBezier (a * 200 - 100) (b * 200 - 100) (c * 200 - 100) (d * 200 - 100)).

(** Lines 65-138.  The numbers of lines 86-94 and 103-108 are the exact
    values of the expressions, which the program rounds to doubles. *)
Definition generateLogoConfig (name : jsstr) (options : Options.t) : M Logo.t :=
  let paletteType := default_random (Options.paletteType options) in
  let shapeStyle := default_random (Options.shapeStyle options) in
  let fontStyle := default_random (Options.fontStyle options) in
  let effect := default_random (Options.effect options) in
  let layoutMode := default_random (Options.layoutMode options) in
  let pattern := default_random (Options.pattern options) in
  u1 <- Math_random ;; let rotation := u1 * 360 in
  u2 <- Math_random ;; let scale := (7 # 10) + u2 * (6 # 10) in
  u3 <- Math_random ;; let shapeSize := 120 + u3 * 80 in
  u4 <- Math_random ;; let fontSize := 24 + u4 * 24 in
  u5 <- Math_random ;; let letterSpacing := u5 * 8 - 2 in
  u6 <- Math_random ;; let borderRadius := u6 * 50 in
  u7 <- Math_random ;; let strokeWidth := 1 + u7 * 4 in
  u8 <- Math_random ;; let glowIntensity := 5 + u8 * 20 in
  u9 <- Math_random ;; let innerRotation := u9 * 30 - 15 in
  u10 <- Math_random ;; let decorCount := (3 + random_index u10 8)%Z in
  palette <- pickPalette paletteType ;;
  selectedShape <- pick SHAPE_STYLES shapeStyle ;;
  selectedFont <- pick FONT_STYLES fontStyle ;;
  selectedEffect <- pick EFFECTS effect ;;
  selectedLayout <- pick LAYOUT_MODES layoutMode ;;
  selectedPattern <- pick PATTERNS pattern ;;
  bezierCurves <- Array_from 2 bezier ;;
  u11 <- Math_random ;; let hslShift := random_index u11 360 in
  let initials := compute_initials name in
  id <- randomUUID ;;
  timestamp <- Date_now ;;
  ret (Logo.mk id name initials palette selectedShape selectedFont
               selectedEffect selectedLayout selectedPattern
               rotation scale shapeSize fontSize letterSpacing borderRadius
               strokeWidth glowIntensity innerRotation decorCount
               bezierCurves hslShift timestamp).

End Generator.

(** ** api/generate.js *)

Module Generate.

(** A JSON value as far as the handler tells values apart. *)
Inductive json :=
| JNull
| JBool (b : bool)
| JNumber (q : Q)
| JString (s : jsstr)
| JObject.                       (* an object or an array *)

(** The properties the handler reads off the request body.  [count] is
    an integer-valued number and [filters] an object; a property that is
    absent is [None]. *)
Record Body := mkBody {
  name : option json;
  count : option Z;
  filters : option Options.t
}.

Inductive request_body :=
| BodyUndefined                  (* no body: [undefined] or [null] *)
| BodyObject (b : Body)          (* a body the platform has parsed *)
| BodyString (s : jsstr).        (* a raw body, still to be parsed *)

Record request := mkRequest {
  method : jsstr;
  body : request_body
}.

Inductive payload :=
| ErrorJson (error : jsstr)                       (* [{ error }] *)
| LogosJson (logos : list Logo.t) (name : jsstr). (* [{ logos, name }] *)

Record response := mkResponse {
  headers : list (jsstr * jsstr);
  status : Z;
  sent : option payload           (* [None]: [end()] with no body *)
}.

(** What [JSON.parse] makes of a raw body. *)
Inductive parsed :=
| ParseError                     (* SyntaxError *)
| ParsedNull                     (* the text [null] *)
| ParsedValue (b : Body).        (* any other value, by the properties it has *)

(** [!v]. *)
Definition falsy (v : option json) : bool :=
  match v with
  | None | Some JNull => true
  | Some (JBool b) => negb b
  | Some (JNumber q) => Qeq_bool q 0
  | Some (JString s) => match s with [] => true | _ => false end
  | Some JObject => false
  end.

(** [typeof v === 'string']. *)
Definition typeof_string (v : option json) : bool :=
  match v with Some (JString _) => true | _ => false end.

(** The code units of a value whose type is string. *)
Definition string_of (v : option json) : jsstr :=
  match v with Some (JString s) => s | _ => [] end.

(** [a || b] on integers: 0 is falsy. *)
Definition or_number (a b : Z) : Z := if (a =? 0)%Z then b else a.

Definition cors : list (jsstr * jsstr) :=
  [ (lit "Access-Control-Allow-Origin", lit "*");
    (lit "Access-Control-Allow-Methods", lit "POST, OPTIONS");
    (lit "Access-Control-Allow-Headers", lit "Content-Type") ].

Definition try_catch {A} (c : M A) (h : exn -> M A) : M A :=
  fun w => match c w with
           | (Throws e, w') => h e w'
           | r => r
           end.

Section Handler.

Variable toUpperCase : jsstr -> jsstr.
Variable JSON_parse : jsstr -> parsed.
(** [parseInt] of a number that [ToString] writes in exponent notation
    (magnitude 10^21 and above): the digits before the point or the "e". *)
Variable parseInt_exponent : Z -> Z.

(** [parseInt(count, 10)] for an integer-valued [count]: below 10^21 the
    number is written as its decimal numeral, which is read back. *)
Definition parseInt10 (count : Z) : Z :=
  if (Z.abs count <? 10 ^ 21)%Z then count else parseInt_exponent count.

(** Line 30: [Math.min(Math.max(1, parseInt(count, 10) || 9), 12)], with
    the default [count = 9] of line 22. *)
Definition batch_size (count : option Z) : Z :=
  let count := match count with Some c => c | None => 9%Z end in
  Z.min (Z.max 1 (or_number (parseInt10 count) 9)) 12.

(** Line 22: the object the body is destructured as; [JSON.parse] may
    throw, and so does destructuring [null]. *)
Definition destructure (b : request_body) : outcome Body :=
  match b with
  | BodyString s =>
      match JSON_parse s with
      | ParseError => Throws SyntaxError
      | ParsedNull => Throws TypeError
      | ParsedValue b => Returns b
      end
  | BodyObject b => Returns b
  | BodyUndefined => Returns (mkBody None None None)
  end.

Definition handler (req : request) : M response :=
  if str_eqb (method req) (lit "OPTIONS") then
    ret (mkResponse cors 204 None)
  else if negb (str_eqb (method req) (lit "POST")) then
    ret (mkResponse cors 405 (Some (ErrorJson (lit "Method not allowed"))))
  else
    try_catch
      (b <- lift (destructure (body req)) ;;
       let filters := match filters b with Some f => f | None => Options.empty end in
       if falsy (name b) || negb (typeof_string (name b))
          || Nat.eqb (List.length (trim (string_of (name b)))) 0
       then ret (mkResponse cors 400 (Some (ErrorJson (lit "A logo name is required."))))
       else
         let trimmed := slice0 50 (trim (string_of (name b))) in
         logos <- Array_from (Z.to_nat (batch_size (count b)))
                             (generateLogoConfig toUpperCase trimmed filters) ;;
         ret (mkResponse cors 200 (Some (LogosJson logos trimmed))))
      (fun _ => ret (mkResponse cors 500 (Some (ErrorJson (lit "Internal server error"))))).

End Handler.

End Generate.

(** ** logo-designer/src/App.jsx: the vector exporter *)

Module App.

(** The substitutions of the template literal of [downloadLogoAsSVG]. *)
Inductive hole :=
| PalettePrimary        (* [${palette.primary}] *)
| PaletteSecondary      (* [${palette.secondary}] *)
| PaletteAccent         (* [${palette.accent}] *)
| PaletteBg             (* [${palette.bg}] *)
| FontSize              (* [${Math.min(64, 560 / Math.max(n.length, 1))}] *)
| LetterSpacing         (* [${letterSpacing || 2}] *)
| UpperName.            (* [${n.toUpperCase()}] *)

(** A template literal: its literal chunks and its substitutions, in
    order. *)
Inductive segment :=
| Text (s : jsstr)
| Subst (h : hole).

Definition nl : segment := Text [10%N].

(** Lines 41-62. *)
Definition svg_template : list segment :=
  [ Text (quoted "<svg xmlns='http://www.w3.org/2000/svg' width='600' height='600' viewBox='0 0 600 600'>"); nl;
    Text (quoted "  <defs>"); nl;
    Text (quoted "    <linearGradient id='fill' x1='0%' y1='0%' x2='100%' y2='100%'>"); nl;
    Text (quoted "      <stop offset='0%' style='stop-color:"); Subst PalettePrimary;
    Text (quoted ";stop-opacity:0.9' />"); nl;
    Text (quoted "      <stop offset='100%' style='stop-color:"); Subst PaletteSecondary;
    Text (quoted ";stop-opacity:0.9' />"); nl;
    Text (quoted "    </linearGradient>"); nl;
    Text (quoted "    <filter id='glow'><feGaussianBlur stdDeviation='4' result='coloredBlur'/>"); nl;
    Text (quoted "      <feMerge><feMergeNode in='coloredBlur'/><feMergeNode in='SourceGraphic'/></feMerge>"); nl;
    Text (quoted "    </filter>"); nl;
    Text (quoted "  </defs>"); nl;
    Text (quoted "  <rect width='600' height='600' fill='"); Subst PaletteBg;
    Text (quoted "' rx='24'/>"); nl;
    Text (quoted "  <circle cx='300' cy='300' r='200' fill='url(#fill)' stroke='"); Subst PalettePrimary;
    Text (quoted "' stroke-width='3' filter='url(#glow)' opacity='0.3'/>"); nl;
    Text (quoted "  <circle cx='300' cy='300' r='145' fill='none' stroke='"); Subst PaletteAccent;
    Text (quoted "' stroke-width='1.5' opacity='0.4'/>"); nl;
    Text (quoted "  <text x='300' y='320' text-anchor='middle' dominant-baseline='middle'"); nl;
    Text (quoted "    font-family='Inter, sans-serif' font-weight='800'"); nl;
    Text (quoted "    font-size='"); Subst FontSize; Text (quoted "px'"); nl;
    Text (quoted "    letter-spacing='"); Subst LetterSpacing; Text (quoted "'"); nl;
    Text (quoted "    fill='"); Subst PalettePrimary;
    Text (quoted "' filter='url(#glow)'>"); Subst UpperName; Text (quoted "</text>"); nl;
    Text (quoted "  <text x='300' y='380' text-anchor='middle'"); nl;
    Text (quoted "    font-family='Inter, sans-serif' font-size='20px'"); nl;
    Text (quoted "    fill='"); Subst PaletteSecondary;
    Text (quoted "' opacity='0.7'>BRAND</text>"); nl;
    Text (quoted "</svg>") ].

(** [${v}] for a value that is a string or [undefined]. *)
Definition show (v : option jsstr) : jsstr :=
  match v with Some s => s | None => lit "undefined" end.

(** [a || b] on numbers: 0 is falsy. *)
Definition or_number (a b : Q) : Q := if Qeq_bool a 0 then b else a.

(** [str.replace(/\s+/g, '-')]: [in_run] holds inside a whitespace run. *)
Fixpoint hyphenate (in_run : bool) (s : jsstr) : jsstr :=
  match s with
  | [] => []
  | c :: r =>
      if is_whitespace c
      then (if in_run then hyphenate true r else 45%N :: hyphenate true r)
      else c :: hyphenate false r
  end.

(** What the export hands to [saveAs] and to [showToast]. *)
Record download := mkDownload {
  content : jsstr;
  filename : jsstr;
  toast : jsstr;
  toast_icon : jsstr
}.

Section Exporter.

Variable toUpperCase : jsstr -> jsstr.
Variable toLowerCase : jsstr -> jsstr.
(** [Number::toString], the decimal text of a number. *)
Variable Number_toString : Q -> jsstr.

Definition substitute (config : Logo.t) (h : hole) : jsstr :=
  let n := Logo.name config in
  let palette := Logo.palette config in
  let letterSpacing := Logo.letterSpacing config in
  match h with
  | PalettePrimary => show (primary palette)
  | PaletteSecondary => show (secondary palette)
  | PaletteAccent => show (accent palette)
  | PaletteBg => show (bg palette)
  | FontSize =>
      Number_toString
        (Qmin 64 (560 / Qmax (inject_Z (Z.of_nat (List.length n))) 1))
  | LetterSpacing => Number_toString (or_number letterSpacing 2)
  | UpperName => toUpperCase n
  end.

Definition render (config : Logo.t) (t : list segment) : jsstr :=
  concat (map (fun s => match s with
                        | Text s => s
                        | Subst h => substitute config h
                        end) t).

Definition svgContent (config : Logo.t) : jsstr := render config svg_template.

(** Lines 39-66. *)
Definition downloadLogoAsSVG (config : Logo.t) : download :=
  let n := Logo.name config in
  mkDownload (svgContent config)
             (toLowerCase (hyphenate false n) ++ lit "-logo.svg")
             (quoted "Saved '" ++ n ++ quoted "' as SVG")
             [11015; 65039]%N.

End Exporter.

(** The literal text of a template, substitutions left out. *)
Definition literal_text (t : list segment) : jsstr :=
  concat (map (fun s => match s with Text s => s | Subst _ => [] end) t).

Definition is_subst (h : hole) (s : segment) : bool :=
  match s, h with
  | Subst PalettePrimary, PalettePrimary
  | Subst PaletteSecondary, PaletteSecondary
  | Subst PaletteAccent, PaletteAccent
  | Subst PaletteBg, PaletteBg
  | Subst FontSize, FontSize
  | Subst LetterSpacing, LetterSpacing
  | Subst UpperName, UpperName => true
  | _, _ => false
  end.

(** How often a template substitutes [h]. *)
Definition substitutions (h : hole) (t : list segment) : nat :=
  List.length (filter (is_subst h) t).

Fixpoint starts_with (pat s : jsstr) : bool :=
  match pat, s with
  | [], _ => true
  | p :: pat', c :: s' => N.eqb p c && starts_with pat' s'
  | _ :: _, [] => false
  end.

(** The number of positions of [s] at which [pat] occurs. *)
Fixpoint occurrences (pat s : jsstr) : nat :=
  match s with
  | [] => if starts_with pat [] then 1 else 0
  | _ :: r => (if starts_with pat s then 1 else 0) + occurrences pat r
  end.

(** The font size of the name, line 56:
    [Math.min(64, 560 / Math.max(n.length, 1))]. *)
Definition font_size (n : jsstr) : Q :=
  Qmin 64 (560 / Qmax (inject_Z (Z.of_nat (List.length n))) 1).

(** [Number::toString] on integers: the decimal numeral. *)
Definition integer_toString (q : Q) : jsstr :=
  lit (DecimalString.NilZero.string_of_int (Z.to_int (Qfloor q))).

End App.

(** ** logo-designer/src/LogoCanvas.jsx: the 2D renderer

    The renderer is read as the sequence of operations it issues on the
    canvas context, in order.  The context starts each render in its
    initial state (a fresh canvas in [renderToDataURL], a canvas whose
    [width] has just been assigned in the component), so the pixels are a
    function of that sequence. *)

Module LogoCanvas.

Inductive gradient :=
| LinearGradient (x0 y0 x1 y1 : Q) (stops : list (Q * option jsstr))
| RadialGradient (x0 y0 r0 x1 y1 r1 : Q) (stops : list (Q * option jsstr)).

(** A value assigned to [fillStyle] or [strokeStyle]. *)
Inductive style :=
| Css (v : option jsstr)
| Grad (g : gradient).

Inductive command :=
| ClearRect (x y w h : Q)
| RoundRect (x y w h radii : Q)
| BeginPath
| ClosePath
| MoveTo (x y : Q)
| LineTo (x y : Q)
| BezierCurveTo (c1x c1y c2x c2y x y : Q)
| Arc (x y r a0 a1 : Q)
| Fill
| Stroke
| Save
| Restore
| Translate (x y : Q)
| Rotate (a : Q)
| FillText (text : jsstr) (x y : Q)
| StrokeText (text : jsstr) (x y : Q)
| SetFillStyle (s : style)
| SetStrokeStyle (s : style)
| SetLineWidth (v : Q)
| SetGlobalAlpha (v : Q)
| SetShadowBlur (v : Q)
| SetShadowColor (v : option jsstr)
| SetShadowOffsetX (v : Q)
| SetShadowOffsetY (v : Q)
| SetFont (v : jsstr)
| SetLetterSpacing (v : jsstr)
| SetTextAlign (v : jsstr)
| SetTextBaseline (v : jsstr).

Definition FONT_MAP : list (jsstr * jsstr) :=
  [ (lit "serif", quoted "Georgia, 'Times New Roman', serif");
    (lit "sans", quoted "'Inter', 'Helvetica Neue', sans-serif");
    (lit "mono", quoted "'JetBrains Mono', 'Courier New', monospace");
    (lit "display", quoted "'Space Grotesk', 'Arial Black', sans-serif");
    (lit "cursive", quoted "'Palatino Linotype', 'Book Antiqua', Palatino, serif");
    (lit "geometric", quoted "'Futura', 'Century Gothic', 'Apple Gothic', sans-serif");
    (lit "rounded", quoted "'Nunito', 'Varela Round', sans-serif");
    (lit "sharp", quoted "'Oswald', 'Arial Narrow', sans-serif") ].

(** [v === 'literal'] for a value that is a string or [undefined]. *)
Definition is_lit (v : option jsstr) (s : String.string) : bool :=
  match v with Some x => str_eqb x (lit s) | None => false end.

(** The values [0, step, 2 step, ...] below [limit]: the iterations of
    [for (let x = 0; x < limit; x += step)]. *)
Definition steps (limit step : Q) : list Q :=
  map (fun i => inject_Z (Z.of_nat i) * step)
      (seq 0 (Z.to_nat (Qceiling (limit / step)))).

(** The indices [0 .. n-1]: the iterations of [for (let i = 0; i < n; i++)]. *)
Definition indices (n : Z) : list Z := map Z.of_nat (seq 0 (Z.to_nat n)).

Section Renderer.

Variable toUpperCase : jsstr -> jsstr.
Variable Number_toString : Q -> jsstr.
Variable Math_PI : Q.
Variable Math_cos : Q -> Q.
Variable Math_sin : Q -> Q.
(** [shiftHue(hex, shift)] for a string [hex] (lines 58-76): colour
    arithmetic on doubles that reads nothing but its two arguments. *)
Variable shiftHue : jsstr -> Q -> jsstr.
(** [`${v}`] for a member [FONT_MAP] inherits from [Object.prototype]. *)
Variable inherited_text : jsvalue -> jsstr.

(** Lines 35-43. *)
Definition polygonPath (cx cy r : Q) (sides : Z) (rotation : Q) : list command :=
  [BeginPath]
  ++ map (fun i =>
            let angle := (Math_PI * 2 * inject_Z i) / inject_Z sides - Math_PI / 2 + rotation in
            if (i =? 0)%Z
            then MoveTo (cx + r * Math_cos angle) (cy + r * Math_sin angle)
            else LineTo (cx + r * Math_cos angle) (cy + r * Math_sin angle))
         (indices sides)
  ++ [ClosePath].

(** Lines 46-55. *)
Definition starPath (cx cy outerR innerR : Q) (points : Z) (rotation : Q) : list command :=
  [BeginPath]
  ++ map (fun i =>
            let angle := (Math_PI * inject_Z i) / inject_Z points - Math_PI / 2 + rotation in
            let r := if (i mod 2 =? 0)%Z then outerR else innerR in
            if (i =? 0)%Z
            then MoveTo (cx + r * Math_cos angle) (cy + r * Math_sin angle)
            else LineTo (cx + r * Math_cos angle) (cy + r * Math_sin angle))
         (indices (points * 2))
  ++ [ClosePath].

(** Lines 79-120. *)
Definition buildShape (shape : option jsstr) (cx cy r : Q) : list command :=
  if is_lit shape "circle" then
    [BeginPath; Arc cx cy r 0 (Math_PI * 2)]
  else if is_lit shape "hexagon" then
    polygonPath cx cy r 6 (Math_PI / 6)
  else if is_lit shape "diamond" then
    polygonPath cx cy r 4 0
  else if is_lit shape "shield" then
    [ BeginPath;
      MoveTo cx (cy - r);
      LineTo (cx + r) (cy - r * 0.4);
      LineTo (cx + r) (cy + r * 0.2);
      BezierCurveTo (cx + r) (cy + r * 0.8) cx (cy + r) cx (cy + r);
      BezierCurveTo cx (cy + r) (cx - r) (cy + r * 0.8) (cx - r) (cy + r * 0.2);
      LineTo (cx - r) (cy - r * 0.4);
      ClosePath ]
  else if is_lit shape "star" then
    starPath cx cy r (r * 0.45) 5 0
  else if is_lit shape "badge" then
    polygonPath cx cy r 8 (Math_PI / 8)
  else if is_lit shape "infinity" then
    let w := r * 0.6 in
    [ BeginPath;
      MoveTo cx cy;
      BezierCurveTo (cx - w) (cy - r) (cx - r * 1.6) (cy - r) (cx - r * 1.6) cy;
      BezierCurveTo (cx - r * 1.6) (cy + r) (cx - w) (cy + r) cx cy;
      BezierCurveTo (cx + w) (cy - r) (cx + r * 1.6) (cy - r) (cx + r * 1.6) cy;
      BezierCurveTo (cx + r * 1.6) (cy + r) (cx + w) (cy + r) cx cy;
      ClosePath ]
  else if is_lit shape "arch" then
    [ BeginPath;
      Arc cx cy r Math_PI 0;
      LineTo (cx + r) (cy + r * 0.6);
      BezierCurveTo (cx + r * 0.5) (cy + r * 1.1) (cx - r * 0.5) (cy + r * 1.1) (cx - r) (cy + r * 0.6);
      ClosePath ]
  else
    polygonPath cx cy r 6 0.

(** The node of a circuit at [(x, y)], lines 169-170. *)
Definition node (x y : Q) : list command :=
  [ BeginPath; Arc x y 3 0 (Math_PI * 2); Stroke;
    BeginPath; MoveTo x y; LineTo (x + 40) y; LineTo (x + 40) (y + 40); Stroke ].

(** One iteration of the [circuits] loop, lines 168-170: two draws place
    the node. *)
Definition circuit (size : Q) : M (list command) :=
  u <- Math_random ;; let x := u * size in
  v <- Math_random ;; let y := v * size in
  ret (node x y).

(** Lines 123-176. *)
Definition drawPattern (size : Q) (pattern color : option jsstr) : M (list command) :=
  let s := 20 in
  body <-
    (if is_lit pattern "dots" then
       ret (flat_map (fun x =>
              flat_map (fun y =>
                [BeginPath; Arc x y 1.5 0 (Math_PI * 2); SetFillStyle (Css color); Fill])
                (steps size s)) (steps size s))
     else if is_lit pattern "lines" then
       ret (flat_map (fun i => [BeginPath; MoveTo i 0; LineTo 0 i; Stroke])
                     (steps (size * 2) s))
     else if is_lit pattern "grid" then
       ret (flat_map (fun x => [BeginPath; MoveTo x 0; LineTo x size; Stroke]) (steps size s)
            ++ flat_map (fun y => [BeginPath; MoveTo 0 y; LineTo size y; Stroke]) (steps size s))
     else if is_lit pattern "triangles" then
       ret (flat_map (fun x =>
              flat_map (fun y =>
                [BeginPath; MoveTo x (y + s); LineTo (x + s / 2) y; LineTo (x + s) (y + s);
                 ClosePath; Stroke])
                (steps size s)) (steps size s))
     else if is_lit pattern "hexagons" then
       ret (flat_map (fun row =>
              flat_map (fun col =>
                let ox := col * s * 1.7 + inject_Z (Qfloor row mod 2) * s * 0.85 in
                let oy := row * s * 1.5 in
                polygonPath ox oy (s * 0.5) 6 (Math_PI / 6) ++ [Stroke])
                (steps (size / s + 1) 1)) (steps (size / s + 1) 1))
     else if is_lit pattern "waves" then
       ret (flat_map (fun y =>
              [BeginPath; MoveTo 0 y]
              ++ map (fun x => LineTo x (y + Math_sin (x * 0.08) * 5)) (steps size 4)
              ++ [Stroke])
              (steps size s))
     else if is_lit pattern "circuits" then
       l <- Array_from 10 (circuit size) ;; ret (concat l)
     else ret []) ;;
  ret ([SetGlobalAlpha 0.06; SetStrokeStyle (Css color); SetLineWidth 0.5]
       ++ body ++ [SetGlobalAlpha 1]).

(** [arr.forEach((x, i) => ...)]: the elements with their indices. *)
Definition with_index {A} (l : list A) : list (Z * A) :=
  combine (indices (Z.of_nat (List.length l))) l.

(** Lines 179-209. *)
Definition drawDecors (config : Logo.t) (cx cy r : Q) : list command :=
  let palette := Logo.palette config in
  let decorCount := Logo.decorCount config in
  let bezierCurves := Logo.bezierCurves config in
  let effect := Logo.effect config in
  flat_map (fun i =>
              let angle := (Math_PI * 2 * inject_Z i) / inject_Z decorCount in
              let dx := cx + (r * 0.85) * Math_cos angle in
              let dy := cy + (r * 0.85) * Math_sin angle in
              let dotR := 2 + inject_Z (i mod 3) in
              [ BeginPath;
                Arc dx dy dotR 0 (Math_PI * 2);
                SetFillStyle (Css (if (i mod 2 =? 0)%Z then accent palette else secondary palette));
                SetShadowBlur (if is_lit effect "glow" || is_lit effect "neon" then 10 else 0);
                SetShadowColor (accent palette);
                Fill;
                SetShadowBlur 0 ])
           (indices decorCount)
  ++ flat_map (fun ibc =>
                 let i := fst ibc in
                 let bc := snd ibc in
                 let alpha := 0.2 - inject_Z i * 0.05 in
                 if Qle_bool alpha 0 then []
                 else
                   [ BeginPath;
                     MoveTo cx (cy - r * 0.5);
                     BezierCurveTo (cx + cx1 bc) (cy + cy1 bc) (cx + cx2 bc) (cy + cy2 bc)
                                   cx (cy + r * 0.5);
                     SetStrokeStyle (Css (if (i =? 0)%Z then primary palette else secondary palette));
                     SetGlobalAlpha alpha;
                     SetLineWidth 1;
                     Stroke;
                     SetGlobalAlpha 1 ])
              (with_index bezierCurves).

(** Line 214: [FONT_MAP[fontStyle] || FONT_MAP.sans], as the text the
    template literals make of it. *)
Definition font_of (fontStyle : option jsstr) : jsstr :=
  match assoc (property_key fontStyle) FONT_MAP with
  | Some f => f
  | None =>
      match assoc (property_key fontStyle) Object_prototype with
      | Some v => inherited_text v
      | None => quoted "'Inter', 'Helvetica Neue', sans-serif"
      end
  end.

(** [`${weight} ${px}px ${font}`]. *)
Definition font_text (weight : String.string) (px : Q) (font : jsstr) : jsstr :=
  lit weight ++ lit " " ++ Number_toString px ++ lit "px " ++ font.

(** Lines 212-321. *)
Definition drawText (config : Logo.t) (cx cy r size : Q) : list command :=
  let name := Logo.name config in
  let initials := Logo.initials config in
  let palette := Logo.palette config in
  let layout := Logo.layout config in
  let effect := Logo.effect config in
  let letterSpacing := Logo.letterSpacing config in
  let fontSize := Logo.fontSize config in
  let font := font_of (Logo.fontStyle config) in
  let safeFontSize := Qmax 10 (Qmin fontSize (size * 0.22)) in
  [ Save; SetTextAlign (lit "center"); SetTextBaseline (lit "middle") ]
  ++ (if is_lit effect "glow" || is_lit effect "neon" then
        [ SetShadowBlur 20; SetShadowColor (primary palette) ]
      else if is_lit effect "shadow" then
        [ SetShadowBlur 8; SetShadowColor (Some (lit "rgba(0,0,0,0.7)"));
          SetShadowOffsetX 2; SetShadowOffsetY 2 ]
      else [])
  ++ (if is_lit effect "gradient" || is_lit effect "metallic" then
        [ SetFillStyle (Grad (LinearGradient (cx - r) cy (cx + r) cy
                                [ (0, primary palette); (0.5, accent palette);
                                  (1, secondary palette) ])) ]
      else [ SetFillStyle (Css (primary palette)) ])
  ++ (if is_lit layout "monogram" then
        [ SetFont (font_text "800" (safeFontSize * 2.2) font);
          SetLetterSpacing (Number_toString letterSpacing ++ lit "px");
          FillText initials cx cy ]
      else if is_lit layout "stacked" then
        let parts := split SPACE name in
        let lh := safeFontSize * 1.4 in
        let top := cy - (inject_Z (Z.of_nat (List.length parts)) - 1) * lh / 2 in
        flat_map (fun ip =>
                    [ SetFont (font_text "700" safeFontSize font);
                      FillText (toUpperCase (snd ip)) cx (top + inject_Z (fst ip) * lh) ])
                 (with_index parts)
      else if is_lit layout "circular" then
        let text := toUpperCase name in
        let arcR := r * 0.7 in
        let arcLen := Math_PI in
        let step := arcLen / inject_Z (Generate.or_number (Z.of_nat (List.length text) - 1) 1) in
        let start := - Math_PI / 2 - arcLen / 2 in
        [ SetFont (font_text "700" (Qmax 8 (safeFontSize * 0.75)) font) ]
        ++ flat_map (fun ic =>
                       let angle := start + inject_Z (fst ic) * step in
                       [ Save;
                         Translate (cx + arcR * Math_cos angle) (cy + arcR * Math_sin angle);
                         Rotate (angle + Math_PI / 2);
                         FillText [snd ic] 0 0;
                         Restore ])
                    (with_index text)
      else if is_lit layout "diagonal" then
        [ Save; Translate cx cy; Rotate (-0.25);
          SetFont (font_text "700" safeFontSize font);
          FillText (toUpperCase name) 0 0;
          Restore ]
      else if is_lit layout "split" then
        let mid := Z.to_nat (Qceiling (inject_Z (Z.of_nat (List.length name)) / 2)) in
        [ SetFont (font_text "800" safeFontSize font);
          SetFillStyle (Css (primary palette));
          FillText (toUpperCase (firstn mid name)) cx (cy - safeFontSize * 0.4);
          SetFillStyle (Css (secondary palette));
          FillText (toUpperCase (skipn mid name)) cx (cy + safeFontSize * 1.1) ]
      else
        [ SetFont (font_text "800" safeFontSize font);
          SetLetterSpacing (Number_toString letterSpacing ++ lit "px");
          FillText (toUpperCase name) cx cy;
          SetFont (font_text "400" (Qmax 6 (safeFontSize * 0.45)) font);
          SetFillStyle (Css (secondary palette));
          SetGlobalAlpha 0.7;
          FillText (lit "BRAND") cx (cy + safeFontSize * 1.1);
          SetGlobalAlpha 1 ])
  ++ (if is_lit effect "outline" || is_lit effect "emboss" then
        [ SetShadowBlur 0; SetShadowOffsetX 0; SetShadowOffsetY 0;
          SetStrokeStyle (Css (secondary palette));
          SetLineWidth 1.5;
          SetFont (font_text "800" safeFontSize font);
          StrokeText (toUpperCase name) cx cy ]
      else [])
  ++ [ Restore ].

(** [`${v}${suffix}`]. *)
Definition tinted (v : option jsstr) (suffix : String.string) : option jsstr :=
  Some (App.show v ++ lit suffix).

(** Lines 325-404.  [canvas] tells whether the canvas element exists.  A
    render that throws ([palette.bg] is [undefined], so [hex.slice] fails
    in [shiftHue]) has cleared the surface and drawn nothing.

    The operations are those of a render in which no call of the canvas
    itself throws: the size is not negative ([createRadialGradient]
    refuses a negative radius), [borderRadius] is not negative
    ([roundRect] refuses one), and every colour given to [addColorStop]
    is one the canvas parses.  Outside of that the canvas throws where
    this model goes on. *)
Definition drawLogo (canvas : bool) (config : Logo.t) (logicalSize : Q) : M (list command) :=
  if negb canvas then ret []
  else
    let palette := Logo.palette config in
    let shape := Logo.shape config in
    let effect := Logo.effect config in
    let pattern := Logo.pattern config in
    let glowIntensity := Logo.glowIntensity config in
    let strokeWidth := Logo.strokeWidth config in
    let borderRadius := Logo.borderRadius config in
    let size := logicalSize in
    let cx := size / 2 in
    let cy := size / 2 in
    let r := size * 0.34 in
    shifted <- match bg palette with
               | Some hex => ret (shiftHue hex 20)
               | None => throw TypeError
               end ;;
    let bgGrad := RadialGradient cx cy 0 cx cy (size * 0.75)
                                 [ (0, Some shifted); (1, bg palette) ] in
    overlay <- drawPattern size pattern (primary palette) ;;
    let fill :=
      if is_lit effect "gradient" || is_lit effect "glass" || is_lit effect "metallic"
      then Grad (LinearGradient (cx - r) (cy - r) (cx + r) (cy + r)
                   [ (0, tinted (primary palette) "CC");
                     (0.5, tinted (secondary palette) "99");
                     (1, tinted (accent palette) "CC") ])
      else Css (tinted (primary palette) "22") in
    ret ([ ClearRect 0 0 size size;
           SetFillStyle (Grad bgGrad);
           RoundRect 0 0 size size borderRadius;
           Fill ]
         ++ overlay
         ++ (if is_lit effect "glow" || is_lit effect "neon" || is_lit effect "glass" then
               [ Save; SetShadowBlur glowIntensity; SetShadowColor (primary palette) ]
               ++ buildShape shape cx cy (r * 1.05)
               ++ [ SetStrokeStyle (Css (tinted (primary palette) "44"));
                    SetLineWidth (strokeWidth * 2);
                    Stroke;
                    Restore ]
             else [])
         ++ buildShape shape cx cy r
         ++ [ Save;
              SetFillStyle fill;
              SetShadowBlur (if is_lit effect "shadow" then 20 else 0);
              SetShadowColor (Some (lit "rgba(0,0,0,0.5)"));
              Fill;
              SetStrokeStyle (Css (primary palette));
              SetLineWidth strokeWidth ]
         ++ (if is_lit effect "neon" then
               [ SetShadowBlur glowIntensity; SetShadowColor (primary palette) ]
             else [])
         ++ [ Stroke; Restore ]
         ++ buildShape shape cx cy (r * 0.72)
         ++ [ Save;
              SetStrokeStyle (Css (accent palette));
              SetLineWidth (strokeWidth * 0.5);
              SetGlobalAlpha 0.45;
              Stroke;
              Restore ]
         ++ drawDecors config cx cy r
         ++ drawText config cx cy r size).

End Renderer.

End LogoCanvas.

(** ** api/filters.js *)

Module Filters.

Record catalogue := mkCatalogue {
  palettes : list jsstr;
  shapes : list jsstr;
  fonts : list jsstr;
  effects : list jsstr;
  layouts : list jsstr;
  patterns : list jsstr
}.

Inductive payload :=
| ErrorJson (error : jsstr)
| CatalogueJson (c : catalogue).

Record response := mkResponse {
  headers : list (jsstr * jsstr);
  status : Z;
  sent : payload
}.

(** Lines 14-29. *)
Definition handler (req : Generate.request) : response :=
  let headers := [ (lit "Access-Control-Allow-Origin", lit "*") ] in
  if negb (str_eqb (Generate.method req) (lit "GET")) then
    mkResponse headers 405 (ErrorJson (lit "Method not allowed"))
  else
    mkResponse headers 200
      (CatalogueJson (mkCatalogue (Object_keys COLOR_PALETTES) SHAPE_STYLES FONT_STYLES
                                  EFFECTS LAYOUT_MODES PATTERNS)).

End Filters.

(** ** api/palettes.js *)

Module Palettes.

(** One element of the answer; [preview] is [arr[0]]. *)
Record info := mkInfo {
  key : jsstr;
  label : jsstr;
  preview : option Palette
}.

Inductive payload :=
| ErrorJson (error : jsstr)
| InfoJson (l : list info).

Record response := mkResponse {
  headers : list (jsstr * jsstr);
  status : Z;
  sent : payload
}.

Section Handler.

Variable toUpperCase : jsstr -> jsstr.

(** [key.charAt(0)]: the empty string when there is no first unit. *)
Definition charAt0 (s : jsstr) : jsstr := firstn 1 s.

(** Lines 14-18: [Object.entries(COLOR_PALETTES).map(...)]. *)
Definition entries : list info :=
  map (fun kv => mkInfo (fst kv)
                        (toUpperCase (charAt0 (fst kv)) ++ skipn 1 (fst kv))
                        (array_get (snd kv) 0%Z))
      COLOR_PALETTES.

(** Lines 7-21. *)
Definition handler (req : Generate.request) : response :=
  let headers := [ (lit "Access-Control-Allow-Origin", lit "*") ] in
  if negb (str_eqb (Generate.method req) (lit "GET")) then
    mkResponse headers 405 (ErrorJson (lit "Method not allowed"))
  else
    mkResponse headers 200 (InfoJson entries).

End Handler.

End Palettes.

(** ** logo-designer/src/FilterPanel.jsx: the options offered *)

Module FilterPanel.

Definition PALETTE_OPTS : list jsstr :=
  map lit ["random"; "vibrant"; "neon"; "pastel"; "monochrome"; "golden"; "ocean"; "fire"; "galaxy"]%string.
Definition SHAPE_OPTS : list jsstr :=
  map lit ["random"; "hexagon"; "circle"; "diamond"; "shield"; "star"; "badge"; "infinity"; "arch"]%string.
Definition FONT_OPTS : list jsstr :=
  map lit ["random"; "serif"; "sans"; "mono"; "display"; "cursive"; "geometric"; "rounded"; "sharp"]%string.
Definition EFFECT_OPTS : list jsstr :=
  map lit ["random"; "glow"; "shadow"; "gradient"; "outline"; "emboss"; "neon"; "metallic"; "glass"]%string.
Definition LAYOUT_OPTS : list jsstr :=
  map lit ["random"; "centered"; "stacked"; "horizontal"; "diagonal"; "circular"; "split"; "badge"; "monogram"]%string.
Definition PATTERN_OPTS : list jsstr :=
  map lit ["random"; "none"; "dots"; "lines"; "grid"; "waves"; "hexagons"; "triangles"; "circuits"]%string.

(** The filter state of the panel and of the application. *)
Record filters := mkFilters {
  palette : jsstr;
  shape : jsstr;
  font : jsstr;
  effect : jsstr;
  layout : jsstr;
  pattern : jsstr
}.

(** Line 30, [reset], and [DEFAULT_FILTERS] of the application. *)
Definition DEFAULT_FILTERS : filters :=
  mkFilters (lit "random") (lit "random") (lit "random") (lit "random")
            (lit "random") (lit "random").

End FilterPanel.

(** ** logo-designer/src/App.jsx: the request and the file names *)

Module Client.

(** What [generate] does: it shows a toast, or posts a request. *)
Inductive action :=
| Toast (msg icon : jsstr)
| Post (req : Generate.request).

(** Lines 87-107: [generate], up to the request it posts. *)
Definition generate (name : jsstr) (count : Z) (activeF : FilterPanel.filters) : action :=
  match trim name with
  | [] => Toast (lit "Please enter a brand name first") (lit "!")
  | _ :: _ =>
      Post (Generate.mkRequest (lit "POST")
              (Generate.BodyObject
                 (Generate.mkBody
                    (Some (Generate.JString (trim name)))
                    (Some count)
                    (Some (Options.mk (Some (FilterPanel.palette activeF))
                                      (Some (FilterPanel.shape activeF))
                                      (Some (FilterPanel.font activeF))
                                      (Some (FilterPanel.effect activeF))
                                      (Some (FilterPanel.layout activeF))
                                      (Some (FilterPanel.pattern activeF)))))))
  end.

Section FileNames.

Variable toLowerCase : jsstr -> jsstr.

(** [`${name.replace(/\s+/g, '-').toLowerCase()}-logo.${ext}`], lines 34
    and 64. *)
Definition file_name (name : jsstr) (ext : String.string) : jsstr :=
  toLowerCase (App.hyphenate false name) ++ lit "-logo." ++ lit ext.

End FileNames.

End Client.

(** ** logo-designer/src/Logo3D.jsx: the label of the 3D scene *)

Module Logo3D.

Section Label.

Variable toUpperCase : jsstr -> jsstr.

(** Line 135: [layout === 'monogram' ? initials
                 : name?.toUpperCase?.() || name || 'LOGO']. *)
Definition displayText (config : Logo.t) : jsstr :=
  if LogoCanvas.is_lit (Logo.layout config) "monogram"
  then Logo.initials config
  else or_default
         (or_else (Some (toUpperCase (Logo.name config))) (Some (Logo.name config)))
         (lit "LOGO").

End Label.

End Logo3D.

(** ** Measures on a sequence of canvas operations *)

Module Trace.

Import LogoCanvas.

(** The depth of the state stack after [ops], started at depth [d]:
    [save] pushes, [restore] pops; [None] when a [restore] finds the stack
    of this render empty. *)
Fixpoint depth (d : nat) (ops : list command) : option nat :=
  match ops with
  | [] => Some d
  | Save :: r => depth (S d) r
  | Restore :: r => match d with
                    | O => None
                    | S d' => depth d' r
                    end
  | _ :: r => depth d r
  end.

Definition is_stack_op (c : command) : bool :=
  match c with Save | Restore => true | _ => false end.

(** No operation of [ops] touches the state stack. *)
Definition plain (ops : list command) : Prop :=
  Forall (fun c => is_stack_op c = false) ops.

(** Every [save] of [ops] has its [restore] after it, and every [restore]
    its [save] before it, at whatever depth [ops] starts. *)
Definition balanced (ops : list command) : Prop :=
  forall d, depth d ops = Some d.

(** The centres of the circles and arcs drawn. *)
Definition arc_centres (ops : list command) : list (Q * Q) :=
  flat_map (fun c => match c with Arc x y _ _ _ => [(x, y)] | _ => [] end) ops.

(** The number of Bezier segments. *)
Definition bezier_count (ops : list command) : nat :=
  List.length (filter (fun c => match c with BezierCurveTo _ _ _ _ _ _ => true
                                        | _ => false end) ops).

(** The texts filled, in order. *)
Definition filled_texts (ops : list command) : list jsstr :=
  flat_map (fun c => match c with FillText t _ _ => [t] | _ => [] end) ops.

(** The texts stroked, in order. *)
Definition stroked_texts (ops : list command) : list jsstr :=
  flat_map (fun c => match c with StrokeText t _ _ => [t] | _ => [] end) ops.

End Trace.

(** ** Definitions that follow the specification's wording *)

Module Spec.

(** The pieces of [s] between separators, empty pieces kept. *)
Fixpoint pieces (is_sep : code_unit -> bool) (s : jsstr) : list jsstr :=
  match s with
  | [] => [[]]
  | c :: r =>
      if is_sep c then [] :: pieces is_sep r
      else match pieces is_sep r with
           | w :: ws => (c :: w) :: ws
           | [] => [[c]]
           end
  end.

(** The words of [s]: the non-empty pieces. *)
Definition words (is_sep : code_unit -> bool) (s : jsstr) : list jsstr :=
  filter (fun w => match w with [] => false | _ => true end) (pieces is_sep s).

Section Initials.

Variable toUpperCase : jsstr -> jsstr.

(** The first character of a word, uppercased. *)
Definition letter (w : jsstr) : jsstr :=
  match w with
  | c :: _ => toUpperCase [c]
  | [] => []
  end.

(** "take the first character of each word, uppercase it, concatenate,
    truncate to 3 characters". *)
Definition acronym (ws : list jsstr) : jsstr :=
  firstn 3 (concat (map letter ws)).

(** "if the name has no words/characters, fall back to the first character
    of the raw name, uppercased; if that is also unavailable, fall back to
    the literal character L". *)
Definition with_fallbacks (a : jsstr) (raw : jsstr) : jsstr :=
  match a with
  | _ :: _ => a
  | [] => match raw with
          | c :: _ => toUpperCase [c]
          | [] => lit "L"
          end
  end.

(** The derivation as the specification words it: "split the trimmed name
    on whitespace". *)
Definition initials_spec (name : jsstr) : jsstr :=
  with_fallbacks (acronym (words is_whitespace (trim name))) name.

(** The derivation with the name split on the space character alone. *)
Definition initials_on_spaces (name : jsstr) : jsstr :=
  with_fallbacks (acronym (words (fun c => N.eqb c SPACE) name)) name.

End Initials.

(** A name the boundary accepts: something is left after trimming, and
    no more than 50 code units. *)
Definition valid_name (s : jsstr) : Prop :=
  trim s <> [] /\ (List.length (trim s) <= 50)%nat.

(** A [name] property that is absent, not a string, empty, or made of
    whitespace only. *)
Definition blank_name (v : option Generate.json) : Prop :=
  match v with
  | Some (Generate.JString s) => Forall (fun c => is_whitespace c = true) s
  | _ => True
  end.

(** The requested count clamped to the interval [lo, hi]. *)
Definition clamp (lo hi n : Z) : Z := Z.min (Z.max lo n) hi.

(** The names [Object.prototype] gives every object literal. *)
Definition inherited (key : jsstr) : Prop :=
  In key (Object_keys Object_prototype).

(** The palette objects of a category of the catalogue. *)
Definition variants (category : jsstr) : list Palette :=
  match assoc category COLOR_PALETTES with Some l => l | None => [] end.

(** A palette is a variant of the category it names. *)
Definition drawn_from_own_category (p : Palette) : Prop :=
  exists category v,
    paletteName p = Some category /\
    In category (Object_keys COLOR_PALETTES) /\
    In v (variants category) /\
    primary p = primary v /\ secondary p = secondary v /\
    accent p = accent v /\ bg p = bg v.

(** A value of a closed set is stored. *)
Definition member_of (S : list jsstr) (stored : option jsstr) : Prop :=
  exists x, stored = Some x /\ In x S.

(** Every enumerable field holds a member of its closed set. *)
Definition enumerables_closed (c : Logo.t) : Prop :=
  member_of SHAPE_STYLES (Logo.shape c) /\
  member_of FONT_STYLES (Logo.fontStyle c) /\
  member_of EFFECTS (Logo.effect c) /\
  member_of LAYOUT_MODES (Logo.layout c) /\
  member_of PATTERNS (Logo.pattern c).

(** Every property of the configuration is there: the enumerable fields
    hold members, the palette its category and its four colours, the
    initials at least one character. *)
Definition complete (c : Logo.t) : Prop :=
  enumerables_closed c /\
  drawn_from_own_category (Logo.palette c) /\
  (exists p s a b,
     primary (Logo.palette c) = Some p /\ secondary (Logo.palette c) = Some s /\
     accent (Logo.palette c) = Some a /\ bg (Logo.palette c) = Some b) /\
  List.length (Logo.bezierCurves c) = 2%nat.

End Spec.

(** ** Runs *)

(** The world after [n] more [Math.random] calls. *)
Definition skip (n : nat) (w : world) : world :=
  mkWorld (random_source w) (n + random_calls w)
          (uuid_source w) (uuid_calls w)
          (clock_source w) (clock_calls w).

(** The value a run returned, if it returned. *)
Definition returned {A} (r : outcome A * world) : option A :=
  match fst r with
  | Returns a => Some a
  | Throws _ => None
  end.

(** The value the next [Math.random] call returns. *)
Definition next_draw (w : world) : Q := random_source w (random_calls w).

(** [w'] is [w] after some more calls: the oracles are the same and no
    counter went back. *)
Definition advances (w w' : world) : Prop :=
  random_source w' = random_source w /\
  uuid_source w' = uuid_source w /\
  clock_source w' = clock_source w /\
  (random_calls w <= random_calls w')%nat.

(** [u] is a value [Math.random] returned between [w] and [w']. *)
Definition drawn (w w' : world) (u : Q) : Prop :=
  exists k, (random_calls w <= k < random_calls w')%nat /\ u = random_source w k.

(** The rule of the specification for one filter field with the closed
    set [S]: "random" or a non-member gives the member at the index
    [Math.floor(u * S.length)] for a draw [u]; a member is kept verbatim. *)
Definition resolved (S : list jsstr) (v : jsstr) (w w' : world)
    (stored : option jsstr) : Prop :=
  (v = lit "random" \/ ~ In v S ->
     exists u x, drawn w w' u /\
       stored = array_get S (random_index u (List.length S)) /\
       stored = Some x /\ In x S) /\
  (v <> lit "random" -> In v S -> stored = Some v).

(** The palette rule as the code has it. *)
Definition palette_resolved (v : jsstr) (w w' : world) (p : Palette) : Prop :=
  let keys := Object_keys COLOR_PALETTES in
  exists category,
    paletteName p = Some category /\
    (v = lit "random" ->
       exists u, drawn w w' u /\
         array_get keys (random_index u (List.length keys)) = Some category) /\
    (v <> lit "random" -> In v keys -> category = v) /\
    (v <> lit "random" -> ~ In v keys -> ~ Spec.inherited v ->
       category = lit "vibrant") /\
    (v = lit "random" \/ ~ Spec.inherited v ->
       In category keys /\
       exists u variant, drawn w w' u /\
         array_get (Spec.variants category)
                   (random_index u (List.length (Spec.variants category)))
           = Some variant /\
         p = mkPalette (primary variant) (secondary variant) (accent variant)
                       (bg variant) (Some category)).

(** The world after one configuration was made with [n] draws: one
    identifier and one clock reading were taken besides. *)
Definition after_config (n : nat) (w : world) : world :=
  mkWorld (random_source w) (n + random_calls w)
          (uuid_source w) (S (uuid_calls w))
          (clock_source w) (S (clock_calls w)).

(** The draws [pick] makes for the value [v] of a field with the list [S]. *)
Definition draws_of_pick (S : list jsstr) (v : jsstr) : nat :=
  if str_eqb v (lit "random") || negb (includes S v) then 1 else 0.

(** The draws one configuration costs: ten numbers, the palette (its
    category only if "random", and its variant), the five fields, the
    eight offsets of the two curves, and the hue shift. *)
Definition draws_needed (opts : Options.t) : nat :=
  10
  + (if str_eqb (default_random (Options.paletteType opts)) (lit "random") then 2 else 1)
  + draws_of_pick SHAPE_STYLES (default_random (Options.shapeStyle opts))
  + draws_of_pick FONT_STYLES (default_random (Options.fontStyle opts))
  + draws_of_pick EFFECTS (default_random (Options.effect opts))
  + draws_of_pick LAYOUT_MODES (default_random (Options.layoutMode opts))
  + draws_of_pick PATTERNS (default_random (Options.pattern opts))
  + 8 + 1.

(** [lo <= x <= hi].  The numbers of the model are exact; the program
    rounds each product and sum to a double, which can carry a result to
    the upper end of its range (120 + u * 80 is 200 at the largest draw),
    never beyond it: the ranges are closed. *)
Definition within (lo hi x : Q) : Prop := lo <= x /\ x <= hi.

(** The offsets of the control points of a curve, lines 103-108. *)
Definition offsets_in_range (b : Bezier) : Prop :=
  within (-100) 100 (cx1 b) /\ within (-100) 100 (cy1 b) /\
  within (-100) 100 (cx2 b) /\ within (-100) 100 (cy2 b).

(** The ranges of the numbers of lines 86-95 and 103-110. *)
Definition numbers_in_range (c : Logo.t) : Prop :=
  within 0 360 (Logo.rotation c) /\
  within (7 # 10) (13 # 10) (Logo.scale c) /\
  within 120 200 (Logo.shapeSize c) /\
  within 24 48 (Logo.fontSize c) /\
  within (-2) 6 (Logo.letterSpacing c) /\
  within 0 50 (Logo.borderRadius c) /\
  within 1 5 (Logo.strokeWidth c) /\
  within 5 25 (Logo.glowIntensity c) /\
  within (-15) 15 (Logo.innerRotation c) /\
  (3 <= Logo.decorCount c <= 10)%Z /\
  (0 <= Logo.hslShift c <= 359)%Z /\
  Forall offsets_in_range (Logo.bezierCurves c).

(** The value [v] requested for a field is the value stored, whatever
    the name, the other options and the draws are. *)
Definition kept (toUpperCase : jsstr -> jsstr)
    (requested : Options.t -> option jsstr) (stored : Logo.t -> option jsstr)
    (v : jsstr) : Prop :=
  forall nm opts w,
    unit_range w -> requested opts = Some v ->
    exists cfg w',
      generateLogoConfig toUpperCase nm opts w = (Returns cfg, w') /\
      stored cfg = Some v.

(** A configuration honours the options: each field requested with a
    member of its list holds that member. *)
Definition honours (opts : Options.t) (c : Logo.t) : Prop :=
  (forall v, Options.paletteType opts = Some v -> In v (Object_keys COLOR_PALETTES) ->
             paletteName (Logo.palette c) = Some v) /\
  (forall v, Options.shapeStyle opts = Some v -> In v SHAPE_STYLES ->
             Logo.shape c = Some v) /\
  (forall v, Options.fontStyle opts = Some v -> In v FONT_STYLES ->
             Logo.fontStyle c = Some v) /\
  (forall v, Options.effect opts = Some v -> In v EFFECTS ->
             Logo.effect c = Some v) /\
  (forall v, Options.layoutMode opts = Some v -> In v LAYOUT_MODES ->
             Logo.layout c = Some v) /\
  (forall v, Options.pattern opts = Some v -> In v PATTERNS ->
             Logo.pattern c = Some v).

(** Every selection of the panel is one of the options it offers. *)
Definition offered (f : FilterPanel.filters) : Prop :=
  In (FilterPanel.palette f) FilterPanel.PALETTE_OPTS /\
  In (FilterPanel.shape f) FilterPanel.SHAPE_OPTS /\
  In (FilterPanel.font f) FilterPanel.FONT_OPTS /\
  In (FilterPanel.effect f) FilterPanel.EFFECT_OPTS /\
  In (FilterPanel.layout f) FilterPanel.LAYOUT_OPTS /\
  In (FilterPanel.pattern f) FilterPanel.PATTERN_OPTS.

(** A configuration shows the selection of the panel: each field whose
    selection is not "random" holds the selection. *)
Definition shows_selection (f : FilterPanel.filters) (c : Logo.t) : Prop :=
  (FilterPanel.palette f <> lit "random" ->
     paletteName (Logo.palette c) = Some (FilterPanel.palette f)) /\
  (FilterPanel.shape f <> lit "random" -> Logo.shape c = Some (FilterPanel.shape f)) /\
  (FilterPanel.font f <> lit "random" -> Logo.fontStyle c = Some (FilterPanel.font f)) /\
  (FilterPanel.effect f <> lit "random" -> Logo.effect c = Some (FilterPanel.effect f)) /\
  (FilterPanel.layout f <> lit "random" -> Logo.layout c = Some (FilterPanel.layout f)) /\
  (FilterPanel.pattern f <> lit "random" -> Logo.pattern c = Some (FilterPanel.pattern f)).

(** ** Instances used in the examples *)

(** Every [Math.random] call returns [u]. *)
Definition constant_world (u : Q) : world :=
  mkWorld (fun _ => u) 0 (fun _ => lit "00000000-0000-4000-8000-000000000000") 0
          (fun _ => 0%Z) 0.

(** The [k]-th [Math.random] call returns [(k mod 8) / 8]. *)
Definition cycling_world : world :=
  mkWorld (fun k => inject_Z (Z.of_nat (k mod 8)) / 8) 0
          (fun _ => lit "00000000-0000-4000-8000-000000000000") 0
          (fun _ => 0%Z) 0.

(** A world whose identifiers are all different and whose clock ticks:
    the [k]-th identifier is the one-unit string of code [k], the [k]-th
    reading of the clock is [k]. *)
Definition counting_world (u : Q) : world :=
  mkWorld (fun _ => u) 0 (fun k => [N.of_nat k]) 0 (fun k => Z.of_nat k) 0.

(** An ASCII stand-in for [toLowerCase]. *)
Definition ascii_lower_unit (c : code_unit) : code_unit :=
  if ((65 <=? c) && (c <=? 90))%N then (c + 32)%N else c.

Definition ascii_toLowerCase (s : jsstr) : jsstr := map ascii_lower_unit s.

(** A [JSON.parse] for the examples, whose bodies arrive parsed: it
    accepts the text [null] and nothing else. *)
Definition parse_null_only (s : jsstr) : Generate.parsed :=
  if str_eqb s (lit "null") then Generate.ParsedNull else Generate.ParseError.

(** [parseInt] of 1e21 is 1: the number is written "1e+21", and the
    digits before the "e" are read.  The instance of [parseInt_exponent]
    used in the examples, where 10^21 is the one count it is asked about. *)
Definition parseInt_1e21 (count : Z) : Z := 1%Z.

(** The sample POST body [{ name, count }]. *)
Definition post (name : String.string) (count : option Z) : Generate.request :=
  Generate.mkRequest (lit "POST")
    (Generate.BodyObject
       (Generate.mkBody (Some (Generate.JString (lit name))) count None)).

(** Rational stand-ins for the examples of the renderer, which hold
    whatever the functions are: 355/113 for [Math.PI], the first terms of
    the series for [Math.cos] and [Math.sin], a hue shift that leaves the
    colour alone, and a fixed text for an inherited member. *)
Definition sample_PI : Q := 355 # 113.
Definition sample_cos (x : Q) : Q := 1 - x * x / 2.
Definition sample_sin (x : Q) : Q := x - x * x * x / 6.
Definition sample_shiftHue (hex : jsstr) (shift : Q) : jsstr := hex.
Definition sample_inherited_text (v : jsvalue) : jsstr := lit "[object Object]".

(** The renderer of the examples. *)
Definition sample_drawLogo (config : Logo.t) (size : Q) : M (list LogoCanvas.command) :=
  LogoCanvas.drawLogo ascii_toUpperCase App.integer_toString sample_PI sample_cos
                      sample_sin sample_shiftHue sample_inherited_text true config size.

(** The configuration of the examples of the renderer, by its pattern. *)
Definition example_logo (pattern : String.string) : Logo.t :=
  Logo.mk (lit "00000000-0000-4000-8000-000000000000") (lit "Acme") (lit "A")
          (mkPalette (Some (lit "#39FF14")) (Some (lit "#FF073A"))
                     (Some (lit "#00FFFF")) (Some (lit "#0D0D0D")) (Some (lit "neon")))
          (Some (lit "hexagon")) (Some (lit "sans")) (Some (lit "glow"))
          (Some (lit "centered")) (Some (lit pattern))
          90 1 160 36 2 25 3 15 0 5
          [mkBezier 50 (-50) (-50) 50; mkBezier (-20) 80 20 (-80)] 120 0.

(** * Properties *)

(** ** Strings and arrays *)

Lemma str_eqb_eq (a b : jsstr) : str_eqb a b = true <-> a = b.
Proof.
  revert b; induction a as [|x a IH]; intros [|y b]; simpl; split;
    try congruence; try reflexivity.
  - intros H. apply andb_true_iff in H as [Hx Hab].
    apply N.eqb_eq in Hx. apply IH in Hab. congruence.
  - intros H. injection H as -> ->.
    rewrite N.eqb_refl. simpl. now apply IH.
Qed.

Lemma str_eqb_refl (a : jsstr) : str_eqb a a = true.
Proof. now apply str_eqb_eq. Qed.

Lemma str_eqb_neq (a b : jsstr) : str_eqb a b = false <-> a <> b.
Proof.
  split.
  - intros H E. apply str_eqb_eq in E. congruence.
  - intros H. destruct (str_eqb a b) eqn:E; [|reflexivity].
    apply str_eqb_eq in E. contradiction.
Qed.

Lemma includes_In (arr : list jsstr) (v : jsstr) :
  includes arr v = true <-> In v arr.
Proof.
  unfold includes. rewrite existsb_exists. split.
  - intros (x & Hx & E). apply str_eqb_eq in E. now subst.
  - intros H. exists v. split; [assumption | apply str_eqb_refl].
Qed.

Lemma includes_not_In (arr : list jsstr) (v : jsstr) :
  includes arr v = false <-> ~ In v arr.
Proof.
  rewrite <- includes_In. destruct (includes arr v); split; congruence.
Qed.

Lemma array_get_In {A} (l : list A) (i : Z) (x : A) :
  array_get l i = Some x -> In x l.
Proof.
  unfold array_get. destruct (i <? 0)%Z; [discriminate|].
  apply nth_error_In.
Qed.

Lemma array_get_in_range {A} (l : list A) (i : Z) :
  (0 <= i < Z.of_nat (List.length l))%Z -> exists x, array_get l i = Some x.
Proof.
  intros [H0 H1]. unfold array_get.
  destruct (i <? 0)%Z eqn:E; [apply Z.ltb_lt in E; lia|].
  destruct (nth_error l (Z.to_nat i)) eqn:En; [now eexists|].
  apply nth_error_None in En. lia.
Qed.

(** ** The index [Math.floor(Math.random() * n)] *)

Lemma random_index_bounds (u : Q) (n : nat) :
  0 <= u -> u < 1 -> (0 < n)%nat ->
  (0 <= random_index u n < Z.of_nat n)%Z.
Proof.
  intros H0 H1 Hn. unfold random_index, Math_floor.
  assert (Hpos : 0 < inject_Z (Z.of_nat n)).
  { change 0 with (inject_Z 0). rewrite <- Zlt_Qlt. lia. }
  split.
  - change 0%Z with (Qfloor 0). apply Qfloor_resp_le.
    apply Qmult_le_0_compat; [assumption | now apply Qlt_le_weak].
  - rewrite Zlt_Qlt.
    apply Qle_lt_trans with (u * inject_Z (Z.of_nat n)); [apply Qfloor_le|].
    setoid_replace (inject_Z (Z.of_nat n)) with (1 * inject_Z (Z.of_nat n)) at 2 by ring.
    now apply Qmult_lt_compat_r.
Qed.

(** The index is [i] exactly when the draw falls in the [i]-th of [n]
    intervals of equal width [1/n]: a uniform draw picks uniformly. *)
Lemma random_index_interval (u : Q) (n : nat) (i : Z) :
  (0 < n)%nat ->
  random_index u n = i <->
  inject_Z i / inject_Z (Z.of_nat n) <= u /\
  u < (inject_Z i + 1) / inject_Z (Z.of_nat n).
Proof.
  intros Hn. unfold random_index, Math_floor.
  set (m := inject_Z (Z.of_nat n)).
  assert (Hpos : 0 < m).
  { unfold m. change 0 with (inject_Z 0). rewrite <- Zlt_Qlt. lia. }
  split.
  - intros <-. split.
    + apply Qle_shift_div_r; [assumption | apply Qfloor_le].
    + apply Qlt_shift_div_l; [assumption|].
      setoid_replace (inject_Z (Qfloor (u * m)) + 1)
        with (inject_Z (Qfloor (u * m) + 1)) by (rewrite inject_Z_plus; reflexivity).
      apply Qlt_floor.
  - intros [Hlo Hhi].
    assert (Hm : ~ m == 0).
    { intro E. rewrite E in Hpos. now apply Qlt_irrefl in Hpos. }
    assert (Hlo' : inject_Z i <= u * m).
    { setoid_replace (inject_Z i) with (inject_Z i / m * m) by (field; exact Hm).
      apply Qmult_le_compat_r; [exact Hlo | now apply Qlt_le_weak]. }
    assert (Hhi' : u * m < inject_Z (i + 1)).
    { rewrite inject_Z_plus.
      setoid_replace (inject_Z i + inject_Z 1) with ((inject_Z i + 1) / m * m)
        by (field; exact Hm).
      now apply Qmult_lt_compat_r. }
    apply Z.le_antisymm.
    + assert (H : (Qfloor (u * m) < i + 1)%Z).
      { rewrite Zlt_Qlt. apply Qle_lt_trans with (u * m); [apply Qfloor_le | assumption]. }
      lia.
    + rewrite <- (Qfloor_Z i). now apply Qfloor_resp_le.
Qed.

(** ** Runs of the monad *)

Lemma advances_refl (w : world) : advances w w.
Proof. unfold advances. auto. Qed.

Lemma advances_trans (w1 w2 w3 : world) :
  advances w1 w2 -> advances w2 w3 -> advances w1 w3.
Proof.
  unfold advances. intros (a1 & b1 & c1 & d1) (a2 & b2 & c2 & d2).
  repeat split; try congruence. lia.
Qed.

Lemma advances_skip (n : nat) (w : world) : advances w (skip n w).
Proof. unfold advances, skip. simpl. repeat split. lia. Qed.

Lemma unit_range_advances (w w' : world) :
  advances w w' -> unit_range w -> unit_range w'.
Proof. intros (E & _) H k. rewrite E. apply H. Qed.

Lemma drawn_weaken (w0 w w' w1 : world) (u : Q) :
  advances w0 w -> advances w w' -> advances w' w1 ->
  drawn w w' u -> drawn w0 w1 u.
Proof.
  intros (a0 & _ & _ & d0) _ (_ & _ & _ & d1) (k & Hk & ->).
  exists k. split; [lia | now rewrite a0].
Qed.

Lemma drawn_next (w : world) : drawn w (skip 1 w) (next_draw w).
Proof. exists (random_calls w). unfold skip. simpl. split; [lia | reflexivity]. Qed.


Lemma unit_next_draw (w : world) :
  unit_range w -> 0 <= next_draw w /\ next_draw w < 1.
Proof. intros H. apply H. Qed.

Lemma Math_random_run (w : world) :
  Math_random w = (Returns (next_draw w), skip 1 w).
Proof. reflexivity. Qed.

(** ** [pick] *)

(** The world after [pick], and the value it returns. *)
Lemma pick_run (arr : list jsstr) (val : jsstr) (w : world) :
  pick arr val w =
  if str_eqb val (lit "random") || negb (includes arr val)
  then (Returns (array_get arr (random_index (next_draw w) (List.length arr))), skip 1 w)
  else (Returns (Some val), w).
Proof.
  unfold pick. destruct (str_eqb val (lit "random") || negb (includes arr val));
    reflexivity.
Qed.

Lemma pick_resolved (arr : list jsstr) (val : jsstr) (w : world) :
  unit_range w -> arr <> [] ->
  exists stored w',
    pick arr val w = (Returns stored, w') /\ advances w w' /\
    resolved arr val w w' stored.
Proof.
  intros Hu Hne. rewrite pick_run.
  destruct (str_eqb val (lit "random") || negb (includes arr val)) eqn:C.
  - eexists _, _. split; [reflexivity|]. split; [apply advances_skip|].
    assert (Hlen : (0 < List.length arr)%nat) by (destruct arr; simpl; [congruence | lia]).
    destruct (unit_next_draw Hu) as [H0 H1].
    destruct (array_get_in_range arr
                (random_index_bounds (n := List.length arr) H0 H1 Hlen)) as [x Hx].
    split.
    + intros _. exists (next_draw w), x. split; [apply drawn_next|].
      split; [reflexivity|]. split; [exact Hx|]. now apply array_get_In in Hx.
    + intros Hr Hin. apply orb_true_iff in C as [C|C].
      * apply str_eqb_eq in C. contradiction.
      * apply negb_true_iff, includes_not_In in C. contradiction.
  - eexists _, _. split; [reflexivity|]. split; [apply advances_refl|].
    apply orb_false_iff in C as [C1 C2].
    apply str_eqb_neq in C1. apply negb_false_iff, includes_In in C2.
    split; [|reflexivity].
    intros [E|E]; contradiction.
Qed.

(** ** Property lookup *)

Lemma assoc_Some_In {A} (k : jsstr) (l : list (jsstr * A)) (v : A) :
  assoc k l = Some v -> In k (Object_keys l) /\ In (k, v) l.
Proof.
  induction l as [|[k' v'] l IH]; simpl; [discriminate|].
  destruct (str_eqb k k') eqn:E.
  - apply str_eqb_eq in E. subst. intros [= ->]. auto.
  - intros H. destruct (IH H). auto.
Qed.

Lemma assoc_None_not_In {A} (k : jsstr) (l : list (jsstr * A)) :
  assoc k l = None <-> ~ In k (Object_keys l).
Proof.
  induction l as [|[k' v'] l IH]; simpl.
  - split; auto.
  - destruct (str_eqb k k') eqn:E.
    + apply str_eqb_eq in E. subst. split; [discriminate | intros H; exfalso; auto].
    + apply str_eqb_neq in E. rewrite IH. split.
      * intros H [H'|H']; [congruence | contradiction].
      * intros H H'. apply H. auto.
Qed.

Lemma In_assoc {A} (k : jsstr) (l : list (jsstr * A)) :
  In k (Object_keys l) -> exists v, assoc k l = Some v.
Proof.
  intros H. destruct (assoc k l) eqn:E; [now eexists|].
  apply assoc_None_not_In in E. contradiction.
Qed.

(** Every category of the catalogue holds four variants. *)
Lemma four_variants (k : jsstr) :
  In k (Object_keys COLOR_PALETTES) ->
  assoc k COLOR_PALETTES = Some (Spec.variants k) /\
  List.length (Spec.variants k) = 4%nat.
Proof.
  intros H. simpl in H.
  repeat (destruct H as [<-|H]; [split; reflexivity|]).
  contradiction.
Qed.

(** No category bears a name that [Object.prototype] defines. *)
Lemma categories_not_inherited (k : jsstr) :
  In k (Object_keys COLOR_PALETTES) -> ~ Spec.inherited k.
Proof.
  intros H. simpl in H. unfold Spec.inherited.
  repeat (destruct H as [<-|H];
          [rewrite <- includes_In; vm_compute; discriminate|]).
  contradiction.
Qed.

Lemma random_not_inherited : ~ Spec.inherited (lit "random").
Proof. unfold Spec.inherited. rewrite <- includes_In. vm_compute. discriminate. Qed.

Lemma random_not_category : ~ In (lit "random") (Object_keys COLOR_PALETTES).
Proof. rewrite <- includes_In. vm_compute. discriminate. Qed.

(** [key in COLOR_PALETTES] holds of the categories and of the inherited
    names, and of nothing else. *)
Lemma has_property_iff (key : jsstr) :
  has_property key = true <->
  In key (Object_keys COLOR_PALETTES) \/ Spec.inherited key.
Proof.
  unfold has_property, get_property, Spec.inherited. simpl property_key.
  destruct (assoc key COLOR_PALETTES) eqn:E.
  - apply assoc_Some_In in E as [E _]. split; auto.
  - apply assoc_None_not_In in E.
    destruct (assoc key Object_prototype) eqn:E'.
    + apply assoc_Some_In in E' as [E' _]. split; auto.
    + apply assoc_None_not_In in E'. split; [discriminate|].
      intros [H|H]; contradiction.
Qed.

(** ** [pickPalette] *)

Lemma pickPalette_variant (key : jsstr) (w : world) :
  unit_range w -> In key (Object_keys COLOR_PALETTES) ->
  exists variant,
    get_property (Some key) = Some (VArray (Spec.variants key)) /\
    array_get (Spec.variants key)
              (random_index (next_draw w) (List.length (Spec.variants key)))
      = Some variant.
Proof.
  intros Hu Hk. destruct (four_variants Hk) as [Ha Hl].
  unfold get_property. simpl property_key. rewrite Ha.
  destruct (unit_next_draw Hu) as [H0 H1].
  assert (Hlen : (0 < List.length (Spec.variants key))%nat) by lia.
  destruct (array_get_in_range (Spec.variants key)
              (random_index_bounds (n := List.length (Spec.variants key)) H0 H1 Hlen))
    as [v Hv].
  exists v. split; [reflexivity | exact Hv].
Qed.

Lemma pickPalette_resolved (paletteType : jsstr) (w : world) :
  unit_range w ->
  exists p w',
    pickPalette paletteType w = (Returns p, w') /\ advances w w' /\
    palette_resolved paletteType w w' p.
Proof.
  intros Hu. unfold pickPalette, bind.
  destruct (str_eqb paletteType (lit "random")) eqn:R.
  - (* "random": a category is drawn, then a variant *)
    apply str_eqb_eq in R. subst paletteType.
    rewrite Math_random_run. unfold ret at 1.
    destruct (unit_next_draw Hu) as [H0 H1].
    assert (Hlen : (0 < List.length (Object_keys COLOR_PALETTES))%nat) by (simpl; lia).
    destruct (array_get_in_range (Object_keys COLOR_PALETTES)
                (random_index_bounds (n := List.length (Object_keys COLOR_PALETTES))
                                     H0 H1 Hlen)) as [k Hk].
    rewrite Hk. pose proof (array_get_In _ _ Hk) as Hin.
    assert (Hu' : unit_range (skip 1 w))
      by (eapply unit_range_advances; [apply advances_skip | exact Hu]).
    destruct (pickPalette_variant Hu' Hin) as (v & Hp & Hv).
    rewrite Hp, Math_random_run. cbn [get_element get_length option_map]. rewrite Hv. unfold ret. cbn [spread_with_paletteName].
    eexists _, _. split; [reflexivity|].
    split; [eapply advances_trans; apply advances_skip|].
    exists k. cbn [paletteName]. split; [reflexivity|].
    split; [intros _; exists (next_draw w); split; [|exact Hk]|].
    { eapply drawn_weaken; [apply advances_refl | apply advances_skip | apply advances_skip
                           | apply drawn_next]. }
    split; [congruence|]. split; [congruence|].
    intros _. split; [exact Hin|].
    exists (next_draw (skip 1 w)), v. split; [|split; [exact Hv | reflexivity]].
    eapply drawn_weaken; [apply advances_skip | apply advances_skip | apply advances_refl
                         | apply drawn_next].
  - apply str_eqb_neq in R. unfold ret at 1.
    destruct (has_property paletteType) eqn:P.
    + apply has_property_iff in P.
      destruct (in_dec (list_eq_dec N.eq_dec) paletteType (Object_keys COLOR_PALETTES))
        as [Hin|Hout].
      * (* a category: kept verbatim, then a variant is drawn *)
        destruct (pickPalette_variant Hu Hin) as (v & Hp & Hv).
        rewrite Hp, Math_random_run. cbn [get_element get_length option_map]. rewrite Hv. unfold ret. cbn [spread_with_paletteName].
        eexists _, _. split; [reflexivity|]. split; [apply advances_skip|].
        exists paletteType. cbn [paletteName]. split; [reflexivity|].
        split; [congruence|]. split; [reflexivity|]. split; [contradiction|].
        intros _. split; [exact Hin|].
        exists (next_draw w), v. split; [apply drawn_next|]. split; [exact Hv | reflexivity].
      * (* a name the object inherits *)
        destruct P as [P|P]; [contradiction|].
        assert (Hg : exists v, get_property (Some paletteType) = Some v).
        { unfold get_property. simpl property_key.
          apply assoc_None_not_In in Hout. rewrite Hout.
          now apply In_assoc. }
        destruct Hg as [v Hg]. rewrite Hg, Math_random_run. unfold ret.
        eexists _, _. split; [reflexivity|]. split; [apply advances_skip|].
        exists paletteType. split.
        { destruct (get_element v _); reflexivity. }
        split; [congruence|]. split; [reflexivity|]. split; [contradiction|].
        intros [E|E]; contradiction.
    + (* neither: the first category *)
      assert (P' : ~ (In paletteType (Object_keys COLOR_PALETTES) \/ Spec.inherited paletteType)).
      { rewrite <- has_property_iff. congruence. }
      assert (Hin : In (lit "vibrant") (Object_keys COLOR_PALETTES)) by (simpl; auto).
      change (array_get (Object_keys COLOR_PALETTES) 0%Z) with (Some (lit "vibrant")).
      destruct (pickPalette_variant Hu Hin) as (v & Hp & Hv).
      rewrite Hp, Math_random_run. cbn [get_element get_length option_map]. rewrite Hv. unfold ret. cbn [spread_with_paletteName].
      eexists _, _. split; [reflexivity|]. split; [apply advances_skip|].
      exists (lit "vibrant"). cbn [paletteName]. split; [reflexivity|].
      split; [congruence|]. split; [intros _ H; exfalso; auto|].
      split; [reflexivity|].
      intros _. split; [exact Hin|].
      exists (next_draw w), v. split; [apply drawn_next|]. split; [exact Hv | reflexivity].
Qed.

Lemma resolved_weaken (S : list jsstr) (v : jsstr) (w0 w w' w1 : world)
    (stored : option jsstr) :
  advances w0 w -> advances w w' -> advances w' w1 ->
  resolved S v w w' stored -> resolved S v w0 w1 stored.
Proof.
  intros A0 A A1 [Hr Hv]. split; [|exact Hv].
  intros C. destruct (Hr C) as (u & x & Hd & Hrest).
  exists u, x. split; [|exact Hrest].
  now apply (drawn_weaken A0 A A1).
Qed.

Lemma palette_resolved_weaken (v : jsstr) (w0 w w' w1 : world) (p : Palette) :
  advances w0 w -> advances w w' -> advances w' w1 ->
  palette_resolved v w w' p -> palette_resolved v w0 w1 p.
Proof.
  intros A0 A A1 (c & Hn & Hr & Hk & Hf & Hv).
  exists c. split; [exact Hn|]. split.
  { intros E. destruct (Hr E) as (u & Hd & Hu). exists u.
    split; [now apply (drawn_weaken A0 A A1) | exact Hu]. }
  split; [exact Hk|]. split; [exact Hf|].
  intros C. destruct (Hv C) as (Hin & u & x & Hd & Hrest).
  split; [exact Hin|]. exists u, x.
  split; [now apply (drawn_weaken A0 A A1) | exact Hrest].
Qed.

Lemma bind_returns {A B} (c : M A) (k : A -> M B) (w w' : world) (a : A) :
  c w = (Returns a, w') -> bind c k w = k a w'.
Proof. intros H. unfold bind. now rewrite H. Qed.

Lemma bind_Math_random {B} (k : Q -> M B) (w : world) :
  bind Math_random k w = k (next_draw w) (skip 1 w).
Proof. reflexivity. Qed.

Lemma randomUUID_run (w : world) :
  exists id w', randomUUID w = (Returns id, w') /\ advances w w'.
Proof.
  eexists _, _. split; [reflexivity|].
  unfold advances. cbn [random_source uuid_source clock_source random_calls].
  auto.
Qed.

Lemma Date_now_run (w : world) :
  exists t w', Date_now w = (Returns t, w') /\ advances w w'.
Proof.
  eexists _, _. split; [reflexivity|].
  unfold advances. cbn [random_source uuid_source clock_source random_calls].
  auto.
Qed.

(** The two curves cost eight draws. *)
Lemma bezierCurves_run (w : world) :
  exists b1 b2, Array_from 2 bezier w = (Returns [b1; b2], skip 8 w).
Proof. eexists _, _. reflexivity. Qed.

(** ** [generateLogoConfig]: the run its properties start from *)

Section GeneratorRuns.

Variable toUpperCase : jsstr -> jsstr.

Lemma generateLogoConfig_returns (nm : jsstr) (opts : Options.t) (w : world) :
  unit_range w ->
  exists cfg w',
    generateLogoConfig toUpperCase nm opts w = (Returns cfg, w') /\
    advances w w' /\
    Logo.name cfg = nm /\
    Logo.initials cfg = compute_initials toUpperCase nm /\
    palette_resolved (default_random (Options.paletteType opts)) w w' (Logo.palette cfg) /\
    resolved SHAPE_STYLES (default_random (Options.shapeStyle opts)) w w' (Logo.shape cfg) /\
    resolved FONT_STYLES (default_random (Options.fontStyle opts)) w w' (Logo.fontStyle cfg) /\
    resolved EFFECTS (default_random (Options.effect opts)) w w' (Logo.effect cfg) /\
    resolved LAYOUT_MODES (default_random (Options.layoutMode opts)) w w' (Logo.layout cfg) /\
    resolved PATTERNS (default_random (Options.pattern opts)) w w' (Logo.pattern cfg) /\
    List.length (Logo.bezierCurves cfg) = 2%nat.
Proof.
  intros Hu. unfold generateLogoConfig.
  do 10 rewrite bind_Math_random.
  set (w10 := skip 1 (skip 1 (skip 1 (skip 1 (skip 1 (skip 1 (skip 1 (skip 1 (skip 1 (skip 1 w)))))))))).
  assert (A10 : advances w w10).
  { unfold w10. repeat (eapply advances_trans; [|apply advances_skip]).
    apply advances_refl. }
  pose proof (unit_range_advances A10 Hu) as Hu10.
  destruct (pickPalette_resolved (default_random (Options.paletteType opts)) Hu10)
    as (p & wp & Ep & Ap & Rp).
  rewrite (@bind_returns _ _ _ _ _ _ _ Ep).
  pose proof (unit_range_advances Ap Hu10) as Hup.
  destruct (@pick_resolved SHAPE_STYLES (default_random (Options.shapeStyle opts)) wp Hup)
    as (s1 & w1 & E1 & A1 & R1); [discriminate|].
  rewrite (@bind_returns _ _ _ _ _ _ _ E1).
  pose proof (unit_range_advances A1 Hup) as Hu1.
  destruct (@pick_resolved FONT_STYLES (default_random (Options.fontStyle opts)) w1 Hu1)
    as (s2 & w2 & E2 & A2 & R2); [discriminate|].
  rewrite (@bind_returns _ _ _ _ _ _ _ E2).
  pose proof (unit_range_advances A2 Hu1) as Hu2.
  destruct (@pick_resolved EFFECTS (default_random (Options.effect opts)) w2 Hu2)
    as (s3 & w3 & E3 & A3 & R3); [discriminate|].
  rewrite (@bind_returns _ _ _ _ _ _ _ E3).
  pose proof (unit_range_advances A3 Hu2) as Hu3.
  destruct (@pick_resolved LAYOUT_MODES (default_random (Options.layoutMode opts)) w3 Hu3)
    as (s4 & w4 & E4 & A4 & R4); [discriminate|].
  rewrite (@bind_returns _ _ _ _ _ _ _ E4).
  pose proof (unit_range_advances A4 Hu3) as Hu4.
  destruct (@pick_resolved PATTERNS (default_random (Options.pattern opts)) w4 Hu4)
    as (s5 & w5 & E5 & A5 & R5); [discriminate|].
  rewrite (@bind_returns _ _ _ _ _ _ _ E5).
  destruct (bezierCurves_run w5) as (b1 & b2 & Eb).
  rewrite (@bind_returns _ _ _ _ _ _ _ Eb).
  rewrite bind_Math_random.
  destruct (randomUUID_run (skip 1 (skip 8 w5))) as (id & w6 & E6 & A6).
  rewrite (@bind_returns _ _ _ _ _ _ _ E6).
  destruct (Date_now_run w6) as (t & w' & E7 & A7).
  rewrite (@bind_returns _ _ _ _ _ _ _ E7).
  unfold ret.
  eexists _, _. split; [reflexivity|].
  (* the worlds met on the way, from the first and to the last *)
  pose proof (advances_trans A10 Ap) as B1.
  pose proof (advances_trans B1 A1) as B2.
  pose proof (advances_trans B2 A2) as B3.
  pose proof (advances_trans B3 A3) as B4.
  pose proof (advances_trans B4 A4) as B5.
  assert (C5 : advances w5 w').
  { eapply advances_trans; [|exact A7]. eapply advances_trans; [|exact A6].
    eapply advances_trans; apply advances_skip. }
  pose proof (advances_trans A5 C5) as C4.
  pose proof (advances_trans A4 C4) as C3.
  pose proof (advances_trans A3 C3) as C2.
  pose proof (advances_trans A2 C2) as C1.
  pose proof (advances_trans A1 C1) as Cp.
  split; [exact (advances_trans B5 C4)|].
  cbn [Logo.name Logo.initials Logo.palette Logo.shape Logo.fontStyle Logo.effect
       Logo.layout Logo.pattern Logo.bezierCurves].
  split; [reflexivity|]. split; [reflexivity|].
  split; [exact (palette_resolved_weaken A10 Ap Cp Rp)|].
  split; [exact (resolved_weaken B1 A1 C1 R1)|].
  split; [exact (resolved_weaken B2 A2 C2 R2)|].
  split; [exact (resolved_weaken B3 A3 C3 R3)|].
  split; [exact (resolved_weaken B4 A4 C4 R4)|].
  split; [exact (resolved_weaken B5 A5 C5 R5) | reflexivity].
Qed.

(** What the resolution rules give the stored configuration. *)
Lemma resolved_member (S : list jsstr) (v : jsstr) (w w' : world)
    (stored : option jsstr) :
  resolved S v w w' stored -> Spec.member_of S stored.
Proof.
  intros [Hr Hv].
  destruct (str_eqb v (lit "random")) eqn:R.
  - apply str_eqb_eq in R. destruct (Hr (or_introl R)) as (u & x & _ & _ & Hx & Hin).
    now exists x.
  - apply str_eqb_neq in R. destruct (includes S v) eqn:I.
    + apply includes_In in I. exists v. split; [now apply Hv | exact I].
    + apply includes_not_In in I. destruct (Hr (or_intror I)) as (u & x & _ & _ & Hx & Hin).
      now exists x.
Qed.

Lemma variant_colours (k : jsstr) (v : Palette) :
  In k (Object_keys COLOR_PALETTES) -> In v (Spec.variants k) ->
  exists p s a b,
    primary v = Some p /\ secondary v = Some s /\ accent v = Some a /\ bg v = Some b.
Proof.
  intros Hk Hv. simpl in Hk.
  repeat (destruct Hk as [<-|Hk];
          [cbv [Spec.variants] in Hv; simpl in Hv;
           repeat (destruct Hv as [<-|Hv]; [eexists _, _, _, _; repeat split|]);
           contradiction|]).
  contradiction.
Qed.

Lemma palette_resolved_own (v : jsstr) (w w' : world) (p : Palette) :
  palette_resolved v w w' p ->
  v = lit "random" \/ ~ Spec.inherited v ->
  Spec.drawn_from_own_category p /\
  exists c s a b,
    primary p = Some c /\ secondary p = Some s /\ accent p = Some a /\ bg p = Some b.
Proof.
  intros (k & Hn & _ & _ & _ & Hv) C.
  destruct (Hv C) as (Hin & u & x & _ & Hx & ->).
  apply array_get_In in Hx. split.
  - exists k, x. cbn [paletteName primary secondary accent bg]. repeat split; auto.
  - cbn [primary secondary accent bg]. exact (@variant_colours k x Hin Hx).
Qed.

Lemma generateLogoConfig_complete (nm : jsstr) (opts : Options.t) (w : world) :
  unit_range w ->
  Options.paletteType opts = None \/
    ~ Spec.inherited (default_random (Options.paletteType opts)) ->
  exists cfg w',
    generateLogoConfig toUpperCase nm opts w = (Returns cfg, w') /\
    advances w w' /\ Logo.name cfg = nm /\
    Logo.initials cfg = compute_initials toUpperCase nm /\
    Spec.complete cfg.
Proof.
  intros Hu Hp.
  destruct (generateLogoConfig_returns nm opts Hu)
    as (cfg & w' & E & A & Hn & Hi & Rp & R1 & R2 & R3 & R4 & R5 & Hb).
  exists cfg, w'. repeat (split; [assumption|]).
  assert (C : default_random (Options.paletteType opts) = lit "random"
              \/ ~ Spec.inherited (default_random (Options.paletteType opts))).
  { destruct Hp as [->|Hp]; [left; reflexivity | right; exact Hp]. }
  destruct (palette_resolved_own Rp C) as [Hown Hcol].
  split; [|split; [exact Hown | split; [exact Hcol | exact Hb]]].
  repeat split; eapply resolved_member; eassumption.
Qed.


End GeneratorRuns.

Lemma unit_range_constant (u : Q) :
  0 <= u -> u < 1 -> unit_range (constant_world u).
Proof. intros H0 H1 k. split; assumption. Qed.

Lemma unit_range_cycling : unit_range cycling_world.
Proof.
  intros k. cbn [cycling_world random_source].
  assert (H : (0 <= Z.of_nat (k mod 8) < 8)%Z).
  { pose proof (Nat.mod_upper_bound k 8). lia. }
  split.
  - apply Qle_shift_div_l; [reflexivity|].
    rewrite Qmult_0_l. change 0 with (inject_Z 0). rewrite <- Zle_Qle. lia.
  - apply Qlt_shift_div_r; [reflexivity|].
    rewrite Qmult_1_l. change 8 with (inject_Z 8). rewrite <- Zlt_Qlt. lia.
Qed.

(** ** Totality of the generator *)



(** ** Trimming *)

Lemma trimStart_empty (s : jsstr) :
  trimStart s = [] <-> Forall (fun c => is_whitespace c = true) s.
Proof.
  induction s as [|c r IH]; simpl.
  - split; auto.
  - destruct (is_whitespace c) eqn:E.
    + rewrite IH. split; [now constructor | now inversion 1].
    + split; [discriminate | inversion 1; congruence].
Qed.

Lemma trimStart_head (s : jsstr) (c : code_unit) (r : jsstr) :
  trimStart s = c :: r -> is_whitespace c = false.
Proof.
  induction s as [|x s IH]; simpl; [discriminate|].
  destruct (is_whitespace x) eqn:E; [exact IH|].
  now intros [= <- _].
Qed.

Lemma trimStart_suffix (s : jsstr) :
  exists p, s = p ++ trimStart s /\ Forall (fun c => is_whitespace c = true) p.
Proof.
  induction s as [|x s (p & Hp & Hw)]; simpl.
  - now exists [].
  - destruct (is_whitespace x) eqn:E.
    + exists (x :: p). split; [simpl; congruence | now constructor].
    + now exists [].
Qed.

(** Nothing is left after trimming exactly when the string is empty or
    made of whitespace only. *)
Lemma trim_empty (s : jsstr) :
  trim s = [] <-> Forall (fun c => is_whitespace c = true) s.
Proof.
  unfold trim, trimEnd. split.
  - intros H.
    assert (H' : trimStart (rev (trimStart s)) = []).
    { destruct (trimStart (rev (trimStart s))) as [|c r]; [reflexivity|].
      simpl in H. now destruct (rev r). }
    apply trimStart_empty in H'.
    destruct (trimStart s) as [|c r] eqn:E; [now apply trimStart_empty|].
    apply trimStart_head in E.
    apply Forall_rev in H'. rewrite rev_involutive in H'.
    inversion H'; congruence.
  - intros H. apply trimStart_empty in H. now rewrite H.
Qed.

Lemma trim_nonempty_length (s : jsstr) :
  trim s <> [] <-> Nat.eqb (List.length (trim s)) 0 = false.
Proof.
  destruct (trim s); simpl; split; congruence.
Qed.

(** ** The request boundary *)

Section Boundary.

Import Generate.

Variable toUpperCase : jsstr -> jsstr.
Variable JSON_parse : jsstr -> parsed.
Variable parseInt_exponent : Z -> Z.

Local Abbreviation handler := (Generate.handler toUpperCase JSON_parse parseInt_exponent).
Local Abbreviation batch_size := (Generate.batch_size parseInt_exponent).

(** The batch: [n] runs of the generator, one after the other. *)
Lemma Array_from_generate (n : nat) (nm : jsstr) (opts : Options.t) (w : world) :
  unit_range w ->
  exists logos w',
    Array_from n (generateLogoConfig toUpperCase nm opts) w = (Returns logos, w') /\
    advances w w' /\
    List.length logos = n /\
    Forall (fun cfg => Logo.name cfg = nm /\ Spec.enumerables_closed cfg) logos.
Proof.
  revert w. induction n as [|n IH]; intros w Hu.
  - exists [], w. repeat split; [apply advances_refl | constructor].
  - destruct (generateLogoConfig_returns toUpperCase nm opts Hu)
      as (cfg & w1 & E & A & Hn & _ & _ & R1 & R2 & R3 & R4 & R5 & _).
    destruct (IH w1 (unit_range_advances A Hu)) as (logos & w' & E' & A' & Hl & Hall).
    exists (cfg :: logos), w'. simpl Array_from.
    rewrite (@bind_returns _ _ _ _ _ _ _ E), (@bind_returns _ _ _ _ _ _ _ E').
    split; [reflexivity|]. split; [exact (advances_trans A A')|].
    split; [simpl; congruence|].
    constructor; [|exact Hall].
    split; [exact Hn|]. repeat split; eapply resolved_member; eassumption.
Qed.

(** The test of line 24 on a string. *)
Lemma name_test_string (s : jsstr) :
  falsy (Some (JString s)) || negb (typeof_string (Some (JString s)))
  || Nat.eqb (List.length (trim (string_of (Some (JString s))))) 0
  = Nat.eqb (List.length (trim s)) 0.
Proof. destruct s; reflexivity. Qed.

(** The test of line 24 on anything else. *)
Lemma name_test_other (v : option json) :
  (forall s, v <> Some (JString s)) ->
  falsy v || negb (typeof_string v)
  || Nat.eqb (List.length (trim (string_of v))) 0 = true.
Proof.
  intros H. destruct v as [[| | | s |]|]; simpl; try reflexivity;
    try apply orb_true_r.
  exfalso. now apply (H s).
Qed.

Lemma blank_name_test (v : option json) :
  Spec.blank_name v ->
  falsy v || negb (typeof_string v)
  || Nat.eqb (List.length (trim (string_of v))) 0 = true.
Proof.
  intros H. destruct v as [[| | | s |]|];
    try (apply name_test_other; discriminate).
  rewrite name_test_string. simpl in H. apply trim_empty in H. now rewrite H.
Qed.

(** A POST whose [name] is blank is answered 400, and nothing is
    generated: the oracles are left as they were. *)
Lemma handler_rejects_blank (req : request) (b : Body) (w : world) :
  method req = lit "POST" ->
  destructure JSON_parse (body req) = Returns b ->
  Spec.blank_name (name b) ->
  handler req w =
  (Returns (mkResponse cors 400 (Some (ErrorJson (lit "A logo name is required.")))), w).
Proof.
  intros Hm Hb Hn. unfold Generate.handler. rewrite Hm.
  change (str_eqb (lit "POST") (lit "OPTIONS")) with false.
  change (str_eqb (lit "POST") (lit "POST")) with true.
  cbn [negb]. unfold try_catch, bind, lift. rewrite Hb.
  now rewrite (blank_name_test _ Hn).
Qed.

(** A POST whose [name] leaves something after trimming is answered 200
    with a batch generated for the trimmed name, cut to 50 code units. *)
Lemma handler_generates (req : request) (b : Body) (s : jsstr) (w : world) :
  method req = lit "POST" ->
  destructure JSON_parse (body req) = Returns b ->
  name b = Some (JString s) ->
  trim s <> [] ->
  unit_range w ->
  exists logos w',
    handler req w =
      (Returns (mkResponse cors 200 (Some (LogosJson logos (slice0 50 (trim s))))), w') /\
    advances w w' /\
    List.length logos = Z.to_nat (batch_size (count b)) /\
    Forall (fun cfg => Logo.name cfg = slice0 50 (trim s) /\ Spec.enumerables_closed cfg)
           logos.
Proof.
  intros Hm Hb Hn Ht Hu. unfold Generate.handler. rewrite Hm.
  change (str_eqb (lit "POST") (lit "OPTIONS")) with false.
  change (str_eqb (lit "POST") (lit "POST")) with true.
  cbn [negb]. unfold try_catch. unfold bind at 1. unfold lift. rewrite Hb.
  rewrite Hn, name_test_string.
  apply trim_nonempty_length in Ht. rewrite Ht.
  cbn [string_of].
  destruct (Array_from_generate (Z.to_nat (batch_size (count b)))
              (slice0 50 (trim s))
              (match filters b with Some f => f | None => Options.empty end) Hu)
    as (logos & w' & E & A & Hl & Hall).
  rewrite (@bind_returns _ _ _ _ _ _ _ E). unfold ret.
  exists logos, w'. auto.
Qed.

(** The batch size of line 30 is always within 1..12. *)
Lemma batch_size_range (count : option Z) : (1 <= batch_size count <= 12)%Z.
Proof. unfold Generate.batch_size. lia. Qed.

(** On a count below 10^21 in magnitude: 9 for 0, else the count clamped. *)
Lemma batch_size_clamps (c : Z) :
  (Z.abs c < 10 ^ 21)%Z ->
  batch_size (Some c) = if (c =? 0)%Z then 9%Z else Spec.clamp 1 12 c.
Proof.
  intros H. unfold Generate.batch_size, parseInt10, or_number, Spec.clamp.
  apply Z.ltb_lt in H. rewrite H.
  destruct (c =? 0)%Z; reflexivity.
Qed.

Lemma batch_size_default : batch_size None = 9%Z.
Proof. reflexivity. Qed.

(** X18.  A POST with a valid name (something left after trimming, at
    most 50 code units) and a [count] that is missing or an integer
    below 10^21 in magnitude is answered 200 with a batch of
    configurations, each carrying the trimmed name, as does the response.
    The batch size is within 1..12; it is 9 when [count] is missing or 0,
    and otherwise the count clamped to [1, 12]: 5 gives exactly 5, 50
    gives exactly 12. *)
Theorem generate_batch (req : request) (b : Body) (s : jsstr) (w : world) :
  method req = lit "POST" ->
  destructure JSON_parse (body req) = Returns b ->
  name b = Some (JString s) ->
  Spec.valid_name s ->
  (forall c, count b = Some c -> (Z.abs c < 10 ^ 21)%Z) ->
  unit_range w ->
  exists logos w',
    handler req w = (Returns (mkResponse cors 200 (Some (LogosJson logos (trim s)))), w') /\
    Forall (fun cfg => Logo.name cfg = trim s) logos /\
    Z.of_nat (List.length logos) = batch_size (count b) /\
    (1 <= List.length logos <= 12)%nat /\
    (count b = None -> List.length logos = 9%nat) /\
    (count b = Some 0%Z -> List.length logos = 9%nat) /\
    (count b = Some 5%Z -> List.length logos = 5%nat) /\
    (count b = Some 50%Z -> List.length logos = 12%nat) /\
    (forall c, count b = Some c -> c <> 0%Z ->
       Z.of_nat (List.length logos) = Spec.clamp 1 12 c).
Proof.
  intros Hm Hb Hn [Hne Hlen] Hc Hu.
  destruct (handler_generates req Hm Hb Hn Hne Hu) as (logos & w' & E & _ & Hl & Hall).
  assert (Hs : slice0 50 (trim s) = trim s) by (now apply firstn_all2).
  rewrite Hs in E, Hall.
  pose proof (batch_size_range (count b)) as Hr.
  assert (Hz : Z.of_nat (List.length logos) = batch_size (count b)) by lia.
  exists logos, w'. split; [exact E|].
  split; [eapply Forall_impl; [|exact Hall]; now intros cfg [H _]|].
  split; [exact Hz|]. split; [lia|].
  split; [intros E0; rewrite E0, batch_size_default in Hz; lia|].
  assert (Hk : forall c, count b = Some c ->
            Z.of_nat (List.length logos) = if (c =? 0)%Z then 9%Z else Spec.clamp 1 12 c).
  { intros c E0. rewrite Hz, E0. apply batch_size_clamps. now apply Hc. }
  split; [intros E0; specialize (Hk _ E0); cbn [Z.eqb] in Hk; lia|].
  split; [intros E0; specialize (Hk _ E0); cbn [Z.eqb] in Hk; unfold Spec.clamp in Hk; lia|].
  split; [intros E0; specialize (Hk _ E0); cbn [Z.eqb] in Hk; unfold Spec.clamp in Hk; lia|].
  intros c E0 Hc0. rewrite (Hk _ E0).
  destruct (c =? 0)%Z eqn:Ez; [apply Z.eqb_eq in Ez; contradiction | reflexivity].
Qed.

(** C6.  A POST whose name is missing, not a string, empty, or made of
    whitespace only is answered 400 with the message "A logo name is
    required." and nothing else: the body holds no [logos], and nothing
    was generated (the oracles are untouched). *)
Theorem blank_name_is_rejected (req : request) (b : Body) (w : world) :
  method req = lit "POST" ->
  destructure JSON_parse (body req) = Returns b ->
  Spec.blank_name (name b) ->
  exists r,
    handler req w = (Returns r, w) /\
    status r = 400%Z /\
    sent r = Some (ErrorJson (lit "A logo name is required.")) /\
    (forall logos n, sent r <> Some (LogosJson logos n)).
Proof.
  intros Hm Hb Hn. eexists. split; [now apply handler_rejects_blank with (b := b)|].
  cbn [status sent]. repeat split. discriminate.
Qed.

(** C9, as the code has it.  A request whose method is neither POST nor
    OPTIONS is answered 405 with the error "Method not allowed"; OPTIONS,
    the CORS preflight, is answered 204 with no body. *)
Theorem other_methods_not_allowed (req : request) (w : world) :
  (method req <> lit "POST" -> method req <> lit "OPTIONS" ->
   handler req w =
   (Returns (mkResponse cors 405 (Some (ErrorJson (lit "Method not allowed")))), w)) /\
  (method req = lit "OPTIONS" ->
   handler req w = (Returns (mkResponse cors 204 None), w)).
Proof.
  unfold Generate.handler. split.
  - intros Hp Ho. apply str_eqb_neq in Hp, Ho. now rewrite Hp, Ho.
  - intros Ho. apply str_eqb_eq in Ho. now rewrite Ho.
Qed.

(** C4, as the code has it.  The generator validates nothing and never
    fails: for every name, the empty, the whitespace-only and the
    over-long ones included, it returns a configuration carrying that very
    name.  Validation is the boundary's: a POST with a blank name is
    answered 400 before anything is generated, and a longer name is cut
    to its first 50 code units, not rejected. *)
Theorem validation_is_at_the_boundary :
  (forall nm opts w, unit_range w ->
     exists cfg w',
       generateLogoConfig toUpperCase nm opts w = (Returns cfg, w') /\
       Logo.name cfg = nm /\
       Logo.initials cfg = compute_initials toUpperCase nm) /\
  (forall req b w,
     method req = lit "POST" ->
     destructure JSON_parse (body req) = Returns b ->
     Spec.blank_name (name b) ->
     returned (handler req w) =
       Some (mkResponse cors 400 (Some (ErrorJson (lit "A logo name is required."))))) /\
  (forall req b s w,
     method req = lit "POST" ->
     destructure JSON_parse (body req) = Returns b ->
     name b = Some (JString s) ->
     trim s <> [] ->
     unit_range w ->
     exists logos,
       returned (handler req w) =
         Some (mkResponse cors 200 (Some (LogosJson logos (firstn 50 (trim s))))) /\
       Forall (fun cfg => Logo.name cfg = firstn 50 (trim s)) logos /\
       (List.length (firstn 50 (trim s)) <= 50)%nat).
Proof.
  split; [|split].
  - intros nm opts w Hu.
    destruct (generateLogoConfig_returns toUpperCase nm opts Hu)
      as (cfg & w' & E & _ & Hn & Hi & _).
    exists cfg, w'. split; [exact E|]. split; [exact Hn | exact Hi].
  - intros req b w Hm Hb Hn. unfold returned.
    now rewrite (handler_rejects_blank req w Hm Hb Hn).
  - intros req b s w Hm Hb Hn Ht Hu.
    destruct (handler_generates req Hm Hb Hn Ht Hu) as (logos & w' & E & _ & _ & Hall).
    exists logos. unfold returned. rewrite E. cbn [fst]. split; [reflexivity|].
    split; [eapply Forall_impl; [|exact Hall]; now intros cfg [H _]|].
    apply firstn_le_length.
Qed.

End Boundary.

Lemma generate_batch_witness :
  exists logos w',
    Generate.handler ascii_toUpperCase parse_null_only parseInt_1e21
                     (post " Acme " (Some 5%Z)) cycling_world
    = (Returns (Generate.mkResponse Generate.cors 200
                  (Some (Generate.LogosJson logos (trim (lit " Acme "))))), w') /\
    Forall (fun cfg => Logo.name cfg = trim (lit " Acme ")) logos /\
    Z.of_nat (List.length logos) = Generate.batch_size parseInt_1e21 (Some 5%Z) /\
    (1 <= List.length logos <= 12)%nat /\
    (Some 5%Z = None -> List.length logos = 9%nat) /\
    (Some 5%Z = Some 0%Z -> List.length logos = 9%nat) /\
    (Some 5%Z = Some 5%Z -> List.length logos = 5%nat) /\
    (Some 5%Z = Some 50%Z -> List.length logos = 12%nat) /\
    (forall c, Some 5%Z = Some c -> c <> 0%Z ->
       Z.of_nat (List.length logos) = Spec.clamp 1 12 c).
Proof.
  apply (@generate_batch ascii_toUpperCase parse_null_only parseInt_1e21
           (post " Acme " (Some 5%Z))
           (Generate.mkBody (Some (Generate.JString (lit " Acme "))) (Some 5%Z) None)
           (lit " Acme ") cycling_world).
  - reflexivity.
  - reflexivity.
  - reflexivity.
  - split; [vm_compute; discriminate | vm_compute; lia].
  - intros c [= <-]. reflexivity.
  - exact unit_range_cycling.
Defined.

(** C5 fails on the code at [count = 1e21].  Line 30 hands the number to
    [parseInt], which writes it as the text "1e+21" and reads the 1
    before the "e": the response to a valid name is 200 with one logo,
    where the count clamped to [1, 12] is 12. *)
Theorem count_1e21_gives_one_logo :
  option_map
    (fun r => (Generate.status r,
               match Generate.sent r with
               | Some (Generate.LogosJson logos _) => Some (List.length logos)
               | _ => None
               end))
    (returned (Generate.handler ascii_toUpperCase parse_null_only parseInt_1e21
                 (post "Acme" (Some (10 ^ 21)%Z)) cycling_world))
  = Some (200%Z, Some 1%nat) /\
  Generate.batch_size parseInt_1e21 (Some (10 ^ 21)%Z) = 1%Z /\
  Spec.clamp 1 12 (10 ^ 21) = 12%Z.
Proof. repeat split; vm_compute; reflexivity. Qed.

Lemma blank_name_is_rejected_witness :
  exists r,
    Generate.handler ascii_toUpperCase parse_null_only parseInt_1e21
                     (post "   " None) cycling_world = (Returns r, cycling_world) /\
    Generate.status r = 400%Z /\
    Generate.sent r = Some (Generate.ErrorJson (lit "A logo name is required.")) /\
    (forall logos n, Generate.sent r <> Some (Generate.LogosJson logos n)).
Proof.
  apply (@blank_name_is_rejected ascii_toUpperCase parse_null_only parseInt_1e21
           (post "   " None)
           (Generate.mkBody (Some (Generate.JString (lit "   "))) None None)
           cycling_world).
  - reflexivity.
  - reflexivity.
  - simpl. repeat constructor.
Defined.

(** OPTIONS is not POST, and is answered 204 with no body. *)
Lemma options_is_answered_204 :
  returned (Generate.handler ascii_toUpperCase parse_null_only parseInt_1e21
              (Generate.mkRequest (lit "OPTIONS") Generate.BodyUndefined) cycling_world)
  = Some (Generate.mkResponse Generate.cors 204 None) /\
  str_eqb (lit "OPTIONS") (lit "POST") = false.
Proof. split; reflexivity. Qed.

Lemma other_methods_not_allowed_witness :
  Generate.handler ascii_toUpperCase parse_null_only parseInt_1e21
                   (Generate.mkRequest (lit "GET") Generate.BodyUndefined) cycling_world
  = (Returns (Generate.mkResponse Generate.cors 405
                (Some (Generate.ErrorJson (lit "Method not allowed")))), cycling_world).
Proof.
  apply (proj1 (@other_methods_not_allowed ascii_toUpperCase parse_null_only parseInt_1e21
                  (Generate.mkRequest (lit "GET") Generate.BodyUndefined) cycling_world));
    discriminate.
Defined.

(** The generator accepts the empty name, a whitespace-only name and a
    name of 60 code units: it returns a configuration for each. *)
Lemma generator_accepts_invalid_names :
  option_map Logo.initials
    (returned (generateLogoConfig ascii_toUpperCase [] Options.empty cycling_world))
  = Some (lit "L") /\
  option_map Logo.initials
    (returned (generateLogoConfig ascii_toUpperCase (lit "   ") Options.empty cycling_world))
  = Some (lit " ") /\
  option_map (fun cfg => List.length (Logo.name cfg))
    (returned (generateLogoConfig ascii_toUpperCase (repeat 97%N 60) Options.empty
                                  cycling_world))
  = Some 60%nat.
Proof. repeat split; vm_compute; reflexivity. Qed.

Lemma validation_is_at_the_boundary_witness :
  exists cfg w',
    generateLogoConfig ascii_toUpperCase [] Options.empty cycling_world = (Returns cfg, w') /\
    Logo.name cfg = [] /\
    Logo.initials cfg = compute_initials ascii_toUpperCase [].
Proof.
  apply (proj1 (validation_is_at_the_boundary ascii_toUpperCase parse_null_only
                  parseInt_1e21) [] Options.empty cycling_world).
  exact unit_range_cycling.
Defined.

(** ** Initials *)

Lemma split_pieces (sep : code_unit) (s : jsstr) :
  split sep s = Spec.pieces (fun c => N.eqb c sep) s.
Proof.
  induction s as [|c r IH]; simpl; [reflexivity|].
  now rewrite IH.
Qed.

Lemma pieces_nonempty (is_sep : code_unit -> bool) (s : jsstr) :
  Spec.pieces is_sep s <> [].
Proof.
  destruct s as [|c r]; simpl; [discriminate|].
  destruct (is_sep c); [discriminate|].
  destruct (Spec.pieces is_sep r); discriminate.
Qed.

(** A string without words is made of separators only. *)
Lemma no_words (is_sep : code_unit -> bool) (s : jsstr) :
  Spec.words is_sep s = [] -> Forall (fun c => is_sep c = true) s.
Proof.
  unfold Spec.words. induction s as [|c r IH]; simpl; [constructor|].
  destruct (is_sep c) eqn:E.
  - simpl. intros H. constructor; auto.
  - destruct (Spec.pieces is_sep r); simpl; discriminate.
Qed.

Lemma pieces_ext (p q : code_unit -> bool) (s : jsstr) :
  Forall (fun c => p c = q c) s -> Spec.pieces p s = Spec.pieces q s.
Proof.
  induction 1 as [|c r Hc _ IH]; [reflexivity|].
  simpl. now rewrite Hc, IH.
Qed.

(** Separators at the end add empty pieces only. *)
Lemma pieces_app_separators (is_sep : code_unit -> bool) (s sfx : jsstr) :
  Forall (fun c => is_sep c = true) sfx ->
  Spec.pieces is_sep (s ++ sfx) = Spec.pieces is_sep s ++ repeat [] (List.length sfx).
Proof.
  intros H. induction s as [|c r IH].
  - simpl. induction H as [|c r Hc _ IH]; [reflexivity|].
    simpl. rewrite Hc, IH. reflexivity.
  - simpl. rewrite IH. destruct (is_sep c); [reflexivity|].
    destruct (Spec.pieces is_sep r) eqn:E; [|reflexivity].
    now apply pieces_nonempty in E.
Qed.

Lemma words_separators_after (is_sep : code_unit -> bool) (s sfx : jsstr) :
  Forall (fun c => is_sep c = true) sfx ->
  Spec.words is_sep (s ++ sfx) = Spec.words is_sep s.
Proof.
  intros H. unfold Spec.words. rewrite (@pieces_app_separators is_sep s sfx H), filter_app.
  replace (filter _ (repeat [] (List.length sfx))) with (@nil jsstr);
    [apply app_nil_r|].
  induction (List.length sfx); [reflexivity | assumption].
Qed.

Lemma words_separators_before (is_sep : code_unit -> bool) (pfx s : jsstr) :
  Forall (fun c => is_sep c = true) pfx ->
  Spec.words is_sep (pfx ++ s) = Spec.words is_sep s.
Proof.
  unfold Spec.words. induction 1 as [|c r Hc _ IH]; [reflexivity|].
  simpl. now rewrite Hc.
Qed.

(** A string is its trimmed part between two runs of whitespace. *)
Lemma trim_between (s : jsstr) :
  exists pfx sfx,
    s = pfx ++ trim s ++ sfx /\
    Forall (fun c => is_whitespace c = true) pfx /\
    Forall (fun c => is_whitespace c = true) sfx.
Proof.
  destruct (trimStart_suffix s) as (pfx & Hs & Hp).
  destruct (trimStart_suffix (rev (trimStart s))) as (q & Hr & Hq).
  exists pfx, (rev q). split; [|split; [exact Hp | now apply Forall_rev]].
  unfold trim, trimEnd. rewrite <- rev_app_distr, <- Hr, rev_involutive. exact Hs.
Qed.

(** Trimming leaves the words between whitespace as they are. *)
Lemma words_trim (s : jsstr) :
  Spec.words is_whitespace (trim s) = Spec.words is_whitespace s.
Proof.
  destruct (trim_between s) as (pfx & sfx & Hs & Hp & Hq).
  rewrite Hs at 2.
  now rewrite (@words_separators_before is_whitespace pfx (trim s ++ sfx) Hp),
    (@words_separators_after is_whitespace (trim s) sfx Hq).
Qed.

(** On a name whose only whitespace is the space character, the words
    between whitespace are the words between spaces. *)
Lemma initials_spec_on_spaces (toUpperCase : jsstr -> jsstr) (nm : jsstr) :
  Forall (fun c => is_whitespace c = true -> c = SPACE) nm ->
  Spec.initials_spec toUpperCase nm = Spec.initials_on_spaces toUpperCase nm.
Proof.
  intros H. unfold Spec.initials_spec, Spec.initials_on_spaces.
  rewrite words_trim. unfold Spec.words.
  rewrite (@pieces_ext is_whitespace (fun c => N.eqb c SPACE) nm); [reflexivity|].
  eapply Forall_impl; [|exact H]. intros c Hc. cbv beta in *.
  destruct (is_whitespace c) eqn:E.
  - rewrite (Hc eq_refl). reflexivity.
  - symmetry. apply N.eqb_neq. intros ->. discriminate.
Qed.

Section InitialsProofs.

Variable toUpperCase : jsstr -> jsstr.

Local Abbreviation letter := (Spec.letter toUpperCase).

Lemma or_default_letter (w : jsstr) :
  or_default (first_unit_upper toUpperCase w) [] = letter w.
Proof.
  destruct w as [|c r]; [reflexivity|].
  unfold or_default, first_unit_upper, Spec.letter. simpl.
  destruct (toUpperCase [c]); reflexivity.
Qed.

Lemma letters_of_words (l : list jsstr) :
  concat (map letter (filter (fun w => match w with [] => false | _ => true end) l))
  = concat (map letter l).
Proof.
  induction l as [|w l IH]; [reflexivity|].
  destruct w; simpl; [exact IH | now rewrite IH].
Qed.

(** The first alternative of line 112 is the acronym of the words between
    spaces. *)
Lemma code_acronym (nm : jsstr) :
  slice0 3 (join (map (fun w => or_default (first_unit_upper toUpperCase w) [])
                      (split SPACE nm)))
  = Spec.acronym toUpperCase (Spec.words (fun c => N.eqb c SPACE) nm).
Proof.
  unfold Spec.acronym, Spec.words, slice0, join.
  rewrite letters_of_words, split_pieces. f_equal. f_equal.
  apply map_ext. intros w. apply or_default_letter.
Qed.

Hypothesis upper_nonempty : forall c, toUpperCase [c] <> [].

Lemma compute_initials_on_spaces (nm : jsstr) :
  compute_initials toUpperCase nm = Spec.initials_on_spaces toUpperCase nm.
Proof.
  unfold compute_initials, Spec.initials_on_spaces. rewrite code_acronym.
  destruct (Spec.acronym toUpperCase _) as [|a l]; [|reflexivity].
  destruct nm as [|c r]; [reflexivity|].
  unfold or_default, or_else, first_unit_upper, Spec.with_fallbacks.
  destruct (toUpperCase [c]) eqn:E; [|reflexivity].
  now apply upper_nonempty in E.
Qed.

Lemma initials_nonempty (nm : jsstr) : Spec.initials_on_spaces toUpperCase nm <> [].
Proof.
  unfold Spec.initials_on_spaces, Spec.with_fallbacks.
  destruct (Spec.acronym toUpperCase _); [|discriminate].
  destruct nm; [discriminate | apply upper_nonempty].
Qed.

Lemma acronym_empty (ws : list jsstr) :
  Forall (fun w => w <> []) ws -> Spec.acronym toUpperCase ws = [] -> ws = [].
Proof.
  unfold Spec.acronym. intros H E. destruct ws as [|w ws]; [reflexivity|].
  inversion H as [|? ? Hw _]; subst. destruct w as [|c r]; [contradiction|].
  simpl in E. destruct (toUpperCase [c]) eqn:Ec; [now apply upper_nonempty in Ec|].
  discriminate.
Qed.

Lemma words_nonempty (is_sep : code_unit -> bool) (s : jsstr) :
  Forall (fun w => w <> []) (Spec.words is_sep s).
Proof.
  unfold Spec.words. apply Forall_forall. intros w Hw.
  apply filter_In in Hw as [_ Hw]. destruct w; [discriminate | discriminate].
Qed.

Hypothesis upper_space : toUpperCase [SPACE] = [SPACE].

Lemma initials_at_most_3 (nm : jsstr) :
  (List.length (Spec.initials_on_spaces toUpperCase nm) <= 3)%nat.
Proof.
  unfold Spec.initials_on_spaces, Spec.with_fallbacks.
  destruct (Spec.acronym toUpperCase _) as [|a l] eqn:E.
  - apply acronym_empty in E; [|apply words_nonempty].
    apply no_words in E. destruct nm as [|c r]; [simpl; lia|].
    inversion E as [|? ? Hc _]; subst. apply N.eqb_eq in Hc. subst c.
    rewrite upper_space. simpl. lia.
  - rewrite <- E. unfold Spec.acronym. apply firstn_le_length.
Qed.

End InitialsProofs.

(** C3, as the code has it.  The [initials] of the generated configuration
    are derived from the name as it is received (the boundary has trimmed
    it): the name is split on the space character U+0020, the first code
    unit of each word is uppercased, the results are concatenated and cut
    to 3 code units; when that yields nothing, the first code unit of the
    name uppercased; when there is none, the literal "L".  On a name whose
    only whitespace is the space character this is the derivation the
    specification words (trimmed, split on whitespace).  The initials are
    never empty and never longer than 3 code units; "Nexus Labs" gives
    "NL" and "nova" gives "N". *)
Theorem initials_derivation
    (toUpperCase : jsstr -> jsstr) (nm : jsstr) (opts : Options.t) (w : world) :
  (forall c, toUpperCase [c] <> []) ->
  (forall c, (c < 128)%N -> toUpperCase [c] = [ascii_upper_unit c]) ->
  unit_range w ->
  exists cfg w',
    generateLogoConfig toUpperCase nm opts w = (Returns cfg, w') /\
    Logo.initials cfg = Spec.initials_on_spaces toUpperCase nm /\
    (Forall (fun c => is_whitespace c = true -> c = SPACE) nm ->
     Logo.initials cfg = Spec.initials_spec toUpperCase nm) /\
    (1 <= List.length (Logo.initials cfg) <= 3)%nat /\
    (nm = lit "Nexus Labs" -> Logo.initials cfg = lit "NL") /\
    (nm = lit "nova" -> Logo.initials cfg = lit "N").
Proof.
  intros Hne Hascii Hu.
  destruct (generateLogoConfig_returns toUpperCase nm opts Hu)
    as (cfg & w' & E & _ & _ & Hi & _).
  exists cfg, w'. split; [exact E|].
  rewrite Hi, (compute_initials_on_spaces toUpperCase Hne).
  split; [reflexivity|].
  split; [intros Hws; symmetry; now apply initials_spec_on_spaces|].
  split.
  - pose proof (initials_nonempty toUpperCase Hne nm) as H1.
    assert (Hsp : toUpperCase [SPACE] = [SPACE]) by (now apply Hascii).
    pose proof (initials_at_most_3 toUpperCase Hne Hsp nm) as H3.
    destruct (Spec.initials_on_spaces toUpperCase nm); [contradiction | simpl in *; lia].
  - split; intros ->.
    + cbv. rewrite !Hascii by reflexivity. reflexivity.
    + cbv. rewrite !Hascii by reflexivity. reflexivity.
Qed.

Lemma initials_derivation_witness :
  exists cfg w',
    generateLogoConfig ascii_toUpperCase (lit "Nexus Labs") Options.empty cycling_world
      = (Returns cfg, w') /\
    Logo.initials cfg = Spec.initials_on_spaces ascii_toUpperCase (lit "Nexus Labs") /\
    (Forall (fun c => is_whitespace c = true -> c = SPACE) (lit "Nexus Labs") ->
     Logo.initials cfg = Spec.initials_spec ascii_toUpperCase (lit "Nexus Labs")) /\
    (1 <= List.length (Logo.initials cfg) <= 3)%nat /\
    (lit "Nexus Labs" = lit "Nexus Labs" -> Logo.initials cfg = lit "NL") /\
    (lit "Nexus Labs" = lit "nova" -> Logo.initials cfg = lit "N").
Proof.
  apply (@initials_derivation ascii_toUpperCase (lit "Nexus Labs") Options.empty
                              cycling_world).
  - discriminate.
  - reflexivity.
  - exact unit_range_cycling.
Defined.

(** A tab between two words: the code, which splits on the space alone,
    sees one word; the specification's wording, which splits on
    whitespace, sees two. *)
Lemma tab_separated_words :
  compute_initials ascii_toUpperCase (lit "a" ++ [9%N] ++ lit "b") = lit "A" /\
  Spec.initials_spec ascii_toUpperCase (lit "a" ++ [9%N] ++ lit "b") = lit "AB" /\
  option_map Logo.initials
    (returned (generateLogoConfig ascii_toUpperCase (lit "a" ++ [9%N] ++ lit "b")
                                  Options.empty cycling_world))
  = Some (lit "A").
Proof. repeat split; vm_compute; reflexivity. Qed.

(** ** Resolution of the filter fields *)




(** ** The closed sets *)

Lemma pick_random (arr : list jsstr) (w : world) :
  pick arr (lit "random") w =
  (Returns (array_get arr (random_index (next_draw w) (List.length arr))), skip 1 w).
Proof. now rewrite pick_run. Qed.

Lemma pickPalette_toString (w : world) :
  pickPalette (lit "toString") w =
  (Returns (mkPalette None None None None (Some (lit "toString"))), skip 1 w).
Proof. reflexivity. Qed.

(** C2 fails on the code at [paletteType = "toString"]: the [in] test of
    line 77 accepts the name, which every object literal inherits, as a
    category; the palette is then stored under that name and without any
    colour.  This holds for every name and every state of the random
    source. *)
Theorem inherited_name_stored_as_category
    (toUpperCase : jsstr -> jsstr) (nm : jsstr) (w : world) :
  exists cfg w',
    generateLogoConfig toUpperCase nm
      (Options.mk (Some (lit "toString")) None None None None None) w
      = (Returns cfg, w') /\
    Logo.palette cfg = mkPalette None None None None (Some (lit "toString")) /\
    includes (Object_keys COLOR_PALETTES) (lit "toString") = false.
Proof.
  unfold generateLogoConfig. cbn [Options.paletteType Options.shapeStyle Options.fontStyle
    Options.effect Options.layoutMode Options.pattern default_random].
  do 10 rewrite bind_Math_random.
  rewrite (@bind_returns _ _ _ _ _ _ _ (pickPalette_toString _)).
  do 5 rewrite (@bind_returns _ _ _ _ _ _ _ (pick_random _ _)).
  destruct (bezierCurves_run
              (skip 1 (skip 1 (skip 1 (skip 1 (skip 1 (skip 1
                (skip 1 (skip 1 (skip 1 (skip 1 (skip 1 (skip 1 (skip 1
                (skip 1 (skip 1 (skip 1 w)))))))))))))))))
    as (b1 & b2 & Eb).
  rewrite (@bind_returns _ _ _ _ _ _ _ Eb).
  rewrite bind_Math_random.
  destruct (randomUUID_run
              (skip 1 (skip 8 (skip 1 (skip 1 (skip 1 (skip 1 (skip 1 (skip 1
                (skip 1 (skip 1 (skip 1 (skip 1 (skip 1 (skip 1 (skip 1
                (skip 1 (skip 1 (skip 1 w)))))))))))))))))))
    as (id & w6 & E6 & _).
  rewrite (@bind_returns _ _ _ _ _ _ _ E6).
  destruct (Date_now_run w6) as (t & w' & E7 & _).
  rewrite (@bind_returns _ _ _ _ _ _ _ E7).
  eexists _, _. split; [reflexivity|]. split; reflexivity.
Qed.

(** ** The vector exporter *)

Section Occurrences.

Import App.

Lemma starts_with_app (pat s : jsstr) : starts_with pat (pat ++ s) = true.
Proof.
  induction pat as [|p pat IH]; [reflexivity|].
  simpl. now rewrite N.eqb_refl.
Qed.

Lemma occurrences_prefix (pat a s : jsstr) :
  (occurrences pat s <= occurrences pat (a ++ s))%nat.
Proof.
  induction a as [|x a IH]; [apply Nat.le_refl|].
  simpl. lia.
Qed.

Lemma occurrences_here (pat s : jsstr) :
  pat <> [] -> (1 + occurrences pat s <= occurrences pat (pat ++ s))%nat.
Proof.
  intros Hne. destruct pat as [|p pat]; [contradiction|].
  pose proof (occurrences_prefix (p :: pat) pat s) as H.
  pose proof (starts_with_app (p :: pat) s) as Hs.
  change ((p :: pat) ++ s) with (p :: (pat ++ s)) in *.
  cbn [occurrences]. rewrite Hs. lia.
Qed.

Lemma occurrences_contains (pat a b : jsstr) :
  (1 <= occurrences pat (a ++ pat ++ b))%nat.
Proof.
  apply Nat.le_trans with (occurrences pat (pat ++ b)); [|apply occurrences_prefix].
  destruct pat as [|p pat].
  - simpl. destruct b; simpl; lia.
  - assert (Hne : p :: pat <> []) by discriminate.
    pose proof (occurrences_here b Hne). lia.
Qed.

Lemma occurrences_twice (pat a b c : jsstr) :
  pat <> [] -> (2 <= occurrences pat (a ++ pat ++ b ++ pat ++ c))%nat.
Proof.
  intros Hne.
  apply Nat.le_trans with (occurrences pat (pat ++ b ++ pat ++ c));
    [|apply occurrences_prefix].
  pose proof (occurrences_here (b ++ pat ++ c) Hne).
  pose proof (occurrences_contains pat b c). lia.
Qed.

End Occurrences.

Section ExporterProofs.

Import App.

Variable toUpperCase : jsstr -> jsstr.
Variable Number_toString : Q -> jsstr.

Local Abbreviation render := (App.render toUpperCase Number_toString).
Local Abbreviation svgContent := (App.svgContent toUpperCase Number_toString).

Lemma render_app (cfg : Logo.t) (a b : list segment) :
  render cfg (a ++ b) = render cfg a ++ render cfg b.
Proof. unfold App.render. now rewrite map_app, concat_app. Qed.

(** The document is the text before the name, the uppercased name, the
    text between the name and the tagline, the tagline, and the rest. *)
Lemma svgContent_shape (cfg : Logo.t) :
  exists before between rest,
    svgContent cfg =
    before ++ toUpperCase (Logo.name cfg) ++ between ++ lit "BRAND" ++ rest.
Proof.
  exists (render cfg (firstn 51 svg_template)),
         (render cfg (firstn 8 (skipn 52 svg_template))
          ++ quoted "' opacity='0.7'>"),
         (lit "</text>" ++ render cfg (skipn 61 svg_template)).
  unfold App.svgContent.
  change svg_template with
    (firstn 51 svg_template ++ [Subst UpperName]
     ++ firstn 8 (skipn 52 svg_template)
     ++ [Text (quoted "' opacity='0.7'>" ++ lit "BRAND" ++ lit "</text>")]
     ++ skipn 61 svg_template) at 1.
  rewrite !render_app.
  change (render cfg [Subst UpperName]) with (toUpperCase (Logo.name cfg) ++ []).
  change (render cfg [Text (quoted "' opacity='0.7'>" ++ lit "BRAND" ++ lit "</text>")])
    with ((quoted "' opacity='0.7'>" ++ lit "BRAND" ++ lit "</text>") ++ []).
  rewrite !app_nil_r, <- !app_assoc. reflexivity.
Qed.

Lemma svgContent_circle (cfg : Logo.t) :
  exists before rest,
    svgContent cfg =
    before ++ quoted "<circle cx='300' cy='300' r='200'" ++ rest.
Proof.
  exists (render cfg (firstn 28 svg_template) ++ lit "  "),
         (quoted " fill='url(#fill)' stroke='" ++ render cfg (skipn 29 svg_template)).
  unfold App.svgContent.
  change svg_template with
    (firstn 28 svg_template
     ++ [Text (lit "  " ++ quoted "<circle cx='300' cy='300' r='200'"
               ++ quoted " fill='url(#fill)' stroke='")]
     ++ skipn 29 svg_template) at 1.
  rewrite !render_app.
  change (render cfg [Text (lit "  " ++ quoted "<circle cx='300' cy='300' r='200'"
                            ++ quoted " fill='url(#fill)' stroke='")])
    with ((lit "  " ++ quoted "<circle cx='300' cy='300' r='200'"
           ++ quoted " fill='url(#fill)' stroke='") ++ []).
  rewrite !app_nil_r, <- !app_assoc. reflexivity.
Qed.

(** The export reads the name, the four palette colours and the letter
    spacing, and nothing else of the configuration. *)
Lemma svgContent_reads (cfg cfg' : Logo.t) :
  Logo.name cfg' = Logo.name cfg ->
  primary (Logo.palette cfg') = primary (Logo.palette cfg) ->
  secondary (Logo.palette cfg') = secondary (Logo.palette cfg) ->
  accent (Logo.palette cfg') = accent (Logo.palette cfg) ->
  bg (Logo.palette cfg') = bg (Logo.palette cfg) ->
  Logo.letterSpacing cfg' = Logo.letterSpacing cfg ->
  svgContent cfg' = svgContent cfg.
Proof.
  intros Hn Hp Hs Ha Hb Hl. unfold App.svgContent, App.render. f_equal.
  apply map_ext. intros [s|h]; [reflexivity|].
  destruct h; unfold substitute; congruence.
Qed.

End ExporterProofs.

(** When the name reads "BRAND" once uppercased, the tagline's text is in
    the document twice, whatever the number printer. *)
Lemma brand_named_twice
    (toUpperCase : jsstr -> jsstr) (Number_toString : Q -> jsstr) (cfg : Logo.t) :
  toUpperCase (Logo.name cfg) = lit "BRAND" ->
  (2 <= App.occurrences (lit "BRAND")
          (App.svgContent toUpperCase Number_toString cfg))%nat.
Proof.
  intros H.
  destruct (svgContent_shape toUpperCase Number_toString cfg)
    as (before & between & rest & ->).
  rewrite H. apply occurrences_twice. discriminate.
Qed.

(** C8, as the code has it.  The exported document contains the uppercased
    name and the tagline "BRAND", each at least once: the template
    substitutes the name at exactly one place and its literal text holds
    "BRAND" exactly once.  The figure is the circle of radius 200 at
    (300, 300), whatever the [shape]: the template has no other outline
    element, and two configurations that agree on the name, the palette's
    primary, secondary, accent and bg colours and the letter spacing
    export the same document.  (A name or colour that repeats a piece of
    the document makes that piece occur more than once.) *)
Theorem svg_export
    (toUpperCase : jsstr -> jsstr) (Number_toString : Q -> jsstr) (cfg : Logo.t) :
  (1 <= App.occurrences (toUpperCase (Logo.name cfg))
          (App.svgContent toUpperCase Number_toString cfg))%nat /\
  (1 <= App.occurrences (lit "BRAND")
          (App.svgContent toUpperCase Number_toString cfg))%nat /\
  App.substitutions App.UpperName App.svg_template = 1%nat /\
  App.occurrences (lit "BRAND") (App.literal_text App.svg_template) = 1%nat /\
  (1 <= App.occurrences (quoted "<circle cx='300' cy='300' r='200'")
          (App.svgContent toUpperCase Number_toString cfg))%nat /\
  App.occurrences (lit "<path") (App.literal_text App.svg_template) = 0%nat /\
  App.occurrences (lit "<polygon") (App.literal_text App.svg_template) = 0%nat /\
  (forall cfg',
     Logo.name cfg' = Logo.name cfg ->
     primary (Logo.palette cfg') = primary (Logo.palette cfg) ->
     secondary (Logo.palette cfg') = secondary (Logo.palette cfg) ->
     accent (Logo.palette cfg') = accent (Logo.palette cfg) ->
     bg (Logo.palette cfg') = bg (Logo.palette cfg) ->
     Logo.letterSpacing cfg' = Logo.letterSpacing cfg ->
     App.svgContent toUpperCase Number_toString cfg'
     = App.svgContent toUpperCase Number_toString cfg).
Proof.
  destruct (svgContent_shape toUpperCase Number_toString cfg)
    as (before & between & rest & E).
  destruct (svgContent_circle toUpperCase Number_toString cfg) as (pre & post & Ec).
  split; [rewrite E; apply occurrences_contains|].
  split.
  { rewrite E.
    replace (before ++ toUpperCase (Logo.name cfg) ++ between ++ lit "BRAND" ++ rest)
      with ((before ++ toUpperCase (Logo.name cfg) ++ between) ++ lit "BRAND" ++ rest)
      by (now rewrite <- !app_assoc).
    apply occurrences_contains. }
  split; [reflexivity|]. split; [vm_compute; reflexivity|].
  split; [rewrite Ec; apply occurrences_contains|].
  split; [vm_compute; reflexivity|]. split; [vm_compute; reflexivity|].
  intros cfg'. apply svgContent_reads.
Qed.

(** The name "brand": the text "BRAND" is in the export twice, once as the
    name and once as the tagline, not once. *)
Lemma brand_occurs_twice :
  option_map (fun cfg => App.occurrences (lit "BRAND")
                           (App.svgContent ascii_toUpperCase App.integer_toString cfg))
    (returned (generateLogoConfig ascii_toUpperCase (lit "brand") Options.empty
                                  cycling_world))
  = Some 2%nat /\
  ascii_toUpperCase (lit "brand") = lit "BRAND".
Proof. split; vm_compute; reflexivity. Qed.

(** ** The 2D renderer *)

Section RendererProofs.

Import LogoCanvas.

Variable toUpperCase : jsstr -> jsstr.
Variable Number_toString : Q -> jsstr.
Variable Math_PI : Q.
Variable Math_cos : Q -> Q.
Variable Math_sin : Q -> Q.
Variable shiftHue : jsstr -> Q -> jsstr.
Variable inherited_text : jsvalue -> jsstr.

Local Abbreviation drawPattern := (LogoCanvas.drawPattern Math_PI Math_cos Math_sin).
Local Abbreviation drawLogo :=
  (LogoCanvas.drawLogo toUpperCase Number_toString Math_PI Math_cos Math_sin
                       shiftHue inherited_text).

(** Every pattern but [circuits] is drawn without a call of
    [Math.random]: the operations are the same in every world, and the
    world is left as it was. *)
Lemma drawPattern_pure (size : Q) (pattern color : option jsstr) :
  is_lit pattern "circuits" = false ->
  exists ops, forall w, drawPattern size pattern color w = (Returns ops, w).
Proof.
  intros H. unfold LogoCanvas.drawPattern. rewrite H.
  destruct (is_lit pattern "dots"); [eexists; intros w; reflexivity|].
  destruct (is_lit pattern "lines"); [eexists; intros w; reflexivity|].
  destruct (is_lit pattern "grid"); [eexists; intros w; reflexivity|].
  destruct (is_lit pattern "triangles"); [eexists; intros w; reflexivity|].
  destruct (is_lit pattern "hexagons"); [eexists; intros w; reflexivity|].
  destruct (is_lit pattern "waves"); eexists; intros w; reflexivity.
Qed.

Lemma skip_skip (a b : nat) (w : world) : skip a (skip b w) = skip (a + b) w.
Proof.
  unfold skip. cbn [random_source random_calls uuid_source uuid_calls clock_source
                    clock_calls].
  f_equal. lia.
Qed.

Lemma Array_from_S {A} (n : nat) (f : M A) :
  Array_from (S n) f = bind f (fun a => bind (Array_from n f) (fun r => ret (a :: r))).
Proof. reflexivity. Qed.

Lemma skip_0 (w : world) : skip 0 w = w.
Proof. now destruct w. Qed.

(** One node costs two draws, which place it. *)
Lemma circuit_run (size : Q) (w : world) :
  circuit Math_PI size w =
  (Returns (node Math_PI (next_draw w * size) (next_draw (skip 1 w) * size)), skip 2 w).
Proof. reflexivity. Qed.

Lemma circuits_run (n : nat) (size : Q) (w : world) :
  exists l, Array_from n (circuit Math_PI size) w = (Returns l, skip (n * 2) w).
Proof.
  revert w. induction n as [|n IH]; intros w.
  - exists []. cbn [Array_from Nat.mul]. now rewrite skip_0.
  - destruct (IH (skip 2 w)) as [l Hl]. eexists.
    cbn [Array_from].
    rewrite (@bind_returns _ _ _ _ _ _ _ (circuit_run size w)).
    rewrite (@bind_returns _ _ _ _ _ _ _ Hl).
    unfold ret. rewrite skip_skip.
    replace (n * 2 + 2)%nat with (S n * 2)%nat by lia. reflexivity.
Qed.

(** The ten nodes of [circuits] cost twenty draws; the first node is
    placed by the first two. *)
Lemma drawPattern_circuits (size : Q) (pattern color : option jsstr) (w : world) :
  is_lit pattern "circuits" = true ->
  exists rest,
    drawPattern size pattern color w =
    (Returns ([ SetGlobalAlpha 0.06; SetStrokeStyle (Css color); SetLineWidth 0.5;
                BeginPath;
                Arc (next_draw w * size) (next_draw (skip 1 w) * size) 3 0 (Math_PI * 2) ]
              ++ rest),
     skip 20 w).
Proof.
  intros H. unfold LogoCanvas.drawPattern.
  assert (Hd : is_lit pattern "dots" = false /\ is_lit pattern "lines" = false /\
               is_lit pattern "grid" = false /\ is_lit pattern "triangles" = false /\
               is_lit pattern "hexagons" = false /\ is_lit pattern "waves" = false).
  { destruct pattern as [p|]; [|discriminate]. unfold is_lit in *.
    apply str_eqb_eq in H. subst p. repeat split; reflexivity. }
  destruct Hd as (-> & -> & -> & -> & -> & ->). rewrite H.
  destruct (circuits_run 9 size (skip 2 w)) as [l Hl].
  assert (Hrun : Array_from 10 (circuit Math_PI size) w
                 = (Returns (node Math_PI (next_draw w * size)
                                          (next_draw (skip 1 w) * size) :: l),
                    skip 20 w)).
  { rewrite (Array_from_S 9).
    rewrite (@bind_returns _ _ _ _ _ _ _ (circuit_run size w)).
    rewrite (@bind_returns _ _ _ _ _ _ _ Hl).
    unfold ret. rewrite skip_skip. reflexivity. }
  unfold bind at 1. unfold bind at 1. rewrite Hrun. unfold ret, node.
  cbn [concat app]. eexists. reflexivity.
Qed.

Lemma drawLogo_pure (canvas : bool) (cfg : Logo.t) (size : Q) :
  is_lit (Logo.pattern cfg) "circuits" = false ->
  exists o, forall w, drawLogo canvas cfg size w = (o, w).
Proof.
  intros H. unfold LogoCanvas.drawLogo.
  destruct canvas; cbn [negb]; [|eexists; intros w; reflexivity].
  destruct (@drawPattern_pure size (Logo.pattern cfg) (primary (Logo.palette cfg)) H)
    as [ops Hops].
  destruct (bg (Logo.palette cfg)) as [hex|].
  - eexists. intros w. unfold bind at 1. unfold ret at 1.
    rewrite (@bind_returns _ _ _ _ _ _ _ (Hops w)). reflexivity.
  - eexists. intros w. reflexivity.
Qed.

(** With [circuits] the render costs twenty draws, and its ninth
    operation is the circle of the first node, centred where the first two
    draws put it. *)
Lemma drawLogo_circuits (cfg : Logo.t) (size : Q) (hex : jsstr) (w : world) :
  is_lit (Logo.pattern cfg) "circuits" = true ->
  bg (Logo.palette cfg) = Some hex ->
  exists ops,
    drawLogo true cfg size w = (Returns ops, skip 20 w) /\
    nth_error ops 8 =
    Some (Arc (next_draw w * size) (next_draw (skip 1 w) * size) 3 0 (Math_PI * 2)).
Proof.
  intros H Hb. unfold LogoCanvas.drawLogo. cbn [negb]. rewrite Hb.
  destruct (@drawPattern_circuits size (Logo.pattern cfg) (primary (Logo.palette cfg)) w H)
    as [rest Hr].
  unfold bind at 1. unfold ret at 1.
  rewrite (@bind_returns _ _ _ _ _ _ _ Hr).
  eexists. split; reflexivity.
Qed.

End RendererProofs.

(** C7, as the code has it.  For a configuration whose pattern is not
    [circuits], the renderer issues the same operations on the canvas
    whenever it is invoked with that configuration and that size: the
    outcome is the same in any two states of the random source, and the
    render does not call [Math.random].  With the [circuits] pattern the
    render calls [Math.random] twenty times, two calls for each of the ten
    nodes; the first two place the circle that is the ninth operation. *)
Theorem render_repeatable
    (toUpperCase : jsstr -> jsstr) (Number_toString : Q -> jsstr)
    (Math_PI : Q) (Math_cos Math_sin : Q -> Q)
    (shiftHue : jsstr -> Q -> jsstr) (inherited_text : jsvalue -> jsstr)
    (canvas : bool) (cfg : Logo.t) (size : Q) :
  (Logo.pattern cfg <> Some (lit "circuits") ->
   forall w1 w2,
     fst (LogoCanvas.drawLogo toUpperCase Number_toString Math_PI Math_cos Math_sin
                              shiftHue inherited_text canvas cfg size w1)
     = fst (LogoCanvas.drawLogo toUpperCase Number_toString Math_PI Math_cos Math_sin
                                shiftHue inherited_text canvas cfg size w2) /\
     snd (LogoCanvas.drawLogo toUpperCase Number_toString Math_PI Math_cos Math_sin
                              shiftHue inherited_text canvas cfg size w1) = w1) /\
  (Logo.pattern cfg = Some (lit "circuits") ->
   forall hex w,
     bg (Logo.palette cfg) = Some hex ->
     exists ops,
       LogoCanvas.drawLogo toUpperCase Number_toString Math_PI Math_cos Math_sin
                           shiftHue inherited_text true cfg size w
       = (Returns ops, skip 20 w) /\
       nth_error ops 8
       = Some (LogoCanvas.Arc (next_draw w * size) (next_draw (skip 1 w) * size)
                              3 0 (Math_PI * 2))).
Proof.
  split.
  - intros H w1 w2.
    assert (H' : LogoCanvas.is_lit (Logo.pattern cfg) "circuits" = false).
    { unfold LogoCanvas.is_lit. destruct (Logo.pattern cfg) as [p|]; [|reflexivity].
      apply str_eqb_neq. congruence. }
    destruct (drawLogo_pure toUpperCase Number_toString Math_PI Math_cos Math_sin
                            shiftHue inherited_text canvas cfg size H') as [o Ho].
    rewrite (Ho w1), (Ho w2). split; reflexivity.
  - intros H hex w Hb.
    apply drawLogo_circuits with (hex := hex); [|exact Hb].
    unfold LogoCanvas.is_lit. rewrite H. apply str_eqb_refl.
Qed.

Lemma render_repeatable_witness :
  fst (sample_drawLogo (example_logo "dots") 100 cycling_world)
  = fst (sample_drawLogo (example_logo "dots") 100 (constant_world (1 # 2))) /\
  snd (sample_drawLogo (example_logo "dots") 100 cycling_world) = cycling_world.
Proof.
  apply (proj1 (@render_repeatable ascii_toUpperCase App.integer_toString sample_PI
                  sample_cos sample_sin sample_shiftHue sample_inherited_text true
                  (example_logo "dots") 100)).
  discriminate.
Defined.

(** The same configuration, with the [circuits] pattern, rendered at the
    same size in two states of the random source: the circle of the first
    node is centred at (0, 0) in one render and at (50, 50) in the other. *)
Lemma circuits_renders_differ :
  option_map (fun ops => nth_error ops 8)
    (returned (sample_drawLogo (example_logo "circuits") 100 (constant_world 0)))
  = Some (Some (LogoCanvas.Arc (0 * 100) (0 * 100) 3 0 (sample_PI * 2))) /\
  option_map (fun ops => nth_error ops 8)
    (returned (sample_drawLogo (example_logo "circuits") 100 (constant_world (1 # 2))))
  = Some (Some (LogoCanvas.Arc ((1 # 2) * 100) ((1 # 2) * 100) 3 0 (sample_PI * 2))) /\
  Qeq_bool (0 * 100) ((1 # 2) * 100) = false.
Proof. repeat split; vm_compute; reflexivity. Qed.


(** * Further properties *)

(** ** The numbers and the cost of a configuration *)

Lemma unit_range_skip (n : nat) (w : world) : unit_range w -> unit_range (skip n w).
Proof. apply unit_range_advances, advances_skip. Qed.

Lemma unit_range_counting (u : Q) :
  0 <= u -> u < 1 -> unit_range (counting_world u).
Proof. intros H0 H1 k. split; assumption. Qed.

(** [pick] returns, after the draws counted by [draws_of_pick]. *)
Lemma pick_returns (arr : list jsstr) (val : jsstr) (w : world) :
  exists stored, pick arr val w = (Returns stored, skip (draws_of_pick arr val) w).
Proof.
  rewrite pick_run. unfold draws_of_pick.
  destruct (str_eqb val (lit "random") || negb (includes arr val)).
  - eexists. reflexivity.
  - eexists. now rewrite skip_0.
Qed.

(** [pickPalette] draws the variant before it looks at the category's
    list: two draws for "random", one otherwise, thrown or not. *)
Lemma pickPalette_world (t : jsstr) (w : world) :
  snd (pickPalette t w) = skip (if str_eqb t (lit "random") then 2 else 1) w.
Proof.
  unfold pickPalette, bind. destruct (str_eqb t (lit "random")).
  - rewrite Math_random_run. unfold ret at 1. rewrite Math_random_run.
    rewrite skip_skip.
    destruct (get_property _); reflexivity.
  - unfold ret at 1. rewrite Math_random_run.
    destruct (get_property _); reflexivity.
Qed.

Lemma pickPalette_returns (t : jsstr) (w : world) :
  unit_range w ->
  exists p, pickPalette t w
            = (Returns p, skip (if str_eqb t (lit "random") then 2 else 1) w).
Proof.
  intros Hu. destruct (pickPalette_resolved t Hu) as (p & w' & E & _).
  exists p. rewrite <- pickPalette_world, E. reflexivity.
Qed.

Lemma offset_within (u : Q) : 0 <= u -> u < 1 -> within (-100) 100 (u * 200 - 100).
Proof. unfold within. intros. split; lra. Qed.

Lemma bezier_returns (w : world) :
  unit_range w ->
  exists b, bezier w = (Returns b, skip 4 w) /\ offsets_in_range b.
Proof.
  intros Hu. unfold bezier. do 4 rewrite bind_Math_random. rewrite !skip_skip.
  eexists. split; [reflexivity|].
  unfold offsets_in_range. cbn [cx1 cy1 cx2 cy2].
  repeat split; apply offset_within; apply unit_next_draw; auto using unit_range_skip.
Qed.

Lemma bezierCurves_returns (w : world) :
  unit_range w ->
  exists l, Array_from 2 bezier w = (Returns l, skip 8 w) /\
            List.length l = 2%nat /\ Forall offsets_in_range l.
Proof.
  intros Hu.
  destruct (bezier_returns Hu) as (b1 & E1 & R1).
  destruct (bezier_returns (unit_range_skip 4 Hu)) as (b2 & E2 & R2).
  exists [b1; b2].
  split; [|split; [reflexivity | repeat (constructor; [assumption|]); constructor]].
  cbn [Array_from]. unfold bind. rewrite E1, E2. unfold ret.
  now rewrite skip_skip.
Qed.

Lemma draws_needed_range (opts : Options.t) : (20 <= draws_needed opts <= 26)%nat.
Proof.
  unfold draws_needed, draws_of_pick.
  repeat match goal with |- context [if ?c then _ else _] => destruct c end; lia.
Qed.

(** A number made from one draw lies where its line of the source puts it. *)
Ltac unit_draw Hu :=
  match goal with
  | |- within _ _ ?e =>
      match e with
      | context [next_draw ?w0] =>
          let H := fresh in
          assert (H : 0 <= next_draw w0 /\ next_draw w0 < 1)
            by (apply unit_next_draw; auto using unit_range_skip);
          destruct H; unfold within; split; lra
      end
  end.

Section GeneratorNumbers.

Variable toUpperCase : jsstr -> jsstr.

(** The run of the generator, with the world it leaves. *)
Lemma generateLogoConfig_exact (nm : jsstr) (opts : Options.t) (w : world) :
  unit_range w ->
  exists cfg,
    generateLogoConfig toUpperCase nm opts w
    = (Returns cfg, after_config (draws_needed opts) w) /\
    Logo.id cfg = uuid_source w (uuid_calls w) /\
    Logo.timestamp cfg = clock_source w (clock_calls w) /\
    fst (pickPalette (default_random (Options.paletteType opts)) (skip 10 w))
    = Returns (Logo.palette cfg) /\
    List.length (Logo.bezierCurves cfg) = 2%nat /\
    numbers_in_range cfg.
Proof.
  intros Hu. unfold generateLogoConfig.
  do 10 rewrite bind_Math_random. rewrite !skip_skip.
  cbn [Nat.add].
  destruct (pickPalette_returns (default_random (Options.paletteType opts))
              (unit_range_skip 10 Hu)) as [p Ep].
  rewrite (@bind_returns _ _ _ _ _ _ _ Ep), skip_skip.
  set (np := if str_eqb (default_random (Options.paletteType opts)) (lit "random")
             then 2%nat else 1%nat).
  destruct (pick_returns SHAPE_STYLES (default_random (Options.shapeStyle opts))
              (skip (np + 10) w)) as [s1 E1].
  rewrite (@bind_returns _ _ _ _ _ _ _ E1), skip_skip.
  cbv beta. match goal with |- context [bind (pick FONT_STYLES ?v) _ ?w0] =>
    destruct (pick_returns FONT_STYLES v w0) as [s2 E2] end.
  rewrite (@bind_returns _ _ _ _ _ _ _ E2), skip_skip.
  cbv beta. match goal with |- context [bind (pick EFFECTS ?v) _ ?w0] =>
    destruct (pick_returns EFFECTS v w0) as [s3 E3] end.
  rewrite (@bind_returns _ _ _ _ _ _ _ E3), skip_skip.
  cbv beta. match goal with |- context [bind (pick LAYOUT_MODES ?v) _ ?w0] =>
    destruct (pick_returns LAYOUT_MODES v w0) as [s4 E4] end.
  rewrite (@bind_returns _ _ _ _ _ _ _ E4), skip_skip.
  cbv beta. match goal with |- context [bind (pick PATTERNS ?v) _ ?w0] =>
    destruct (pick_returns PATTERNS v w0) as [s5 E5] end.
  rewrite (@bind_returns _ _ _ _ _ _ _ E5), skip_skip.
  cbv beta. match goal with |- context [bind (Array_from 2 bezier) _ ?w0] =>
    destruct (@bezierCurves_returns w0) as (l & El & Hl & Rl) end.
  { now apply unit_range_skip. }
  rewrite (@bind_returns _ _ _ _ _ _ _ El), skip_skip.
  rewrite bind_Math_random, skip_skip.
  unfold bind, randomUUID, Date_now, ret.
  eexists. split.
  { f_equal. unfold after_config, skip.
    cbn [random_source random_calls uuid_source uuid_calls clock_source clock_calls].
    f_equal. unfold draws_needed. fold np. lia. }
  cbn [Logo.id Logo.timestamp Logo.palette skip uuid_source uuid_calls clock_source
       clock_calls].
  split; [reflexivity|]. split; [reflexivity|].
  split; [now rewrite Ep|]. split; [exact Hl|].
  unfold numbers_in_range.
  cbn [Logo.rotation Logo.scale Logo.shapeSize Logo.fontSize Logo.letterSpacing
       Logo.borderRadius Logo.strokeWidth Logo.glowIntensity Logo.innerRotation
       Logo.decorCount Logo.hslShift Logo.bezierCurves].
  repeat match goal with
         | |- within _ _ _ /\ _ => split; [unit_draw Hu|]
         end.
  split.
  { destruct (unit_next_draw (unit_range_skip 9 Hu)) as [H0 H1].
    pose proof (@random_index_bounds _ 8 H0 H1 ltac:(lia)). lia. }
  split; [|exact Rl].
  match goal with |- context [random_index (next_draw ?w0) 360] =>
    assert (Hw : unit_range w0) by now apply unit_range_skip end.
  destruct (unit_next_draw Hw) as [H0 H1].
  pose proof (@random_index_bounds _ 360 H0 H1 ltac:(lia)). lia.
Qed.

(** X1.  Whatever the name and the options, the numbers of a generated
    configuration lie in the closed ranges the source gives them:
    rotation in [0, 360], scale in [0.7, 1.3], shapeSize in [120, 200],
    fontSize in [24, 48], letterSpacing in [-2, 6], borderRadius in
    [0, 50], strokeWidth in [1, 5], glowIntensity in [5, 25],
    innerRotation in [-15, 15], decorCount an integer of 3..10, hslShift
    an integer of 0..359; there are exactly two curves, each offset in
    [-100, 100].  (Every [Math.random] result is in [0, 1).) *)
Theorem generated_numbers_in_range (nm : jsstr) (opts : Options.t) (w : world) :
  unit_range w ->
  exists cfg w',
    generateLogoConfig toUpperCase nm opts w = (Returns cfg, w') /\
    numbers_in_range cfg /\
    List.length (Logo.bezierCurves cfg) = 2%nat.
Proof.
  intros Hu.
  destruct (generateLogoConfig_exact nm opts Hu) as (cfg & E & _ & _ & _ & Hl & Hn).
  exists cfg, (after_config (draws_needed opts) w). auto.
Qed.

(** X2.  One configuration costs exactly one identifier, one reading of
    the clock and [draws_needed] calls of [Math.random], a number that
    depends on the options alone and lies between 20 (six concrete member
    values) and 26 (nothing selected); [id] and [timestamp] are the values
    the two oracles gave. *)
Theorem generation_cost (nm : jsstr) (opts : Options.t) (w : world) :
  unit_range w ->
  exists cfg,
    generateLogoConfig toUpperCase nm opts w
    = (Returns cfg, after_config (draws_needed opts) w) /\
    Logo.id cfg = uuid_source w (uuid_calls w) /\
    Logo.timestamp cfg = clock_source w (clock_calls w) /\
    (20 <= draws_needed opts <= 26)%nat /\
    draws_needed Options.empty = 26%nat.
Proof.
  intros Hu.
  destruct (generateLogoConfig_exact nm opts Hu) as (cfg & E & Hi & Ht & _).
  exists cfg. repeat split; try assumption; apply draws_needed_range.
Qed.

End GeneratorNumbers.

Lemma generated_numbers_in_range_witness :
  exists cfg w',
    generateLogoConfig ascii_toUpperCase (lit "Nova") Options.empty (constant_world (1 # 2))
    = (Returns cfg, w') /\
    numbers_in_range cfg /\
    List.length (Logo.bezierCurves cfg) = 2%nat.
Proof.
  apply (@generated_numbers_in_range ascii_toUpperCase (lit "Nova") Options.empty
           (constant_world (1 # 2))).
  apply unit_range_constant; [discriminate | reflexivity].
Defined.

Lemma generation_cost_witness :
  exists cfg,
    generateLogoConfig ascii_toUpperCase (lit "Nova")
      (Options.mk (Some (lit "ocean")) (Some (lit "star")) None None None None)
      (counting_world (1 # 2))
    = (Returns cfg,
       after_config
         (draws_needed
            (Options.mk (Some (lit "ocean")) (Some (lit "star")) None None None None))
         (counting_world (1 # 2))) /\
    Logo.id cfg = uuid_source (counting_world (1 # 2)) (uuid_calls (counting_world (1 # 2))) /\
    Logo.timestamp cfg
    = clock_source (counting_world (1 # 2)) (clock_calls (counting_world (1 # 2))) /\
    (20 <= draws_needed
             (Options.mk (Some (lit "ocean")) (Some (lit "star")) None None None None)
        <= 26)%nat /\
    draws_needed Options.empty = 26%nat.
Proof.
  apply (@generation_cost ascii_toUpperCase (lit "Nova")
           (Options.mk (Some (lit "ocean")) (Some (lit "star")) None None None None)
           (counting_world (1 # 2))).
  apply unit_range_counting; [discriminate | reflexivity].
Defined.

(** ** The batch of a response *)

Lemma NoDup_map_injective {A B} (f : A -> B) (l : list A) :
  (forall x y, f x = f y -> x = y) -> NoDup l -> NoDup (map f l).
Proof.
  intros Hf H. induction H as [|x l Hx _ IH]; cbn [map]; constructor; [|exact IH].
  intros Hin. apply in_map_iff in Hin as (y & E & Hy).
  apply Hf in E. now subst y.
Qed.

Section Batch.

Import Generate.

Variable toUpperCase : jsstr -> jsstr.
Variable JSON_parse : jsstr -> parsed.
Variable parseInt_exponent : Z -> Z.

Local Abbreviation handler := (Generate.handler toUpperCase JSON_parse parseInt_exponent).
Local Abbreviation batch_size := (Generate.batch_size parseInt_exponent).

(** The identifiers and the timestamps of a batch are the next readings of
    the two oracles, in order. *)
Lemma Array_from_ids (n : nat) (nm : jsstr) (opts : Options.t) (w : world) :
  unit_range w ->
  exists logos w',
    Array_from n (generateLogoConfig toUpperCase nm opts) w = (Returns logos, w') /\
    map Logo.id logos = map (uuid_source w) (seq (uuid_calls w) n) /\
    map Logo.timestamp logos = map (clock_source w) (seq (clock_calls w) n) /\
    Forall numbers_in_range logos.
Proof.
  revert w. induction n as [|n IH]; intros w Hu.
  - exists [], w. repeat split. constructor.
  - destruct (generateLogoConfig_exact toUpperCase nm opts Hu)
      as (cfg & E & Hi & Ht & _ & _ & Hn).
    assert (Hu1 : unit_range (after_config (draws_needed opts) w))
      by (intros k; apply Hu).
    destruct (IH _ Hu1) as (logos & w' & E' & Hids & Hts & Hall).
    exists (cfg :: logos), w'. rewrite Array_from_S.
    rewrite (@bind_returns _ _ _ _ _ _ _ E), (@bind_returns _ _ _ _ _ _ _ E').
    split; [reflexivity|].
    cbn [map seq]. rewrite Hi, Ht, Hids, Hts.
    repeat split. constructor; assumption.
Qed.

(** What a POST with a name does: the batch is generated, and an
    exception on the way is answered 500. *)
Lemma handler_batch (req : request) (b : Body) (s : jsstr) (w : world) :
  method req = lit "POST" ->
  destructure JSON_parse (body req) = Returns b ->
  name b = Some (JString s) ->
  trim s <> [] ->
  handler req w =
  match Array_from (Z.to_nat (batch_size (count b)))
                   (generateLogoConfig toUpperCase (slice0 50 (trim s))
                      (match filters b with Some f => f | None => Options.empty end)) w
  with
  | (Returns logos, w') =>
      (Returns (mkResponse cors 200 (Some (LogosJson logos (slice0 50 (trim s))))), w')
  | (Throws _, w') =>
      (Returns (mkResponse cors 500 (Some (ErrorJson (lit "Internal server error")))), w')
  end.
Proof.
  intros Hm Hb Hn Ht. unfold Generate.handler. rewrite Hm.
  change (str_eqb (lit "POST") (lit "OPTIONS")) with false.
  change (str_eqb (lit "POST") (lit "POST")) with true.
  cbn [negb]. unfold try_catch. unfold bind at 1. unfold lift. rewrite Hb.
  rewrite Hn, name_test_string.
  apply trim_nonempty_length in Ht. rewrite Ht.
  cbn [string_of]. unfold bind.
  destruct (Array_from _ _ w) as [[logos|e] w']; reflexivity.
Qed.

(** X3.  The configurations of one response carry the next identifiers and
    clock readings of the runtime, one each and in order; when the
    identifier source never repeats itself, no two configurations of the
    response share their [id]. *)
Theorem batch_ids_distinct (req : request) (b : Body) (s : jsstr) (w : world) :
  method req = lit "POST" ->
  destructure JSON_parse (body req) = Returns b ->
  name b = Some (JString s) ->
  trim s <> [] ->
  unit_range w ->
  (forall i j, uuid_source w i = uuid_source w j -> i = j) ->
  exists logos w',
    handler req w =
      (Returns (mkResponse cors 200 (Some (LogosJson logos (slice0 50 (trim s))))), w') /\
    map Logo.id logos
    = map (uuid_source w) (seq (uuid_calls w) (Z.to_nat (batch_size (count b)))) /\
    map Logo.timestamp logos
    = map (clock_source w) (seq (clock_calls w) (Z.to_nat (batch_size (count b)))) /\
    NoDup (map Logo.id logos).
Proof.
  intros Hm Hb Hn Ht Hu Hinj.
  rewrite (handler_batch req w Hm Hb Hn Ht).
  destruct (Array_from_ids (Z.to_nat (batch_size (count b))) (slice0 50 (trim s))
              (match filters b with Some f => f | None => Options.empty end) Hu)
    as (logos & w' & E & Hids & Hts & _).
  rewrite E. exists logos, w'. repeat split; try assumption.
  rewrite Hids. apply NoDup_map_injective; [exact Hinj | apply seq_NoDup].
Qed.

End Batch.

Lemma batch_ids_distinct_witness :
  exists logos w',
    Generate.handler ascii_toUpperCase parse_null_only parseInt_1e21
      (post "Nova" (Some 3%Z)) (counting_world (1 # 2)) =
      (Returns (Generate.mkResponse Generate.cors 200
                  (Some (Generate.LogosJson logos (slice0 50 (trim (lit "Nova")))))), w') /\
    map Logo.id logos
    = map (uuid_source (counting_world (1 # 2)))
          (seq (uuid_calls (counting_world (1 # 2)))
               (Z.to_nat (Generate.batch_size parseInt_1e21 (Some 3%Z)))) /\
    map Logo.timestamp logos
    = map (clock_source (counting_world (1 # 2)))
          (seq (clock_calls (counting_world (1 # 2)))
               (Z.to_nat (Generate.batch_size parseInt_1e21 (Some 3%Z)))) /\
    NoDup (map Logo.id logos).
Proof.
  apply (@batch_ids_distinct ascii_toUpperCase parse_null_only parseInt_1e21
           (post "Nova" (Some 3%Z))
           (Generate.mkBody (Some (Generate.JString (lit "Nova"))) (Some 3%Z) None)
           (lit "Nova") (counting_world (1 # 2))).
  - reflexivity.
  - reflexivity.
  - reflexivity.
  - discriminate.
  - apply unit_range_counting; [discriminate | reflexivity].
  - intros i j H. injection H as H. now apply Nat2N.inj.
Defined.

(** ** The answers of /api/generate *)

Ltac answered :=
  eexists _, _; split; [reflexivity|];
  cbn [Generate.headers Generate.status Generate.sent In];
  split; [reflexivity|]; split; [auto 10|];
  split; (split; [ intros H; try discriminate H; try reflexivity; now eexists _, _
                 | intros H; try discriminate H; try reflexivity;
                   destruct H as (l & n & H); discriminate H ]).

Section Answers.

Import Generate.

Variable toUpperCase : jsstr -> jsstr.
Variable JSON_parse : jsstr -> parsed.
Variable parseInt_exponent : Z -> Z.

Local Abbreviation handler := (Generate.handler toUpperCase JSON_parse parseInt_exponent).

(** X4.  Whatever the request and whatever the random source, the
    handler of /api/generate does not throw: it answers once, with the
    three CORS headers and one of the statuses 200, 204, 400, 405 and 500;
    the answer has no body exactly when the status is 204, and holds the
    logos and the name exactly when it is 200. *)
Theorem handler_always_answers (req : request) (w : world) :
  exists r w',
    handler req w = (Returns r, w') /\
    headers r = cors /\
    In (status r) [200; 204; 400; 405; 500]%Z /\
    (sent r = None <-> status r = 204%Z) /\
    (status r = 200%Z <-> exists logos nm, sent r = Some (LogosJson logos nm)).
Proof.
  unfold Generate.handler.
  destruct (str_eqb (method req) (lit "OPTIONS")); [answered|].
  destruct (negb (str_eqb (method req) (lit "POST"))); [answered|].
  unfold try_catch. unfold bind at 1. unfold lift.
  destruct (destructure JSON_parse (body req)) as [b|e]; [|answered].
  destruct (falsy (name b) || negb (typeof_string (name b))
            || Nat.eqb (List.length (trim (string_of (name b)))) 0); [answered|].
  unfold bind.
  destruct (Array_from _ _ w) as [[logos|e] w']; answered.
Qed.

(** X5.  The three forms of the body of a POST: a text that [JSON.parse]
    rejects, or that parses to [null], is answered 500 "Internal server
    error" and nothing is generated; a text that parses to a value is
    handled as that value; a missing body is answered 400, as a body
    without a name is. *)
Theorem body_forms (req : request) (w : world) :
  method req = lit "POST" ->
  (forall s, body req = BodyString s ->
     JSON_parse s = ParseError \/ JSON_parse s = ParsedNull ->
     handler req w
     = (Returns (mkResponse cors 500 (Some (ErrorJson (lit "Internal server error")))), w)) /\
  (forall s b, body req = BodyString s -> JSON_parse s = ParsedValue b ->
     handler req w = handler (mkRequest (lit "POST") (BodyObject b)) w) /\
  (body req = BodyUndefined ->
     handler req w
     = (Returns (mkResponse cors 400 (Some (ErrorJson (lit "A logo name is required.")))), w)).
Proof.
  intros Hm. unfold Generate.handler. rewrite Hm. cbn [method body].
  change (str_eqb (lit "POST") (lit "OPTIONS")) with false.
  change (str_eqb (lit "POST") (lit "POST")) with true.
  cbn [negb]. unfold try_catch. unfold bind at 1 3. unfold lift.
  repeat split.
  - intros s Hb [Hp|Hp]; rewrite Hb; cbn [destructure]; rewrite Hp; reflexivity.
  - intros s b Hb Hp. rewrite Hb. cbn [destructure]. rewrite Hp. reflexivity.
  - intros Hb. rewrite Hb. reflexivity.
Qed.

End Answers.

Lemma body_forms_witness :
  (forall s, Generate.body (Generate.mkRequest (lit "POST") (Generate.BodyString (lit "null")))
             = Generate.BodyString s ->
     parse_null_only s = Generate.ParseError \/ parse_null_only s = Generate.ParsedNull ->
     Generate.handler ascii_toUpperCase parse_null_only parseInt_1e21
       (Generate.mkRequest (lit "POST") (Generate.BodyString (lit "null"))) (constant_world 0)
     = (Returns (Generate.mkResponse Generate.cors 500
                   (Some (Generate.ErrorJson (lit "Internal server error")))),
        constant_world 0)) /\
  (forall s b, Generate.body (Generate.mkRequest (lit "POST") (Generate.BodyString (lit "null")))
               = Generate.BodyString s ->
     parse_null_only s = Generate.ParsedValue b ->
     Generate.handler ascii_toUpperCase parse_null_only parseInt_1e21
       (Generate.mkRequest (lit "POST") (Generate.BodyString (lit "null"))) (constant_world 0)
     = Generate.handler ascii_toUpperCase parse_null_only parseInt_1e21
         (Generate.mkRequest (lit "POST") (Generate.BodyObject b)) (constant_world 0)) /\
  (Generate.body (Generate.mkRequest (lit "POST") (Generate.BodyString (lit "null")))
   = Generate.BodyUndefined ->
     Generate.handler ascii_toUpperCase parse_null_only parseInt_1e21
       (Generate.mkRequest (lit "POST") (Generate.BodyString (lit "null"))) (constant_world 0)
     = (Returns (Generate.mkResponse Generate.cors 400
                   (Some (Generate.ErrorJson (lit "A logo name is required.")))),
        constant_world 0)).
Proof.
  apply (@body_forms ascii_toUpperCase parse_null_only parseInt_1e21
           (Generate.mkRequest (lit "POST") (Generate.BodyString (lit "null")))
           (constant_world 0)).
  reflexivity.
Defined.

(** ** /api/filters and /api/palettes *)

Lemma random_not_member :
  ~ In (lit "random") SHAPE_STYLES /\ ~ In (lit "random") FONT_STYLES /\
  ~ In (lit "random") EFFECTS /\ ~ In (lit "random") LAYOUT_MODES /\
  ~ In (lit "random") PATTERNS.
Proof. repeat split; simpl; intuition discriminate. Qed.

Section Catalogue.

Variable toUpperCase : jsstr -> jsstr.

Lemma kept_fields (nm : jsstr) (opts : Options.t) (w : world) :
  unit_range w ->
  exists cfg w',
    generateLogoConfig toUpperCase nm opts w = (Returns cfg, w') /\
    honours opts cfg.
Proof.
  intros Hu.
  destruct (generateLogoConfig_returns toUpperCase nm opts Hu)
    as (cfg & w' & E & _ & _ & _ & Rp & R1 & R2 & R3 & R4 & R5 & _).
  destruct random_not_member as (N1 & N2 & N3 & N4 & N5).
  exists cfg, w'. split; [exact E|].
  split.
  { intros v Hv Hin. rewrite Hv in Rp. cbn [default_random] in Rp.
    destruct Rp as (c & Hc & _ & Hk & _). rewrite Hc. f_equal. apply Hk; [|exact Hin].
    intros ->. now apply random_not_category. }
  repeat split; intros v Hv Hin;
    match goal with
    | R : resolved ?S _ _ _ ?st |- ?st = _ =>
        rewrite Hv in R; cbn [default_random] in R; apply (proj2 R); [|exact Hin];
        intros ->; contradiction
    end.
Qed.

(** X6.  /api/filters answers data to GET only, and every value it lists
    for a field is a value the generator accepts as it is: requested for
    that field, it is the value stored in the configuration (for a
    palette, its [paletteName]), whatever the name, the other options and
    the draws. *)
Theorem advertised_values_are_kept (req : Generate.request) (c : Filters.catalogue) :
  Filters.sent (Filters.handler req) = Filters.CatalogueJson c ->
  Generate.method req = lit "GET" /\
  Filters.status (Filters.handler req) = 200%Z /\
  (forall v, In v (Filters.palettes c) ->
     kept toUpperCase Options.paletteType (fun cfg => paletteName (Logo.palette cfg)) v) /\
  (forall v, In v (Filters.shapes c) -> kept toUpperCase Options.shapeStyle Logo.shape v) /\
  (forall v, In v (Filters.fonts c) -> kept toUpperCase Options.fontStyle Logo.fontStyle v) /\
  (forall v, In v (Filters.effects c) -> kept toUpperCase Options.effect Logo.effect v) /\
  (forall v, In v (Filters.layouts c) -> kept toUpperCase Options.layoutMode Logo.layout v) /\
  (forall v, In v (Filters.patterns c) -> kept toUpperCase Options.pattern Logo.pattern v).
Proof.
  unfold Filters.handler.
  destruct (str_eqb (Generate.method req) (lit "GET")) eqn:Hm; cbn [negb Filters.sent];
    [|discriminate].
  intros H. injection H as <-. apply str_eqb_eq in Hm.
  split; [exact Hm|]. split; [reflexivity|].
  cbn [Filters.palettes Filters.shapes Filters.fonts Filters.effects Filters.layouts
       Filters.patterns].
  repeat split; intros v Hin nm opts w Hu Hv;
    destruct (kept_fields nm opts Hu) as (cfg & w' & E & K0 & K1 & K2 & K3 & K4 & K5);
    exists cfg, w'; (split; [exact E|]); auto.
Qed.

End Catalogue.

Lemma advertised_values_are_kept_witness :
  Generate.method (Generate.mkRequest (lit "GET") Generate.BodyUndefined) = lit "GET" /\
  Filters.status (Filters.handler (Generate.mkRequest (lit "GET") Generate.BodyUndefined))
  = 200%Z /\
  (forall v, In v (Object_keys COLOR_PALETTES) ->
     kept ascii_toUpperCase Options.paletteType
          (fun cfg => paletteName (Logo.palette cfg)) v) /\
  (forall v, In v SHAPE_STYLES -> kept ascii_toUpperCase Options.shapeStyle Logo.shape v) /\
  (forall v, In v FONT_STYLES -> kept ascii_toUpperCase Options.fontStyle Logo.fontStyle v) /\
  (forall v, In v EFFECTS -> kept ascii_toUpperCase Options.effect Logo.effect v) /\
  (forall v, In v LAYOUT_MODES -> kept ascii_toUpperCase Options.layoutMode Logo.layout v) /\
  (forall v, In v PATTERNS -> kept ascii_toUpperCase Options.pattern Logo.pattern v).
Proof.
  apply (@advertised_values_are_kept ascii_toUpperCase
           (Generate.mkRequest (lit "GET") Generate.BodyUndefined)
           (Filters.mkCatalogue (Object_keys COLOR_PALETTES) SHAPE_STYLES FONT_STYLES
                                EFFECTS LAYOUT_MODES PATTERNS)).
  reflexivity.
Defined.

(** Each entry of the catalogue is found under its key, and has a first
    variant. *)
Lemma catalogue_entry (kv : jsstr * list Palette) :
  In kv COLOR_PALETTES ->
  In (fst kv) (Object_keys COLOR_PALETTES) /\
  Spec.variants (fst kv) = snd kv /\
  exists v, array_get (snd kv) 0%Z = Some v.
Proof.
  intros H. split; [now apply in_map|].
  simpl in H.
  repeat (destruct H as [<-|H]; [split; [reflexivity | eexists; reflexivity]|]).
  contradiction.
Qed.

(** [pickPalette] on a category of the catalogue: one draw, for the
    variant. *)
Lemma pickPalette_member (key : jsstr) (w : world) :
  In key (Object_keys COLOR_PALETTES) ->
  pickPalette key w
  = (Returns (spread_with_paletteName
                (array_get (Spec.variants key) (random_index (next_draw w) 4))
                (Some key)),
     skip 1 w).
Proof.
  intros Hk. unfold pickPalette.
  destruct (str_eqb key (lit "random")) eqn:R.
  { apply str_eqb_eq in R. subst key. now apply random_not_category in Hk. }
  assert (Hp : has_property key = true) by (apply has_property_iff; now left).
  rewrite Hp. unfold bind, ret. rewrite Math_random_run.
  destruct (four_variants Hk) as [Ha Hl].
  unfold get_property. cbn [property_key]. rewrite Ha.
  cbn [get_length get_element option_map]. now rewrite Hl.
Qed.

Section Previews.

Variable toUpperCase : jsstr -> jsstr.

(** X7.  /api/palettes lists the categories /api/filters lists, in the
    same order, and the preview of each is there and is a palette the
    generator makes: it is the first variant of its category, which a
    request for that category gets when the draw for the variant (the
    eleventh of the run) is below 1/4. *)
Theorem palette_previews_reachable (req : Generate.request) (l : list Palettes.info) :
  Palettes.sent (Palettes.handler toUpperCase req) = Palettes.InfoJson l ->
  (exists c, Filters.sent (Filters.handler req) = Filters.CatalogueJson c /\
             Filters.palettes c = map Palettes.key l) /\
  forall i, In i l ->
    exists v,
      Palettes.preview i = Some v /\
      In v (Spec.variants (Palettes.key i)) /\
      forall nm opts w,
        unit_range w ->
        Options.paletteType opts = Some (Palettes.key i) ->
        random_source w (10 + random_calls w) < 1 # 4 ->
        exists cfg w',
          generateLogoConfig toUpperCase nm opts w = (Returns cfg, w') /\
          Logo.palette cfg
          = mkPalette (primary v) (secondary v) (accent v) (bg v) (Some (Palettes.key i)).
Proof.
  unfold Palettes.handler, Filters.handler.
  destruct (str_eqb (Generate.method req) (lit "GET")); cbn [negb Palettes.sent Filters.sent];
    [|discriminate].
  intros H. injection H as <-. split.
  { eexists. split; [reflexivity|]. cbn [Filters.palettes].
    unfold Palettes.entries, Object_keys. rewrite map_map. reflexivity. }
  intros i Hi. apply in_map_iff in Hi as (kv & <- & Hkv).
  cbn [Palettes.preview Palettes.key].
  destruct (catalogue_entry Hkv) as (Hk & Hv & v & Hv0).
  exists v. split; [exact Hv0|]. split.
  { rewrite Hv. now apply array_get_In in Hv0. }
  intros nm opts w Hu Ho Hd.
  destruct (generateLogoConfig_exact toUpperCase nm opts Hu) as (cfg & E & _ & _ & Hp & _).
  exists cfg, (after_config (draws_needed opts) w). split; [exact E|].
  rewrite Ho in Hp. cbn [default_random] in Hp.
  rewrite (pickPalette_member (skip 10 w) Hk) in Hp. cbn [fst] in Hp.
  injection Hp as Hp. rewrite <- Hp.
  assert (Hi0 : random_index (next_draw (skip 10 w)) 4 = 0%Z).
  { apply random_index_interval; [lia|].
    destruct (unit_next_draw (unit_range_skip 10 Hu)) as [H0 _].
    unfold next_draw, skip in *. cbn [random_source random_calls] in *.
    change (inject_Z 0 / inject_Z (Z.of_nat 4)) with (0 / 4).
    change ((inject_Z 0 + 1) / inject_Z (Z.of_nat 4)) with ((0 + 1) / 4).
    split; [apply Qle_trans with 0; [discriminate | exact H0]
           |apply Qlt_le_trans with (1 # 4); [exact Hd | discriminate]]. }
  unfold next_draw, skip in Hi0. cbn [random_source random_calls Nat.add] in Hi0.
  rewrite Hi0, Hv, Hv0. reflexivity.
Qed.

End Previews.

Lemma palette_previews_reachable_witness :
  (exists c, Filters.sent (Filters.handler (Generate.mkRequest (lit "GET") Generate.BodyUndefined))
             = Filters.CatalogueJson c /\
             Filters.palettes c = map Palettes.key (Palettes.entries ascii_toUpperCase)) /\
  forall i, In i (Palettes.entries ascii_toUpperCase) ->
    exists v,
      Palettes.preview i = Some v /\
      In v (Spec.variants (Palettes.key i)) /\
      forall nm opts w,
        unit_range w ->
        Options.paletteType opts = Some (Palettes.key i) ->
        random_source w (10 + random_calls w) < 1 # 4 ->
        exists cfg w',
          generateLogoConfig ascii_toUpperCase nm opts w = (Returns cfg, w') /\
          Logo.palette cfg
          = mkPalette (primary v) (secondary v) (accent v) (bg v) (Some (Palettes.key i)).
Proof.
  apply (@palette_previews_reachable ascii_toUpperCase
           (Generate.mkRequest (lit "GET") Generate.BodyUndefined)
           (Palettes.entries ascii_toUpperCase)).
  reflexivity.
Defined.

(** ** From the application to the logos *)

Lemma trimStart_fixed (c : code_unit) (r : jsstr) :
  is_whitespace c = false -> trimStart (c :: r) = c :: r.
Proof. intros H. simpl. now rewrite H. Qed.

Lemma trimStart_trimStart (s : jsstr) : trimStart (trimStart s) = trimStart s.
Proof.
  destruct (trimStart s) as [|c r] eqn:E; [reflexivity|].
  apply trimStart_fixed. exact (trimStart_head _ E).
Qed.

(** Trimming a trimmed string changes nothing. *)
Lemma trim_trim (s : jsstr) : trim (trim s) = trim s.
Proof.
  unfold trim, trimEnd.
  set (a := trimStart s). set (b := trimStart (rev a)).
  assert (Hb : trimStart (rev b) = rev b).
  { destruct (trimStart_suffix (rev a)) as (q & Hq & _). fold b in Hq.
    assert (Ha : a = rev b ++ rev q)
      by now rewrite <- rev_app_distr, <- Hq, rev_involutive.
    destruct (rev b) as [|c r] eqn:Er; [reflexivity|].
    apply trimStart_fixed. apply (@trimStart_head s c (r ++ rev q)).
    fold a. rewrite Ha. reflexivity. }
  rewrite Hb, rev_involutive. unfold b. now rewrite trimStart_trimStart.
Qed.

Lemma options_offered :
  FilterPanel.PALETTE_OPTS = lit "random" :: Object_keys COLOR_PALETTES /\
  FilterPanel.SHAPE_OPTS = lit "random" :: SHAPE_STYLES /\
  FilterPanel.FONT_OPTS = lit "random" :: FONT_STYLES /\
  FilterPanel.EFFECT_OPTS = lit "random" :: EFFECTS /\
  FilterPanel.LAYOUT_OPTS = lit "random" :: LAYOUT_MODES /\
  FilterPanel.PATTERN_OPTS = lit "random" :: PATTERNS.
Proof. repeat split. Qed.

Section ClientServer.

Import Generate.

Variable toUpperCase : jsstr -> jsstr.
Variable JSON_parse : jsstr -> parsed.
Variable parseInt_exponent : Z -> Z.

Local Abbreviation handler := (Generate.handler toUpperCase JSON_parse parseInt_exponent).
Local Abbreviation batch_size := (Generate.batch_size parseInt_exponent).

Lemma Array_from_honours (n : nat) (nm : jsstr) (opts : Options.t) (w : world) :
  unit_range w ->
  exists logos w',
    Array_from n (generateLogoConfig toUpperCase nm opts) w = (Returns logos, w') /\
    List.length logos = n /\
    Forall (fun cfg => Logo.name cfg = nm /\ Spec.enumerables_closed cfg /\
                       honours opts cfg) logos.
Proof.
  intros Hu.
  destruct (Array_from_generate toUpperCase n nm opts Hu) as (logos & w' & E & _ & Hl & Hall).
  exists logos, w'. split; [exact E|]. split; [exact Hl|].
  clear Hl. revert w logos w' Hu E Hall.
  induction n as [|n IH]; intros w logos w' Hu E Hall.
  - cbn in E. injection E as <- <-. constructor.
  - rewrite Array_from_S in E.
    destruct (kept_fields toUpperCase nm opts Hu) as (cfg & w1 & E1 & K).
    rewrite (@bind_returns _ _ _ _ _ _ _ E1) in E.
    assert (Hu1 : unit_range w1).
    { destruct (generateLogoConfig_returns toUpperCase nm opts Hu)
        as (cfg2 & w2 & E2 & A & _).
      rewrite E1 in E2. injection E2 as _ <-. exact (unit_range_advances A Hu). }
    destruct (Array_from_generate toUpperCase n nm opts Hu1)
      as (rest & w2 & E2 & _ & _ & Hrest).
    rewrite (@bind_returns _ _ _ _ _ _ _ E2) in E. unfold ret in E.
    injection E as <- <-.
    inversion Hall as [|x l [Hn Hc] Hl']; subst.
    constructor; [auto|]. exact (IH w1 rest w2 Hu1 E2 Hrest).
Qed.

(** The options the application sends for a selection of the panel. *)
Local Abbreviation options_of f :=
  (Options.mk (Some (FilterPanel.palette f)) (Some (FilterPanel.shape f))
              (Some (FilterPanel.font f)) (Some (FilterPanel.effect f))
              (Some (FilterPanel.layout f)) (Some (FilterPanel.pattern f))).

Lemma client_served (name : jsstr) (count : Z) (f : FilterPanel.filters) (w : world) :
  trim name <> [] -> unit_range w ->
  exists req logos w',
    Client.generate name count f = Client.Post req /\
    handler req w =
      (Returns (mkResponse cors 200 (Some (LogosJson logos (slice0 50 (trim name))))), w') /\
    List.length logos = Z.to_nat (batch_size (Some count)) /\
    Forall (fun cfg => Logo.name cfg = slice0 50 (trim name) /\
                       Spec.enumerables_closed cfg /\ honours (options_of f) cfg) logos.
Proof.
  intros Ht Hu. unfold Client.generate.
  destruct (trim name) as [|c r] eqn:E; [congruence|]. rewrite <- E in *.
  eexists. 
  assert (Ht' : trim (trim name) <> []) by now rewrite trim_trim.
  destruct (Array_from_honours (Z.to_nat (batch_size (Some count)))
              (slice0 50 (trim name)) (options_of f) Hu) as (logos & w' & Er & Hl & Hall).
  exists logos, w'. split; [reflexivity|].
  rewrite (@handler_batch toUpperCase JSON_parse parseInt_exponent
             (mkRequest (lit "POST")
                (BodyObject (mkBody (Some (JString (trim name))) (Some count)
                                    (Some (options_of f)))))
             (mkBody (Some (JString (trim name))) (Some count) (Some (options_of f)))
             (trim name) w eq_refl eq_refl eq_refl Ht').
  cbn [Generate.count Generate.filters]. rewrite trim_trim, Er. auto.
Qed.

(** X8.  What the application posts is what the server accepts.  For a
    name that is blank after trimming, [generate] posts nothing and shows
    a toast; for any other name it posts a request that /api/generate
    answers 200, never 400: every logo and the response carry the trimmed
    name cut to 50 code units, and for a count of 1..12 (the slider gives
    3..12) there are exactly [count] logos. *)
Theorem client_request_is_served
    (name : jsstr) (count : Z) (f : FilterPanel.filters) (w : world) :
  unit_range w ->
  (trim name = [] ->
     exists msg icon, Client.generate name count f = Client.Toast msg icon) /\
  (trim name <> [] ->
     exists req logos w',
       Client.generate name count f = Client.Post req /\
       handler req w =
         (Returns (mkResponse cors 200 (Some (LogosJson logos (slice0 50 (trim name))))),
          w') /\
       Forall (fun cfg => Logo.name cfg = slice0 50 (trim name)) logos /\
       ((1 <= count <= 12)%Z -> Z.of_nat (List.length logos) = count)).
Proof.
  intros Hu. split.
  - intros Ht. unfold Client.generate. rewrite Ht. now eexists _, _.
  - intros Ht.
    destruct (@client_served name count f w Ht Hu) as (req & logos & w' & Hg & Hh & Hl & Hall).
    exists req, logos, w'. split; [exact Hg|]. split; [exact Hh|]. split.
    + eapply Forall_impl; [|exact Hall]. now intros cfg (Hn & _).
    + intros Hc. rewrite Hl.
      rewrite (@batch_size_clamps parseInt_exponent count) by lia.
      destruct (Z.eqb_spec count 0); [lia|]. unfold Spec.clamp. lia.
Qed.

(** X9.  From the panel to the logos: when every selection is one of the
    options the panel offers, each logo of the answer to the request of
    the application shows the selection -- a field whose selection is not
    "random" holds the selection, under the name the server gives it
    (palette as [paletteName], font as [fontStyle]) -- and every field
    holds a member of its list. *)
Theorem panel_selection_is_honoured
    (name : jsstr) (count : Z) (f : FilterPanel.filters) (w : world) :
  unit_range w -> trim name <> [] -> offered f ->
  exists req logos w',
    Client.generate name count f = Client.Post req /\
    handler req w =
      (Returns (mkResponse cors 200 (Some (LogosJson logos (slice0 50 (trim name))))), w') /\
    Forall (fun cfg => shows_selection f cfg /\ Spec.enumerables_closed cfg) logos.
Proof.
  intros Hu Ht (O0 & O1 & O2 & O3 & O4 & O5).
  destruct (@client_served name count f w Ht Hu) as (req & logos & w' & Hg & Hh & _ & Hall).
  exists req, logos, w'. split; [exact Hg|]. split; [exact Hh|].
  eapply Forall_impl; [|exact Hall].
  intros cfg (_ & Hc & K0 & K1 & K2 & K3 & K4 & K5). split; [|exact Hc].
  unfold shows_selection.
  repeat split; intros Hr;
    match goal with
    | |- paletteName _ = _ => apply K0; [reflexivity|]; destruct O0 as [O|O]
    | |- Logo.shape _ = _ => apply K1; [reflexivity|]; destruct O1 as [O|O]
    | |- Logo.fontStyle _ = _ => apply K2; [reflexivity|]; destruct O2 as [O|O]
    | |- Logo.effect _ = _ => apply K3; [reflexivity|]; destruct O3 as [O|O]
    | |- Logo.layout _ = _ => apply K4; [reflexivity|]; destruct O4 as [O|O]
    | |- Logo.pattern _ = _ => apply K5; [reflexivity|]; destruct O5 as [O|O]
    end; solve [symmetry in O; contradiction | exact O].
Qed.

End ClientServer.

Lemma client_request_is_served_witness :
  (trim (lit "  Nova Labs ") = [] ->
     exists msg icon,
       Client.generate (lit "  Nova Labs ") 6 FilterPanel.DEFAULT_FILTERS
       = Client.Toast msg icon) /\
  (trim (lit "  Nova Labs ") <> [] ->
     exists req logos w',
       Client.generate (lit "  Nova Labs ") 6 FilterPanel.DEFAULT_FILTERS = Client.Post req /\
       Generate.handler ascii_toUpperCase parse_null_only parseInt_1e21 req (constant_world 0) =
         (Returns (Generate.mkResponse Generate.cors 200
                     (Some (Generate.LogosJson logos
                              (slice0 50 (trim (lit "  Nova Labs ")))))), w') /\
       Forall (fun cfg => Logo.name cfg = slice0 50 (trim (lit "  Nova Labs "))) logos /\
       ((1 <= 6 <= 12)%Z -> Z.of_nat (List.length logos) = 6%Z)).
Proof.
  apply (@client_request_is_served ascii_toUpperCase parse_null_only parseInt_1e21
           (lit "  Nova Labs ") 6%Z FilterPanel.DEFAULT_FILTERS (constant_world 0)).
  apply unit_range_constant; [apply Qle_refl | reflexivity].
Defined.

Lemma panel_selection_is_honoured_witness :
  exists req logos w',
    Client.generate (lit "Nova") 3
      (FilterPanel.mkFilters (lit "ocean") (lit "random") (lit "mono") (lit "glass")
                             (lit "random") (lit "dots"))
    = Client.Post req /\
    Generate.handler ascii_toUpperCase parse_null_only parseInt_1e21 req (constant_world 0) =
      (Returns (Generate.mkResponse Generate.cors 200
                  (Some (Generate.LogosJson logos (slice0 50 (trim (lit "Nova")))))), w') /\
    Forall (fun cfg =>
              shows_selection
                (FilterPanel.mkFilters (lit "ocean") (lit "random") (lit "mono") (lit "glass")
                                       (lit "random") (lit "dots")) cfg /\
              Spec.enumerables_closed cfg) logos.
Proof.
  apply (@panel_selection_is_honoured ascii_toUpperCase parse_null_only parseInt_1e21
           (lit "Nova") 3%Z
           (FilterPanel.mkFilters (lit "ocean") (lit "random") (lit "mono") (lit "glass")
                                  (lit "random") (lit "dots"))
           (constant_world 0)).
  - apply unit_range_constant; [apply Qle_refl | reflexivity].
  - discriminate.
  - unfold offered. simpl. tauto.
Defined.

(** ** The exported files *)

Local Abbreviation is_hyphen := (fun c : code_unit => N.eqb c 45%N).

Lemma hyphen_not_whitespace : is_whitespace 45%N = false.
Proof. reflexivity. Qed.

Lemma hyphenate_no_whitespace (b : bool) (s : jsstr) :
  Forall (fun c => is_whitespace c = false) (App.hyphenate b s).
Proof.
  revert b. induction s as [|c r IH]; intros b; simpl; [constructor|].
  destruct (is_whitespace c) eqn:E.
  - destruct b; [apply IH|]. constructor; [reflexivity | apply IH].
  - constructor; [exact E | apply IH].
Qed.

Lemma hyphenate_plain (b : bool) (s : jsstr) :
  Forall (fun c => is_whitespace c = false) s -> App.hyphenate b s = s.
Proof.
  intros H. revert b. induction H as [|c r Hc _ IH]; intros b; simpl; [reflexivity|].
  now rewrite Hc, IH.
Qed.

(** The pieces between hyphens of the stem against the pieces between
    whitespace of the name. *)
Lemma hyphenate_pieces (s : jsstr) :
  Forall (fun c => is_hyphen c = false) s ->
  Spec.words is_hyphen (App.hyphenate true s) = Spec.words is_whitespace s /\
  exists w ws ws',
    Spec.pieces is_hyphen (App.hyphenate false s) = w :: ws /\
    Spec.pieces is_whitespace s = w :: ws' /\
    filter (fun w => match w with [] => false | _ => true end) ws
    = filter (fun w => match w with [] => false | _ => true end) ws'.
Proof.
  unfold Spec.words.
  induction 1 as [|c r Hc _ (IH1 & w & ws & ws' & P1 & P2 & F)].
  - split; [reflexivity|]. now exists [], [], [].
  - cbn [App.hyphenate Spec.pieces]. destruct (is_whitespace c) eqn:E.
    + split; [exact IH1|].
      exists [], (Spec.pieces is_hyphen (App.hyphenate true r)),
             (Spec.pieces is_whitespace r).
      cbn [Spec.pieces]. rewrite N.eqb_refl. auto.
    + cbn [Spec.pieces]. rewrite Hc, P1, P2. cbn [filter]. split.
      * now rewrite F.
      * now exists (c :: w), ws, ws'.
Qed.

Section FileNames.

Variable toUpperCase : jsstr -> jsstr.
Variable toLowerCase : jsstr -> jsstr.
Variable Number_toString : Q -> jsstr.

(** X10.  The names of the exported files.  Both exports name the file by
    the same stem, the name with each run of whitespace replaced by one
    hyphen, then lower-cased, followed by "-logo.svg" or "-logo.png".
    The stem holds no whitespace; it is the name itself when the name
    holds none; and when the name holds no hyphen of its own, the parts
    of the stem between hyphens are the words of the name. *)
Theorem file_name_stem (cfg : Logo.t) :
  App.filename (App.downloadLogoAsSVG toUpperCase toLowerCase Number_toString cfg)
  = toLowerCase (App.hyphenate false (Logo.name cfg)) ++ lit "-logo.svg" /\
  Client.file_name toLowerCase (Logo.name cfg) "png"
  = toLowerCase (App.hyphenate false (Logo.name cfg)) ++ lit "-logo.png" /\
  Forall (fun c => is_whitespace c = false) (App.hyphenate false (Logo.name cfg)) /\
  (Forall (fun c => is_whitespace c = false) (Logo.name cfg) ->
   App.hyphenate false (Logo.name cfg) = Logo.name cfg) /\
  (Forall (fun c => N.eqb c 45%N = false) (Logo.name cfg) ->
   Spec.words (fun c => N.eqb c 45%N) (App.hyphenate false (Logo.name cfg))
   = Spec.words is_whitespace (Logo.name cfg)).
Proof.
  split; [reflexivity|]. split; [reflexivity|].
  split; [apply hyphenate_no_whitespace|]. split; [apply hyphenate_plain|].
  intros H. destruct (hyphenate_pieces H) as (_ & w & ws & ws' & P1 & P2 & F).
  unfold Spec.words. rewrite P1, P2. cbn [filter]. now rewrite F.
Qed.

(** X11.  The font size the vector export writes for the name is
    positive and at most 64, it is 64 for names of up to 8 code units and
    560 / length from 9 on, so that size times length never exceeds 560
    of the 600 units of the view box; the empty name divides by 1, not
    by 0. *)
Theorem svg_font_size (cfg : Logo.t) :
  App.substitute toUpperCase Number_toString cfg App.FontSize
  = Number_toString (App.font_size (Logo.name cfg)) /\
  0 < App.font_size (Logo.name cfg) /\
  App.font_size (Logo.name cfg) <= 64 /\
  App.font_size (Logo.name cfg) * inject_Z (Z.of_nat (List.length (Logo.name cfg))) <= 560 /\
  ((List.length (Logo.name cfg) <= 8)%nat -> App.font_size (Logo.name cfg) == 64) /\
  ((9 <= List.length (Logo.name cfg))%nat ->
   App.font_size (Logo.name cfg)
   == 560 / inject_Z (Z.of_nat (List.length (Logo.name cfg)))).
Proof.
  split; [reflexivity|]. unfold App.font_size.
  set (k := List.length (Logo.name cfg)).
  set (len := inject_Z (Z.of_nat k)).
  assert (Hlen : 0 <= len)
    by (unfold len; change 0 with (inject_Z 0); rewrite <- Zle_Qle; lia).
  set (m := Qmax len 1).
  assert (Hm : 1 <= m /\ len <= m /\ (m == len \/ m == 1)).
  { unfold m. destruct (Q.max_spec len 1) as [[H1 H2]|[H1 H2]]; rewrite H2.
    - split; [lra|]. split; [lra|]. right. reflexivity.
    - split; [lra|]. split; [lra|]. left. reflexivity. }
  destruct Hm as (Hm1 & Hm2 & Hm3).
  set (d := 560 / m).
  assert (Hd : d * m == 560) by (unfold d; field; lra).
  assert (Hd0 : 0 < d) by nra.
  destruct (Q.min_spec 64 d) as [[H1 H2]|[H1 H2]]; rewrite H2.
  - split; [lra|]. split; [lra|]. split; [nra|]. split; [reflexivity|].
    intros Hk. exfalso.
    assert (H9 : 9 <= len)
      by (unfold len; change 9 with (inject_Z 9); rewrite <- Zle_Qle; lia).
    nra.
  - split; [lra|]. split; [lra|]. split; [nra|]. split.
    + intros Hk.
      assert (H8 : len <= 8)
        by (unfold len; change 8 with (inject_Z 8); rewrite <- Zle_Qle; lia).
      nra.
    + intros Hk.
      assert (H9 : 9 <= len)
        by (unfold len; change 9 with (inject_Z 9); rewrite <- Zle_Qle; lia).
      assert (E : m == len) by (destruct Hm3 as [E|E]; [exact E | lra]).
      unfold d. now rewrite E.
Qed.

End FileNames.

(** ** The state stack of a render *)

Section Traces.

Import LogoCanvas Trace.

Lemma depth_app (a b : list command) (d : nat) :
  depth d (a ++ b) = match depth d a with Some d' => depth d' b | None => None end.
Proof.
  revert d. induction a as [|c a IH]; intros d; [reflexivity|].
  destruct c; cbn [app depth]; try apply IH.
  destruct d; [reflexivity | apply IH].
Qed.

Lemma plain_balanced (ops : list command) : plain ops -> balanced ops.
Proof.
  intros H d. induction H as [|c r Hc _ IH]; [reflexivity|].
  destruct c; try discriminate Hc; exact IH.
Qed.

Lemma balanced_app (a b : list command) :
  balanced a -> balanced b -> balanced (a ++ b).
Proof. intros Ha Hb d. now rewrite depth_app, Ha. Qed.

Lemma balanced_flat_map {A} (f : A -> list command) (l : list A) :
  (forall x, balanced (f x)) -> balanced (flat_map f l).
Proof.
  intros H. induction l as [|x l IH]; [intros d; reflexivity|].
  cbn [flat_map]. now apply balanced_app.
Qed.

Lemma plain_flat_map {A} (f : A -> list command) (l : list A) :
  (forall x, plain (f x)) -> plain (flat_map f l).
Proof.
  intros H. induction l as [|x l IH]; [constructor|].
  cbn [flat_map]. apply Forall_app. split; [apply H | exact IH].
Qed.

Lemma plain_map {A} (f : A -> command) (l : list A) :
  (forall x, is_stack_op (f x) = false) -> plain (map f l).
Proof.
  intros H. induction l as [|x l IH]; constructor; [apply H | exact IH].
Qed.

Lemma plain_concat (l : list (list command)) :
  Forall plain l -> plain (concat l).
Proof.
  induction 1 as [|x l Hx _ IH]; [constructor|].
  cbn [concat]. apply Forall_app. now split.
Qed.

End Traces.

Ltac plain_step :=
  match goal with
  | |- Trace.plain (_ :: _) => constructor; [reflexivity|]
  | |- Trace.plain [] => constructor
  | |- Trace.plain (_ ++ _) => apply Forall_app; split
  | |- Trace.plain (flat_map _ _) => apply plain_flat_map; intros
  | |- Trace.plain (map _ _) => apply plain_map; intros
  | |- Trace.plain (if ?c then _ else _) => destruct c
  | |- Forall _ ?l => change (Trace.plain l)
  | |- Trace.is_stack_op (if ?c then _ else _) = false => destruct c; reflexivity
  | |- Trace.is_stack_op _ = false => reflexivity
  | |- Trace.plain _ => progress cbv zeta
  end.

(** The depth after a first part that leaves the stack alone. *)
Ltac skip_plain :=
  rewrite depth_app;
  match goal with
  | |- match Trace.depth ?d ?l with _ => _ end = _ =>
      let H := fresh in
      assert (H : Trace.balanced l) by (apply plain_balanced; repeat plain_step);
      rewrite (H d); clear H
  end.

Section Balance.

Import LogoCanvas Trace.

Variable toUpperCase : jsstr -> jsstr.
Variable Number_toString : Q -> jsstr.
Variable Math_PI : Q.
Variable Math_cos : Q -> Q.
Variable Math_sin : Q -> Q.
Variable shiftHue : jsstr -> Q -> jsstr.
Variable inherited_text : jsvalue -> jsstr.

Lemma polygonPath_plain (cx cy r : Q) (sides : Z) (rotation : Q) :
  plain (polygonPath Math_PI Math_cos Math_sin cx cy r sides rotation).
Proof. unfold polygonPath. repeat plain_step. Qed.

Lemma starPath_plain (cx cy outerR innerR : Q) (points : Z) (rotation : Q) :
  plain (starPath Math_PI Math_cos Math_sin cx cy outerR innerR points rotation).
Proof. unfold starPath. repeat plain_step. Qed.

Lemma buildShape_plain (shape : option jsstr) (cx cy r : Q) :
  plain (buildShape Math_PI Math_cos Math_sin shape cx cy r).
Proof.
  unfold buildShape.
  repeat match goal with
         | |- plain (if ?c then _ else _) => destruct c
         end;
    try apply polygonPath_plain; try apply starPath_plain; repeat plain_step.
Qed.

Lemma drawDecors_plain (cfg : Logo.t) (cx cy r : Q) :
  plain (drawDecors Math_PI Math_cos Math_sin cfg cx cy r).
Proof. unfold drawDecors. repeat plain_step. Qed.

(** What [drawText] saves it restores: its own pair around the whole, one
    pair per character on the arc, one around the diagonal text. *)
Lemma drawText_balanced (cfg : Logo.t) (cx cy r size : Q) :
  balanced (drawText toUpperCase Number_toString Math_PI Math_cos Math_sin
                     inherited_text cfg cx cy r size).
Proof.
  unfold drawText. cbv zeta. intros d.
  cbn [app depth].
  skip_plain.
  skip_plain.
  rewrite depth_app.
  match goal with
  | |- match depth _ ?layout with _ => _ end = _ =>
      assert (Hl : balanced layout)
  end.
  { repeat match goal with
           | |- balanced (if ?c then _ else _) => destruct c
           end;
      try (apply plain_balanced; repeat plain_step; fail).
    - intros e. cbn [depth]. revert e.
      apply balanced_flat_map. intros x e. reflexivity.
    - intros e. reflexivity. }
  rewrite Hl.
  skip_plain.
  reflexivity.
Qed.

Lemma circuits_plain (n : nat) (size : Q) (w : world) :
  exists l, Array_from n (circuit Math_PI size) w = (Returns l, skip (n * 2) w) /\
            Forall plain l.
Proof.
  revert w. induction n as [|n IH]; intros w.
  - exists []. cbn [Array_from Nat.mul]. rewrite skip_0. now split.
  - destruct (IH (skip 2 w)) as (l & Hl & Hp). eexists.
    rewrite Array_from_S.
    rewrite (@bind_returns _ _ _ _ _ _ _ (@circuit_run Math_PI size w)).
    rewrite (@bind_returns _ _ _ _ _ _ _ Hl).
    unfold ret. rewrite skip_skip.
    replace (n * 2 + 2)%nat with (S n * 2)%nat by lia. split; [reflexivity|].
    constructor; [|exact Hp]. unfold node. repeat plain_step.
Qed.

(** The pattern is drawn whatever the pattern name is, and leaves the
    state stack alone. *)
Lemma drawPattern_plain (size : Q) (pattern color : option jsstr) (w : world) :
  exists ops w',
    drawPattern Math_PI Math_cos Math_sin size pattern color w = (Returns ops, w') /\
    plain ops.
Proof.
  unfold drawPattern. cbv zeta.
  destruct (is_lit pattern "dots");
    [eexists _, _; split; [reflexivity | repeat plain_step]|].
  destruct (is_lit pattern "lines");
    [eexists _, _; split; [reflexivity | repeat plain_step]|].
  destruct (is_lit pattern "grid");
    [eexists _, _; split; [reflexivity | repeat plain_step]|].
  destruct (is_lit pattern "triangles");
    [eexists _, _; split; [reflexivity | repeat plain_step]|].
  destruct (is_lit pattern "hexagons").
  { eexists _, _; split; [reflexivity | repeat plain_step].
    apply polygonPath_plain. }
  destruct (is_lit pattern "waves");
    [eexists _, _; split; [reflexivity | repeat plain_step]|].
  destruct (is_lit pattern "circuits");
    [|eexists _, _; split; [reflexivity | repeat plain_step]].
  destruct (circuits_plain 10 size w) as (l & Hl & Hp).
  unfold bind at 1. unfold bind at 1. rewrite Hl. unfold ret.
  eexists _, _. split; [reflexivity|]. repeat plain_step.
  now apply plain_concat.
Qed.

(** X12.  A render keeps the state stack of the context as it found it.
    At a size that is not negative, for a configuration whose palette is
    a variant of the catalogue (its colours are "#RRGGBB" texts, which
    the canvas parses) and whose [borderRadius] is not negative,
    [drawLogo] returns whatever the shape, effect, layout and pattern
    names are, its first operation clears the surface, every [save] is
    followed by its [restore] and no [restore] comes without a [save]
    before it. *)
Theorem drawLogo_balanced (cfg : Logo.t) (size : Q) (w : world) :
  0 <= size ->
  0 <= Logo.borderRadius cfg ->
  Spec.drawn_from_own_category (Logo.palette cfg) ->
  exists ops w',
    drawLogo toUpperCase Number_toString Math_PI Math_cos Math_sin shiftHue
             inherited_text true cfg size w = (Returns ops, w') /\
    hd_error ops = Some (ClearRect 0 0 size size) /\
    depth 0 ops = Some 0%nat.
Proof.
  intros _ _ (k & v & _ & Hk & Hv & _ & _ & _ & Hb).
  destruct (@variant_colours k v Hk Hv) as (p & s & a & b & _ & _ & _ & Hb').
  rewrite Hb' in Hb.
  unfold drawLogo. cbn [negb]. cbv zeta. rewrite Hb.
  destruct (drawPattern_plain size (Logo.pattern cfg) (primary (Logo.palette cfg)) w)
    as (overlay & w' & Ho & Hp).
  unfold bind at 1. unfold ret at 1.
  rewrite (@bind_returns _ _ _ _ _ _ _ Ho). unfold ret.
  eexists _, _. split; [reflexivity|]. split; [reflexivity|].
  cbn [app depth].
  rewrite depth_app, (plain_balanced Hp).
  rewrite depth_app.
  match goal with
  | |- match depth _ ?glow with _ => _ end = _ => assert (Hg : balanced glow)
  end.
  { destruct (_ || _); [|intros d; reflexivity].
    intros d. cbn [app depth].
    rewrite depth_app, (plain_balanced (buildShape_plain _ _ _ _)). reflexivity. }
  rewrite Hg.
  rewrite depth_app, (plain_balanced (buildShape_plain _ _ _ _)).
  cbn [app depth].
  skip_plain.
  cbn [app depth].
  rewrite depth_app, (plain_balanced (buildShape_plain _ _ _ _)).
  cbn [app depth].
  rewrite depth_app, (plain_balanced (drawDecors_plain _ _ _ _)).
  apply drawText_balanced.
Qed.

End Balance.

Lemma drawLogo_balanced_witness :
  exists ops w',
    sample_drawLogo (example_logo "dots") 100 cycling_world = (Returns ops, w') /\
    hd_error ops = Some (LogoCanvas.ClearRect 0 0 100 100) /\
    Trace.depth 0 ops = Some 0%nat.
Proof.
  apply (@drawLogo_balanced ascii_toUpperCase App.integer_toString sample_PI sample_cos
           sample_sin sample_shiftHue sample_inherited_text (example_logo "dots") 100
           cycling_world).
  - discriminate.
  - discriminate.
  - exists (lit "neon"), (swatch "#39FF14" "#FF073A" "#00FFFF" "#0D0D0D").
    repeat split; simpl; auto.
Defined.

(** ** Decorations and patterns *)

Lemma flat_map_flat_map {A B C} (g : B -> list C) (f : A -> list B) (l : list A) :
  flat_map g (flat_map f l) = flat_map (fun x => flat_map g (f x)) l.
Proof.
  induction l as [|x l IH]; [reflexivity|].
  cbn [flat_map]. now rewrite flat_map_app, IH.
Qed.

Lemma flat_map_nil {A B} (f : A -> list B) (l : list A) :
  (forall x, f x = []) -> flat_map f l = [].
Proof.
  intros H. induction l as [|x l IH]; [reflexivity|].
  cbn [flat_map]. now rewrite H, IH.
Qed.

Lemma flat_map_singleton {A B} (f : A -> list B) (h : A -> B) (l : list A) :
  (forall x, f x = [h x]) -> flat_map f l = map h l.
Proof.
  intros H. induction l as [|x l IH]; [reflexivity|].
  cbn [flat_map map]. now rewrite H, IH.
Qed.

Lemma flat_map_length_1 {A B} (f : A -> list B) (l : list A) :
  (forall x, List.length (f x) = 1%nat) -> List.length (flat_map f l) = List.length l.
Proof.
  intros H. induction l as [|x l IH]; [reflexivity|].
  cbn [flat_map]. rewrite length_app, H, IH. reflexivity.
Qed.

Lemma filter_flat_map {A B} (p : B -> bool) (f : A -> list B) (l : list A) :
  filter p (flat_map f l) = flat_map (fun x => filter p (f x)) l.
Proof.
  induction l as [|x l IH]; [reflexivity|].
  cbn [flat_map]. now rewrite filter_app, IH.
Qed.

Lemma indices_length (n : Z) : List.length (LogoCanvas.indices n) = Z.to_nat n.
Proof. unfold LogoCanvas.indices. now rewrite length_map, length_seq. Qed.

(** The curve at index [k] is stroked or skipped. *)
Lemma curve_alpha (k : nat) :
  Qle_bool (0.2 - inject_Z (Z.of_nat k) * 0.05) 0 = (4 <=? k)%nat.
Proof.
  destruct (4 <=? k)%nat eqn:E.
  - apply Nat.leb_le in E. apply Qle_bool_iff.
    assert (H : 4 <= inject_Z (Z.of_nat k))
      by (change 4 with (inject_Z 4); rewrite <- Zle_Qle; lia).
    lra.
  - apply Nat.leb_gt in E.
    destruct (Qle_bool _ 0) eqn:Q; [|reflexivity].
    apply Qle_bool_iff in Q.
    assert (H : inject_Z (Z.of_nat k) <= 3)
      by (change 3 with (inject_Z 3); rewrite <- Zle_Qle; lia).
    lra.
Qed.

Section Decors.

Import LogoCanvas Trace.

Variable Math_PI : Q.
Variable Math_cos : Q -> Q.
Variable Math_sin : Q -> Q.

Lemma curves_counted (h : Z * Bezier -> list command) (l : list Bezier) (k : nat) :
  (forall i bc, (i < 4)%nat -> List.length (h (Z.of_nat i, bc)) = 1%nat) ->
  (forall i bc, (4 <= i)%nat -> h (Z.of_nat i, bc) = []) ->
  List.length (flat_map h (combine (map Z.of_nat (seq k (List.length l))) l))
  = (Nat.min (k + List.length l) 4 - Nat.min k 4)%nat.
Proof.
  intros H1 H0. revert k. induction l as [|bc l IH]; intros k.
  - cbn [List.length seq map combine flat_map]. lia.
  - cbn [List.length seq map combine flat_map]. rewrite length_app, IH.
    destruct (Nat.lt_ge_cases k 4) as [Hk|Hk].
    + rewrite (H1 k bc Hk). lia.
    + rewrite (H0 k bc Hk). cbn [List.length]. lia.
Qed.

Lemma decors_counted (cfg : Logo.t) (cx cy r : Q) :
  List.length (arc_centres (drawDecors Math_PI Math_cos Math_sin cfg cx cy r))
  = Z.to_nat (Logo.decorCount cfg) /\
  bezier_count (drawDecors Math_PI Math_cos Math_sin cfg cx cy r)
  = Nat.min (List.length (Logo.bezierCurves cfg)) 4.
Proof.
  unfold drawDecors, arc_centres, bezier_count. cbv zeta. split.
  - rewrite flat_map_app, length_app, !flat_map_flat_map.
    rewrite (@flat_map_nil _ _ _ (with_index (Logo.bezierCurves cfg))).
    + cbn [flat_map app].
      rewrite flat_map_length_1; [|intros i; reflexivity].
      rewrite indices_length. cbn [List.length]. lia.
    + intros [i bc]. cbn [fst snd]. destruct (Qle_bool _ 0); reflexivity.
  - rewrite filter_app, length_app, !filter_flat_map.
    rewrite (@flat_map_nil _ _ _ (indices (Logo.decorCount cfg))); [|intros i; reflexivity].
    cbn [List.length Nat.add]. unfold with_index, indices.
    rewrite Nat2Z.id.
    rewrite curves_counted.
    + cbn [Nat.min Nat.add]. lia.
    + intros i bc Hi. cbn [fst snd]. rewrite curve_alpha.
      apply Nat.leb_gt in Hi. rewrite Hi. reflexivity.
    + intros i bc Hi. cbn [fst snd]. rewrite curve_alpha.
      apply Nat.leb_le in Hi. rewrite Hi. reflexivity.
Qed.

Variable toUpperCase : jsstr -> jsstr.

(** X13.  The decorations of a render.  [drawDecors] draws one dot per
    unit of [decorCount] and strokes the curves of [bezierCurves] up to
    the fourth: from the fifth on the opacity 0.2 - 0.05 i is not
    positive and the curve is skipped.  For a configuration the generator
    made this is between 3 and 10 dots and exactly two curves. *)
Theorem decors_drawn :
  (forall cfg cx cy r,
     List.length (arc_centres (drawDecors Math_PI Math_cos Math_sin cfg cx cy r))
     = Z.to_nat (Logo.decorCount cfg) /\
     bezier_count (drawDecors Math_PI Math_cos Math_sin cfg cx cy r)
     = Nat.min (List.length (Logo.bezierCurves cfg)) 4) /\
  (forall nm opts w cx cy r,
     unit_range w ->
     exists cfg w',
       generateLogoConfig toUpperCase nm opts w = (Returns cfg, w') /\
       (3 <= List.length (arc_centres (drawDecors Math_PI Math_cos Math_sin cfg cx cy r))
        <= 10)%nat /\
       bezier_count (drawDecors Math_PI Math_cos Math_sin cfg cx cy r) = 2%nat).
Proof.
  split; [exact decors_counted|].
  intros nm opts w cx cy r Hu.
  destruct (generateLogoConfig_exact toUpperCase nm opts Hu)
    as (cfg & E & _ & _ & _ & Hl & Hn).
  exists cfg, (after_config (draws_needed opts) w). split; [exact E|].
  destruct (decors_counted cfg cx cy r) as [-> ->].
  destruct Hn as (_ & _ & _ & _ & _ & _ & _ & _ & _ & Hd & _).
  rewrite Hl. split; [lia | reflexivity].
Qed.

(** The values of a counting loop lie between 0 and the limit. *)
Lemma steps_bounds (limit step v : Q) :
  0 < step -> In v (steps limit step) -> 0 <= v /\ v < limit.
Proof.
  intros Hs Hin. unfold steps in Hin.
  apply in_map_iff in Hin as (i & <- & Hi). apply in_seq in Hi.
  assert (H0 : 0 <= inject_Z (Z.of_nat i))
    by (change 0 with (inject_Z 0); rewrite <- Zle_Qle; lia).
  split; [nra|].
  set (d := limit / step) in *.
  assert (Hd : d * step == limit) by (unfold d; field; lra).
  assert (Hc : inject_Z (Z.of_nat i) <= inject_Z (Qceiling d - 1))
    by (rewrite <- Zle_Qle; lia).
  pose proof (Qceiling_lt d) as Hlt.
  nra.
Qed.

(** X14.  The [dots] pattern is drawn without a call of [Math.random]; it
    has one dot for each pair of grid values 0, 20, 40, ... below the
    size, that is the square of the ceiling of size / 20 dots, and every
    dot is centred inside the square of the surface: 0 <= x < size and
    0 <= y < size. *)
Theorem dots_pattern (size : Q) (color : option jsstr) (w : world) :
  exists ops,
    drawPattern Math_PI Math_cos Math_sin size (Some (lit "dots")) color w
    = (Returns ops, w) /\
    List.length (arc_centres ops)
    = (Z.to_nat (Qceiling (size / 20)) * Z.to_nat (Qceiling (size / 20)))%nat /\
    Forall (fun c => (0 <= fst c /\ fst c < size) /\ (0 <= snd c /\ snd c < size))
           (arc_centres ops).
Proof.
  unfold drawPattern. cbv zeta.
  change (is_lit (Some (lit "dots")) "dots") with true. cbv iota.
  unfold bind, ret. eexists. split; [reflexivity|].
  unfold arc_centres. rewrite !flat_map_app. cbn [flat_map app].
  rewrite app_nil_r, !flat_map_flat_map.
  assert (E : forall l x,
            flat_map (fun c : command => match c with Arc x0 y _ _ _ => [(x0, y)] | _ => [] end)
              (flat_map (fun y : Q =>
                 [BeginPath; Arc x y 1.5 0 (Math_PI * 2); SetFillStyle (Css color); Fill]) l)
            = map (fun y => (x, y)) l).
  { intros l x. rewrite flat_map_flat_map. apply flat_map_singleton. reflexivity. }
  split.
  - set (S := steps size 20).
    assert (Hn : List.length S = Z.to_nat (Qceiling (size / 20)))
      by (unfold S, steps; now rewrite length_map, length_seq).
    rewrite <- Hn. clearbody S. clear Hn.
    induction S as [|x S' IH] at 2 3; [reflexivity|].
    cbn [flat_map List.length]. rewrite length_app, E, length_map, IH. reflexivity.
  - apply Forall_forall. intros [x y] Hin.
    apply in_flat_map in Hin as (x' & Hx & Hin). rewrite E in Hin.
    apply in_map_iff in Hin as (y' & [= <- <-] & Hy). cbn [fst snd].
    split; apply (@steps_bounds size 20); try reflexivity; assumption.
Qed.

End Decors.

(** ** The texts of the two renderers *)

Lemma map_snd_combine {A B} (a : list A) (b : list B) :
  List.length a = List.length b -> map snd (combine a b) = b.
Proof.
  revert b. induction a as [|x a IH]; intros [|y b] H; try discriminate H;
    [reflexivity|].
  cbn [combine map snd]. f_equal. apply IH. now injection H.
Qed.

Lemma with_index_values {A} (l : list A) : map snd (LogoCanvas.with_index l) = l.
Proof.
  unfold LogoCanvas.with_index. apply map_snd_combine.
  now rewrite indices_length, Nat2Z.id.
Qed.

(** A loop over the elements that fills one text per element. *)
Lemma texts_of_each {A} (f : Z * A -> list LogoCanvas.command) (h : A -> jsstr)
    (l : list A) :
  (forall ic, Trace.filled_texts (f ic) = [h (snd ic)]) ->
  Trace.filled_texts (flat_map f (LogoCanvas.with_index l)) = map h l.
Proof.
  intros H. unfold Trace.filled_texts in *. rewrite flat_map_flat_map.
  rewrite (flat_map_singleton _ (fun ic => h (snd ic))) by exact H.
  now rewrite <- map_map, with_index_values.
Qed.

(** The middle of the [split] layout. *)
Lemma ceiling_half (n : nat) :
  Z.to_nat (Qceiling (inject_Z (Z.of_nat n) / 2)) = ((n + 1) / 2)%nat.
Proof.
  unfold Qceiling, Qfloor, Qdiv, Qmult, Qinv, Qopp, inject_Z.
  cbn [Qnum Qden]. 
  rewrite Z.mul_1_r. change (Z.pos (1 * 2)) with 2%Z.
  rewrite <- (Nat2Z.id ((n + 1) / 2)). f_equal.
  rewrite Nat2Z.inj_div. 
  replace (Z.of_nat (n + 1)) with (Z.of_nat n + 1)%Z by lia.
  change (Z.of_nat 2) with 2%Z. Z.div_mod_to_equations. lia.
Qed.

Section Texts.

Import LogoCanvas Trace.

Variable toUpperCase : jsstr -> jsstr.
Variable Number_toString : Q -> jsstr.
Variable Math_PI : Q.
Variable Math_cos : Q -> Q.
Variable Math_sin : Q -> Q.
Variable inherited_text : jsvalue -> jsstr.

Local Abbreviation drawText :=
  (LogoCanvas.drawText toUpperCase Number_toString Math_PI Math_cos Math_sin inherited_text).

Lemma filled_texts_app (a b : list command) :
  filled_texts (a ++ b) = filled_texts a ++ filled_texts b.
Proof. apply flat_map_app. Qed.

Lemma stroked_texts_app (a b : list command) :
  stroked_texts (a ++ b) = stroked_texts a ++ stroked_texts b.
Proof. apply flat_map_app. Qed.

Ltac effect_cases cfg :=
  destruct (is_lit (Logo.effect cfg) "glow" || is_lit (Logo.effect cfg) "neon");
  destruct (is_lit (Logo.effect cfg) "shadow");
  destruct (is_lit (Logo.effect cfg) "gradient" || is_lit (Logo.effect cfg) "metallic");
  destruct (is_lit (Logo.effect cfg) "outline" || is_lit (Logo.effect cfg) "emboss").

Ltac decide_lit :=
  repeat match goal with
         | |- context [is_lit (Some (lit ?a)) ?b] =>
             let v := eval vm_compute in (is_lit (Some (lit a)) b) in
             change (is_lit (Some (lit a)) b) with v
         end.

(** X15.  The texts of a render, by layout.  [monogram] fills the
    initials and nothing else; [stacked] one line per piece of the name
    between spaces, upper-cased; [circular] each code unit of the
    upper-cased name, in order; [diagonal] the upper-cased name; [split]
    the two halves of the name, the first the longer when the length is
    odd, each upper-cased; every other layout value the upper-cased name
    and the tagline "BRAND".  The upper-cased name is stroked on top
    exactly when the effect is [outline] or [emboss], in every layout,
    [monogram] included. *)
Theorem texts_drawn (cfg : Logo.t) (cx cy r size : Q) :
  (Logo.layout cfg = Some (lit "monogram") ->
   filled_texts (drawText cfg cx cy r size) = [Logo.initials cfg]) /\
  (Logo.layout cfg = Some (lit "stacked") ->
   filled_texts (drawText cfg cx cy r size)
   = map toUpperCase (split SPACE (Logo.name cfg))) /\
  (Logo.layout cfg = Some (lit "circular") ->
   filled_texts (drawText cfg cx cy r size)
   = map (fun c => [c]) (toUpperCase (Logo.name cfg))) /\
  (Logo.layout cfg = Some (lit "diagonal") ->
   filled_texts (drawText cfg cx cy r size) = [toUpperCase (Logo.name cfg)]) /\
  (Logo.layout cfg = Some (lit "split") ->
   filled_texts (drawText cfg cx cy r size)
   = [ toUpperCase (firstn ((List.length (Logo.name cfg) + 1) / 2) (Logo.name cfg));
       toUpperCase (skipn ((List.length (Logo.name cfg) + 1) / 2) (Logo.name cfg)) ]) /\
  (is_lit (Logo.layout cfg) "monogram" = false ->
   is_lit (Logo.layout cfg) "stacked" = false ->
   is_lit (Logo.layout cfg) "circular" = false ->
   is_lit (Logo.layout cfg) "diagonal" = false ->
   is_lit (Logo.layout cfg) "split" = false ->
   filled_texts (drawText cfg cx cy r size)
   = [toUpperCase (Logo.name cfg); lit "BRAND"]) /\
  stroked_texts (drawText cfg cx cy r size)
  = if is_lit (Logo.effect cfg) "outline" || is_lit (Logo.effect cfg) "emboss"
    then [toUpperCase (Logo.name cfg)] else [].
Proof.
  unfold LogoCanvas.drawText. cbv zeta.
  repeat split.
  - intros H. rewrite H. decide_lit. cbv iota.
    rewrite !filled_texts_app. effect_cases cfg; reflexivity.
  - intros H. rewrite H. decide_lit. cbv iota.
    rewrite !filled_texts_app.
    rewrite (texts_of_each _ toUpperCase) by reflexivity.
    effect_cases cfg; cbn [filled_texts flat_map app]; now rewrite ?app_nil_r.
  - intros H. rewrite H. decide_lit. cbv iota.
    rewrite !filled_texts_app.
    rewrite (texts_of_each _ (fun c => [c])) by reflexivity.
    effect_cases cfg; cbn [filled_texts flat_map app]; now rewrite ?app_nil_r.
  - intros H. rewrite H. decide_lit. cbv iota.
    rewrite !filled_texts_app. effect_cases cfg; reflexivity.
  - intros H. rewrite H. decide_lit. cbv iota.
    rewrite !filled_texts_app, ceiling_half. effect_cases cfg; reflexivity.
  - intros H1 H2 H3 H4 H5. rewrite H1, H2, H3, H4, H5.
    rewrite !filled_texts_app. effect_cases cfg; reflexivity.
  - rewrite !stroked_texts_app.
    match goal with
    | |- _ ++ _ ++ _ ++ stroked_texts ?layout ++ _ = _ =>
        assert (Hl : stroked_texts layout = [])
    end.
    { repeat match goal with
             | |- stroked_texts (if ?c then _ else _) = [] => destruct c
             end; try reflexivity.
      - unfold stroked_texts. rewrite flat_map_flat_map. now apply flat_map_nil.
      - unfold stroked_texts. cbn [flat_map app].
        rewrite flat_map_flat_map. now apply flat_map_nil. }
    rewrite Hl. effect_cases cfg; reflexivity.
Qed.

(** The label of the 3D scene is never empty outside the monogram layout:
    the upper-cased name, else the name, else "LOGO". *)
Lemma displayText_fallbacks (cfg : Logo.t) :
  is_lit (Logo.layout cfg) "monogram" = false ->
  Logo3D.displayText toUpperCase cfg <> [] /\
  (toUpperCase (Logo.name cfg) <> [] ->
   Logo3D.displayText toUpperCase cfg = toUpperCase (Logo.name cfg)).
Proof.
  intros H. unfold Logo3D.displayText. rewrite H. unfold or_default, or_else.
  destruct (toUpperCase (Logo.name cfg)) as [|c u].
  - split; [|congruence]. destruct (Logo.name cfg); discriminate.
  - split; [discriminate | reflexivity].
Qed.

Hypothesis upper_nonempty : forall c, toUpperCase [c] <> [].

(** X16.  The label of the 3D scene for a generated configuration is never
    the empty string.  In the monogram layout it is the initials, the
    very text the 2D renderer fills; in any other layout it is the
    upper-cased name (when that is not empty).  ([toUpperCase] maps no
    single code unit to the empty string.) *)
Theorem label_3d_not_empty
    (nm : jsstr) (opts : Options.t) (w : world) (cx cy r size : Q) :
  unit_range w ->
  exists cfg w',
    generateLogoConfig toUpperCase nm opts w = (Returns cfg, w') /\
    Logo3D.displayText toUpperCase cfg <> [] /\
    (Logo.layout cfg = Some (lit "monogram") ->
     Logo3D.displayText toUpperCase cfg = compute_initials toUpperCase nm /\
     filled_texts (drawText cfg cx cy r size) = [Logo3D.displayText toUpperCase cfg]) /\
    (Logo.layout cfg <> Some (lit "monogram") -> toUpperCase nm <> [] ->
     Logo3D.displayText toUpperCase cfg = toUpperCase nm).
Proof.
  intros Hu.
  destruct (generateLogoConfig_returns toUpperCase nm opts Hu)
    as (cfg & w' & E & _ & Hn & Hi & _).
  exists cfg, w'. split; [exact E|].
  assert (Hm : Logo.layout cfg = Some (lit "monogram") ->
               Logo3D.displayText toUpperCase cfg = compute_initials toUpperCase nm).
  { intros H. unfold Logo3D.displayText. rewrite H. decide_lit. exact Hi. }
  assert (Ho : Logo.layout cfg <> Some (lit "monogram") ->
               is_lit (Logo.layout cfg) "monogram" = false).
  { intros H. unfold is_lit. destruct (Logo.layout cfg) as [x|]; [|reflexivity].
    apply str_eqb_neq. congruence. }
  split; [|split; [|]].
  - destruct (is_lit (Logo.layout cfg) "monogram") eqn:L.
    + unfold is_lit in L. destruct (Logo.layout cfg) as [x|] eqn:Lx; [|discriminate].
      apply str_eqb_eq in L. subst x. rewrite (Hm eq_refl).
      rewrite (@compute_initials_on_spaces toUpperCase upper_nonempty nm).
      apply (@initials_nonempty toUpperCase upper_nonempty nm).
    + now apply displayText_fallbacks.
  - intros H. split; [now apply Hm|].
    rewrite (Hm H), <- Hi. unfold LogoCanvas.drawText. cbv zeta. rewrite H.
    decide_lit. cbv iota. rewrite !filled_texts_app. effect_cases cfg; reflexivity.
  - intros H Hne. rewrite <- Hn in *. now apply displayText_fallbacks; [apply Ho|].
Qed.

End Texts.

Lemma label_3d_not_empty_witness :
  exists cfg w',
    generateLogoConfig ascii_toUpperCase (lit "Nova Labs")
      (Options.mk None None None None (Some (lit "monogram")) None) (constant_world 0)
    = (Returns cfg, w') /\
    Logo3D.displayText ascii_toUpperCase cfg <> [] /\
    (Logo.layout cfg = Some (lit "monogram") ->
     Logo3D.displayText ascii_toUpperCase cfg
     = compute_initials ascii_toUpperCase (lit "Nova Labs") /\
     Trace.filled_texts
       (LogoCanvas.drawText ascii_toUpperCase App.integer_toString sample_PI sample_cos
          sample_sin sample_inherited_text cfg 300 300 204 600)
     = [Logo3D.displayText ascii_toUpperCase cfg]) /\
    (Logo.layout cfg <> Some (lit "monogram") ->
     ascii_toUpperCase (lit "Nova Labs") <> [] ->
     Logo3D.displayText ascii_toUpperCase cfg = ascii_toUpperCase (lit "Nova Labs")).
Proof.
  apply (@label_3d_not_empty ascii_toUpperCase App.integer_toString sample_PI sample_cos
           sample_sin sample_inherited_text
           ltac:(intros c; discriminate)
           (lit "Nova Labs") (Options.mk None None None None (Some (lit "monogram")) None)
           (constant_world 0) 300 300 204 600).
  apply unit_range_constant; [apply Qle_refl | reflexivity].
Defined.

(** ** From the generator to the renderer *)

(** A name inherited from [Object.prototype] passes the [in] test; what is
    found under it has no element, so the palette gets no colour. *)
Lemma pickPalette_inherited (t : jsstr) (w : world) :
  Spec.inherited t ->
  pickPalette t w = (Returns (mkPalette None None None None (Some t)), skip 1 w).
Proof.
  unfold Spec.inherited. cbn [Object_keys Object_prototype map fst In].
  intros H.
  repeat (destruct H as [<-|H]; [reflexivity|]).
  contradiction.
Qed.

Section GeneratedRenders.

Import LogoCanvas.

Variable toUpperCase : jsstr -> jsstr.
Variable Number_toString : Q -> jsstr.
Variable Math_PI : Q.
Variable Math_cos : Q -> Q.
Variable Math_sin : Q -> Q.
Variable shiftHue : jsstr -> Q -> jsstr.
Variable inherited_text : jsvalue -> jsstr.

Local Abbreviation drawLogo :=
  (LogoCanvas.drawLogo toUpperCase Number_toString Math_PI Math_cos Math_sin
                       shiftHue inherited_text).

(** X17.  From the generator to the renderer, at a size that is not
    negative.  A configuration generated with [paletteType] absent,
    "random", a category or any name that [Object.prototype] does not
    give renders: [drawLogo] returns, in any state of the random source
    (its palette is a variant of the catalogue and its [borderRadius] is
    within [0, 50]).  A configuration generated with one of the names
    [Object.prototype] gives ("constructor", "toString", "__proto__",
    ...) has no [bg] colour, and rendering it throws a TypeError. *)
Theorem generated_logo_renders
    (nm : jsstr) (opts : Options.t) (w : world) (size : Q) (w2 : world) :
  unit_range w ->
  0 <= size ->
  exists cfg w',
    generateLogoConfig toUpperCase nm opts w = (Returns cfg, w') /\
    (Options.paletteType opts = None \/
       ~ Spec.inherited (default_random (Options.paletteType opts)) ->
     Spec.drawn_from_own_category (Logo.palette cfg) /\
     0 <= Logo.borderRadius cfg /\
     exists ops w3, drawLogo true cfg size w2 = (Returns ops, w3)) /\
    (Spec.inherited (default_random (Options.paletteType opts)) ->
     bg (Logo.palette cfg) = None /\
     fst (drawLogo true cfg size w2) = Throws TypeError).
Proof.
  intros Hu _.
  destruct (generateLogoConfig_exact toUpperCase nm opts Hu)
    as (cfg & E & _ & _ & Hp & _ & Hn).
  exists cfg, (after_config (draws_needed opts) w). split; [exact E|]. split.
  - intros Hc.
    destruct (generateLogoConfig_complete toUpperCase nm opts Hu Hc)
      as (cfg2 & w2' & E2 & _ & _ & _ & _ & Hown & (c & s & a & b & _ & _ & _ & Hb) & _).
    rewrite E in E2. injection E2 as <- _.
    split; [exact Hown|].
    split; [exact (proj1 (proj1 (proj2 (proj2 (proj2 (proj2 (proj2 Hn)))))))|].
    unfold LogoCanvas.drawLogo. cbn [negb]. cbv zeta. rewrite Hb.
    destruct (drawPattern_plain Math_PI Math_cos Math_sin size (Logo.pattern cfg)
                (primary (Logo.palette cfg)) w2) as (overlay & w3 & Ho & _).
    unfold bind at 1. unfold ret at 1.
    rewrite (@bind_returns _ _ _ _ _ _ _ Ho). unfold ret. now eexists _, _.
  - intros Hi. rewrite (pickPalette_inherited (skip 10 w) Hi) in Hp.
    cbn [fst] in Hp. injection Hp as Hp.
    assert (Hb : bg (Logo.palette cfg) = None) by now rewrite <- Hp.
    split; [exact Hb|].
    unfold LogoCanvas.drawLogo. cbn [negb]. cbv zeta. now rewrite Hb.
Qed.

End GeneratedRenders.

Lemma generated_logo_renders_witness :
  exists cfg w',
    generateLogoConfig ascii_toUpperCase (lit "Nova")
      (Options.mk (Some (lit "constructor")) None None None None None) (constant_world 0)
    = (Returns cfg, w') /\
    (Options.paletteType (Options.mk (Some (lit "constructor")) None None None None None)
     = None \/
       ~ Spec.inherited
           (default_random
              (Options.paletteType
                 (Options.mk (Some (lit "constructor")) None None None None None))) ->
     Spec.drawn_from_own_category (Logo.palette cfg) /\
     0 <= Logo.borderRadius cfg /\
     exists ops w3, sample_drawLogo cfg 600 (constant_world 0) = (Returns ops, w3)) /\
    (Spec.inherited
       (default_random
          (Options.paletteType
             (Options.mk (Some (lit "constructor")) None None None None None))) ->
     bg (Logo.palette cfg) = None /\
     fst (sample_drawLogo cfg 600 (constant_world 0)) = Throws TypeError).
Proof.
  apply (@generated_logo_renders ascii_toUpperCase App.integer_toString sample_PI
           sample_cos sample_sin sample_shiftHue sample_inherited_text (lit "Nova")
           (Options.mk (Some (lit "constructor")) None None None None None)
           (constant_world 0) 600 (constant_world 0)).
  - apply unit_range_constant; [apply Qle_refl | reflexivity].
  - discriminate.
Defined.
